(** * PdfToTxt: the Korean-enhanced PDF to text converter

    A shallow embedding of [enhanced_pdf_converter.py] (class
    [KoreanPDFConverter]): the Korean text repairer, the quality scorer,
    the smart method selector, the output writer and the batch
    orchestrator, with the properties of its specification stated and
    settled against the code.

    Conventions.
    - A Python [str] is a list of Unicode code points ([text := list Z]).
    - The score is a Python float, an IEEE 754 double; it is modelled
      by its value, a rational ([Q], compared with [==]), and every
      operation on floats is followed by the rounding to the nearest
      double ([Binary64.round]).  Two doubles compare as their values
      do.
    - What the interpreter brings (the Unicode tables behind [\w] and
      [unicodedata.normalize], [platform.system()], the [os.path] and
      [pathlib] functions) is a [Runtime] record the definitions take as
      an argument.  The third-party extraction libraries are a
      [Backends] record.
    - The four adapters are modelled over a [Libraries] record: what
      each library returns or raises for a path, page by page.
    - The callbacks of the file list work on a [Gui.Window]; what a
      dialog or the list box selection returns is an argument of the
      callback.
    - Log lines and message boxes are events appended to the world's
      log, one constructor per call site, carrying the values the
      f-string interpolates.  Progress bar and label updates are left
      out. *)

From Stdlib Require Import ZArith List Bool String Ascii QArith Qminmax Lia Lqa.
From Stdlib Require Import Permutation Qround Qabs Qpower.
From stdpp Require Import gmap.
Import ListNotations.

Open Scope Z_scope.

(* ===================================================================== *)
(** * Text *)
(* ===================================================================== *)

Definition text := list Z.

Module Utf8.
(** Source literals are written as UTF-8 strings and decoded to code
    points, so that the Korean literals of the program can be kept as
    they are. *)

Definition byte_of (a : ascii) : Z := Z.of_N (N_of_ascii a).

Definition cont (b : Z) : Z := Z.land b 0x3F.

Fixpoint decode (bs : list Z) : text :=
  match bs with
  | [] => []
  | b0 :: r0 =>
    if b0 <? 0x80 then b0 :: decode r0
    else if b0 <? 0xE0 then
      match r0 with
      | b1 :: r1 => Z.lor (Z.shiftl (Z.land b0 0x1F) 6) (cont b1) :: decode r1
      | _ => []
      end
    else if b0 <? 0xF0 then
      match r0 with
      | b1 :: b2 :: r2 =>
        Z.lor (Z.shiftl (Z.land b0 0x0F) 12)
              (Z.lor (Z.shiftl (cont b1) 6) (cont b2)) :: decode r2
      | _ => []
      end
    else
      match r0 with
      | b1 :: b2 :: b3 :: r3 =>
        Z.lor (Z.shiftl (Z.land b0 0x07) 18)
              (Z.lor (Z.shiftl (cont b1) 12)
                     (Z.lor (Z.shiftl (cont b2) 6) (cont b3))) :: decode r3
      | _ => []
      end
  end.

Definition of_string (s : string) : text :=
  decode (map byte_of (list_ascii_of_string s)).
End Utf8.

(** A Python string literal. *)
Definition py (s : string) : text := Utf8.of_string s.

(** [ord] of the characters the program names. *)
Definition TAB : Z := 0x09.
Definition NL : Z := 0x0A.
Definition SPACE : Z := 0x20.
Definition QUESTION : Z := 0x3F.
Definition UNDERSCORE : Z := 0x5F.

(* ===================================================================== *)
(** * Character classes *)
(* ===================================================================== *)

Definition in_range (lo hi c : Z) : bool := (lo <=? c) && (c <=? hi).

(** [[가-힣]]: the precomposed Hangul syllables, U+AC00 .. U+D7A3. *)
Definition is_hangul (c : Z) : bool := in_range 0xAC00 0xD7A3 c.

(** [[ㄱ-ㅎ]]: the compatibility consonant jamo, U+3131 .. U+314E. *)
Definition is_consonant_jamo (c : Z) : bool := in_range 0x3131 0x314E c.

(** [[ㅏ-ㅣ]]: the compatibility vowel jamo, U+314F .. U+3163. *)
Definition is_vowel_jamo (c : Z) : bool := in_range 0x314F 0x3163 c.

(** [[ㄱ-ㅎㅏ-ㅣ]] *)
Definition is_jamo (c : Z) : bool := is_consonant_jamo c || is_vowel_jamo c.

(** [\s] of [re] on a [str] pattern and the characters [str.strip()]
    removes are both CPython's [Py_UNICODE_ISSPACE]. *)
Definition isspace (c : Z) : bool :=
  in_range 0x09 0x0D c || in_range 0x1C 0x20 c
  || (c =? 0x85) || (c =? 0xA0) || (c =? 0x1680)
  || in_range 0x2000 0x200A c
  || (c =? 0x2028) || (c =? 0x2029) || (c =? 0x202F)
  || (c =? 0x205F) || (c =? 0x3000).

(** [0xD800 <= ord(char) <= 0xDFFF] *)
Definition is_surrogate (c : Z) : bool := in_range 0xD800 0xDFFF c.

(** [[\x00-\x08\x0B\x0C\x0E-\x1F\x7F]] *)
Definition is_control (c : Z) : bool :=
  in_range 0x00 0x08 c || (c =? 0x0B) || (c =? 0x0C)
  || in_range 0x0E 0x1F c || (c =? 0x7F).

(** [[.,!?()]] *)
Definition is_punct (c : Z) : bool :=
  (c =? 0x2E) || (c =? 0x2C) || (c =? 0x21) || (c =? 0x3F)
  || (c =? 0x28) || (c =? 0x29).

(* ===================================================================== *)
(** * The runtime *)
(* ===================================================================== *)

(** [platform.system()] *)
Inductive OS := Windows | Darwin | Linux.

Definition os_text (o : OS) : text :=
  match o with
  | Windows => py "Windows"
  | Darwin => py "Darwin"
  | Linux => py "Linux"
  end.

Record Runtime := {
  (** [str.isalnum] on one character: [\w] is [isalnum] or [_] *)
  isalnum : Z -> bool;
  (** [unicodedata.normalize('NFC', .)] *)
  normalize_NFC : text -> text;
  os_name : OS;
  (** [os.path.basename], [Path(.).stem], [os.path.join] *)
  os_path_basename : text -> text;
  path_stem : text -> text;
  os_path_join : text -> text -> text;
  (** the characters the [cp949] codec has a code for *)
  cp949_encodes : Z -> bool
}.

(* ===================================================================== *)
(** * String primitives *)
(* ===================================================================== *)

(** [len(re.findall(r'[...]', text))] for a one-character class. *)
Fixpoint findall_class (p : Z -> bool) (t : text) : nat :=
  match t with
  | [] => O
  | c :: r => if p c then S (findall_class p r) else findall_class p r
  end.

(** [''.join(char for char in text if not p(char))], and [re.sub] of a
    one-character class by the empty string. *)
Fixpoint remove_class (p : Z -> bool) (t : text) : text :=
  match t with
  | [] => []
  | c :: r => if p c then remove_class p r else c :: remove_class p r
  end.

Fixpoint lstrip (t : text) : text :=
  match t with
  | [] => []
  | c :: r => if isspace c then lstrip r else t
  end.

Fixpoint rstrip (t : text) : text :=
  match t with
  | [] => []
  | c :: r =>
    match rstrip r with
    | [] => if isspace c then [] else [c]
    | r' => c :: r'
    end
  end.

(** [text.strip()] *)
Definition strip (t : text) : text := rstrip (lstrip t).

(** [len(re.findall(r'[가-힣]{2,}', text))].  The greedy quantifier takes a
    whole run of syllables; a run of two or more is one match and the
    scan resumes behind it; [run] is the number of syllables the current
    attempt has consumed. *)
Fixpoint findall_hangul_words (run : nat) (t : text) : nat :=
  match t with
  | [] => if (2 <=? run)%nat then 1%nat else O
  | c :: r =>
    if is_hangul c then findall_hangul_words (S run) r
    else ((if (2 <=? run)%nat then 1 else 0) + findall_hangul_words 0 r)%nat
  end.

(* ===================================================================== *)
(** * Floating point *)
(* ===================================================================== *)

Module Binary64.
(** Python's [float] is the IEEE 754 binary64 format.  A float that is a
    number is modelled by its value, a rational; an operation returns
    the double nearest to the exact result, the one with the even
    significand when two are equally near.  The exponent range is left
    out: the quantities of the scorer stay between [2^-64] and [2^8]
    for every string Python can hold, far from overflow and from the
    subnormal numbers. *)


(** The nearest integer, the even one of two that are equally near. *)
Definition round_half_even (q : Q) : Z :=
  let f := Qfloor q in
  match (q - inject_Z f ?= 1 # 2)%Q with
  | Lt => f
  | Gt => f + 1
  | Eq => if Z.even f then f else f + 1
  end.

(** The [e] with [2^e <= |x| < 2^(e+1)], for [x] other than 0. *)
Definition floor_log2 (x : Q) : Z :=
  let k := Z.log2 (Z.abs (Qnum x)) - Z.log2 (Zpos (Qden x)) in
  if Qle_bool (2 ^ k) (Qabs x) then k else k - 1.

(** The double nearest to [x]: 53 significant bits. *)
Definition round (x : Q) : Q :=
  if Qeq_bool x 0 then 0%Q
  else
    let e := floor_log2 x - 52 in
    (inject_Z (round_half_even (x / 2 ^ e)) * 2 ^ e)%Q.

(** [float(n)] for an [int], and the four operations. *)
Definition of_int (n : Q) : Q := round n.
Definition add (a b : Q) : Q := round (a + b).
Definition sub (a b : Q) : Q := round (a - b).
Definition mul (a b : Q) : Q := round (a * b).
Definition div (a b : Q) : Q := round (a / b).
End Binary64.

(* ===================================================================== *)
(** * Quality scorer *)
(* ===================================================================== *)

Section Scorer.
Context (rt : Runtime).

(** [\w] *)
Definition is_word (c : Z) : bool := isalnum rt c || (c =? UNDERSCORE).

(** [[^\w\s가-힣ㄱ-ㅎㅏ-ㅣ.,!?()]] *)
Definition is_broken (c : Z) : bool :=
  negb (is_word c || isspace c || is_hangul c || is_jamo c || is_punct c).

Definition Zq (n : nat) : Q := inject_Z (Z.of_nat n).

(** [evaluate_korean_quality].  The quotient of two [int]s is the
    double nearest to the exact quotient; an [int] that meets a float
    is converted first ([100], [50], [20] and [10] are doubles). *)
Definition evaluate_korean_quality (t : text) : Q :=
  match t with
  | [] => 0
  | _ =>
    let score := 0%Q in
    let total_chars := length (strip t) in
    if (total_chars =? 0)%nat then 0
    else
      let korean_chars := findall_class is_hangul t in
      let korean_ratio := Binary64.div (Zq korean_chars) (Zq total_chars) in
      let score := Binary64.add score (Binary64.mul korean_ratio 100) in
      let complete_korean := findall_class is_hangul t in
      let incomplete_korean := findall_class is_jamo t in
      let score :=
        if (0 <? complete_korean + incomplete_korean)%nat then
          let complete_ratio :=
            Binary64.div (Zq complete_korean)
                         (Zq (complete_korean + incomplete_korean)) in
          Binary64.add score (Binary64.mul complete_ratio 50)
        else score in
      let korean_words := findall_hangul_words 0 t in
      let score :=
        if (0 <? total_chars)%nat then
          let word_density :=
            Binary64.div (Binary64.of_int (Zq korean_words))
                         (Binary64.div (Zq total_chars) 10) in
          Binary64.add score (Qmin (Binary64.mul word_density 20) 20)
        else score in
      let broken_patterns := findall_class is_broken t in
      let score :=
        if (0 <? total_chars)%nat then
          let broken_ratio :=
            Binary64.div (Zq broken_patterns) (Zq total_chars) in
          Binary64.sub score (Binary64.mul broken_ratio 50)
        else score in
      Qmax 0 score
  end.
End Scorer.

(* ===================================================================== *)
(** * Configuration, world and the exception monad *)
(* ===================================================================== *)

(** The values of the [extraction_method] radio buttons; any other
    string takes the fallback branch of [extract_text_from_pdf]. *)
Inductive Method :=
| smart_korean | all_methods | pdfminer | pymupdf | pdfplumber | pypdf2
| other_method.

(** The Tk variables and the file list of the converter object. *)
Record Config := {
  extraction_method : Method;
  font_recovery : bool;
  charset_detection : bool;
  unicode_normalization : bool;
  broken_char_repair : bool;
  merge_option : bool;
  page_separator : bool;
  output_path : text;
  pdf_files : list text
}.

(** [str(e)] of a raised exception. *)
Definition exn := text.

Inductive result (A : Type) :=
| Ok (a : A)
| Raise (e : exn).
Arguments Ok {A} a.
Arguments Raise {A} e.

(** One constructor per [self.log] / [messagebox] call site. *)
Inductive event :=
| LogRepairError (e : exn)
| LogMethodScore (method_name : text) (current_score : Q) (len : nat)
| LogMethodFailed (method_name : text) (e : exn)
| LogBestMethod (best_method : text) (korean_score : Q)
| LogStart (total_files : nat) (os : OS)
| LogMode (m : Method)
| LogProcessing (filename : text)
| LogSuccessKorean (char_count korean_chars : nat) (korean_quality : Q)
| LogSuccessPlain (char_count : nat)
| LogSaved (output_filename encoding : text)
| LogSaveFailed
| LogNoText
| LogFailed (e : exn)
| LogDone
| LogSuccessCount (n : nat)
| LogKoreanCount (n : nat)
| LogEmptyCount (n : nat)
| LogErrorCount (n : nat)
| LogTotal (n : nat)
| ShowInfo (success_count korean_recovered empty_count error_count : nat)
| ShowWarning (msg : text)
| LogStopped.

(** [open(..., errors=...)] *)
Inductive errors_mode := errors_replace | errors_ignore.

(** What [open(filepath, 'w', encoding, errors)] followed by
    [file.write(text)] leaves behind: the characters handed to the
    codec, together with the codec; [file_content] below is what the
    codec makes of them.  After a write that failed, [file_text] is the
    part of the text that got through. *)
Record FileData := {
  file_encoding : text;
  file_errors : errors_mode;
  file_text : text
}.

(** The fate of one [with open(filepath, 'w', ...) as file:
    file.write(text)]: it completes; [open] raises, and the disk stays as
    it is; or [open] has emptied the target and the write, or the flush
    when the file is closed, raises once [written] characters have
    reached the file. *)
Inductive fate :=
| completes
| open_raises
| write_raises (written : nat).

(** The file system, the cancellation flag and the log.  [io_faults] is
    the fate of the coming [with open] blocks, one entry per block; once
    the list is used up every block completes. *)
Record World := {
  disk : gmap text FileData;
  io_faults : list fate;
  is_converting : bool;
  log_sink : list event
}.

Definition M (A : Type) : Type := World -> World * result A.

Definition ret {A} (a : A) : M A := fun w => (w, Ok a).

Definition raise {A} (e : exn) : M A := fun w => (w, Raise e).

Definition bind {A B} (m : M A) (k : A -> M B) : M B :=
  fun w =>
    match m w with
    | (w', Ok a) => k a w'
    | (w', Raise e) => (w', Raise e)
    end.

(** [try: m  except Exception as e: h e] *)
Definition try_except {A} (m : M A) (h : exn -> M A) : M A :=
  fun w =>
    match m w with
    | (w', Ok a) => (w', Ok a)
    | (w', Raise e) => h e w'
    end.

Definition lift {A} (r : result A) : M A := fun w => (w, r).

Notation "'let*' x ':=' m 'in' k" := (bind m (fun x => k))
  (at level 10, x pattern, m at level 100, k at level 200).

(** [self.log(message)] *)
Definition log (ev : event) : M unit :=
  fun w =>
    ({| disk := disk w; io_faults := io_faults w;
        is_converting := is_converting w;
        log_sink := log_sink w ++ [ev] |}, Ok tt).

Definition set_is_converting (b : bool) : M unit :=
  fun w =>
    ({| disk := disk w; io_faults := io_faults w;
        is_converting := b; log_sink := log_sink w |}, Ok tt).

Definition next_fate (w : World) : fate := hd completes (io_faults w).

Definition consume_fault (w : World) : World :=
  {| disk := disk w; io_faults := tl (io_faults w);
     is_converting := is_converting w; log_sink := log_sink w |}.

Definition store (filepath : text) (d : FileData) (w : World) : World :=
  {| disk := <[filepath := d]> (disk w); io_faults := io_faults w;
     is_converting := is_converting w; log_sink := log_sink w |}.

(** [with open(filepath, 'w', encoding=enc, errors=errs) as file:
        file.write(text)] *)
Definition open_write (filepath enc : text) (errs : errors_mode) (t : text)
  : M unit :=
  fun w =>
    match next_fate w with
    | completes =>
      (store filepath
             {| file_encoding := enc; file_errors := errs; file_text := t |}
             (consume_fault w),
       Ok tt)
    | open_raises => (consume_fault w, Raise (py "OSError"))
    | write_raises written =>
      (store filepath
             {| file_encoding := enc; file_errors := errs;
                file_text := firstn written t |}
             (consume_fault w),
       Raise (py "OSError"))
    end.

(* ===================================================================== *)
(** * Korean text repairer *)
(* ===================================================================== *)

(** [re.sub(v + r'([ㄱ-ㅎ])', r'\1' + v, text)] for a vowel jamo [v]:
    matches are found left to right and do not overlap. *)
Fixpoint sub_vowel_first (v : Z) (t : text) : text :=
  match t with
  | a :: ((b :: r) as tl) =>
    if (a =? v) && is_consonant_jamo b then b :: v :: sub_vowel_first v r
    else a :: sub_vowel_first v tl
  | _ => t
  end.

(** The keys of [broken_patterns], in insertion order. *)
Definition broken_patterns : list Z := py "ㅏㅓㅗㅜㅡㅣ".

(** [re.sub(r'\s+', ' ', text)]; [in_run] tells that the preceding
    character belongs to the run being replaced. *)
Fixpoint sub_spaces (in_run : bool) (t : text) : text :=
  match t with
  | [] => []
  | c :: r =>
    if isspace c then
      if in_run then sub_spaces true r else SPACE :: sub_spaces true r
    else c :: sub_spaces false r
  end.

(** Length of the longest prefix of [t] that matches [\s*\n]. *)
Fixpoint blank_match_len (t : text) : option nat :=
  match t with
  | [] => None
  | c :: r =>
    if isspace c then
      match blank_match_len r with
      | Some n => Some (S n)
      | None => if c =? NL then Some 1%nat else None
      end
    else None
  end.

(** [re.sub(r'\n\s*\n', '\n\n', text)]; [skip] counts the characters
    still covered by the last match. *)
Fixpoint sub_blank_lines (skip : nat) (t : text) : text :=
  match t with
  | [] => []
  | c :: r =>
    match skip with
    | S k => sub_blank_lines k r
    | O =>
      if c =? NL then
        match blank_match_len r with
        | Some n => NL :: NL :: sub_blank_lines n r
        | None => c :: sub_blank_lines 0 r
        end
      else c :: sub_blank_lines 0 r
    end
  end.

(** The library calls inside the [try] block of [repair_korean_text];
    each of them may raise. *)
Inductive call_site :=
| call_normalize
| call_sub_pattern (v : Z)
| call_transcode
| call_join
| call_sub_control
| call_sub_spaces
| call_sub_blank_lines
| call_strip.

(** Which call raises, and with what; [no_failure] is the run in which
    none does. *)
Definition Failures := call_site -> option exn.

Definition no_failure : Failures := fun _ => None.

Definition call {A B} (fl : Failures) (site : call_site) (f : A -> B) (x : A)
  : M B :=
  match fl site with
  | Some e => raise e
  | None => ret (f x)
  end.

(** [get_system_encoding] *)
Definition get_system_encoding (o : OS) : text :=
  match o with
  | Windows => py "cp949"
  | _ => py "utf-8"
  end.

Definition is_windows (o : OS) : bool :=
  match o with Windows => true | _ => false end.

Definition text_eqb (a b : text) : bool := bool_decide (a = b).

Section Repairer.
Context (rt : Runtime) (fl : Failures) (cfg : Config).

(** Step 2: the six substitutions, one after the other. *)
Fixpoint recover_font (patterns : list Z) (t : text) : M text :=
  match patterns with
  | [] => ret t
  | v :: rest =>
    let* t1 := call fl (call_sub_pattern v) (sub_vowel_first v) t in
    recover_font rest t1
  end.

(** The body of the [try] block. *)
Definition repair_body (t : text) : M text :=
  (* 1 *)
  let* t :=
    if unicode_normalization cfg
    then call fl call_normalize (normalize_NFC rt) t
    else ret t in
  (* 2 *)
  let* t :=
    if font_recovery cfg then recover_font broken_patterns t else ret t in
  (* 3: the result of the transcoding is dropped, and so is its failure *)
  let* _ :=
    if charset_detection cfg then
      let system_encoding := get_system_encoding (os_name rt) in
      try_except
        (if text_eqb system_encoding (py "cp949") && is_windows (os_name rt)
         then call fl call_transcode (fun _ : text => tt) t
         else ret tt)
        (fun _ => ret tt)
    else ret tt in
  (* 4 *)
  let* t := call fl call_join (remove_class is_surrogate) t in
  (* 5 *)
  let* t := call fl call_sub_control (remove_class is_control) t in
  (* 6 *)
  let* t := call fl call_sub_spaces (sub_spaces false) t in
  let* t := call fl call_sub_blank_lines (sub_blank_lines 0) t in
  call fl call_strip strip t.

(** [repair_korean_text] *)
Definition repair_korean_text (t : text) : M text :=
  match t with
  | [] => ret t
  | _ =>
    if negb (broken_char_repair cfg) then ret t
    else
      let original_text := t in
      try_except (repair_body t)
        (fun e =>
           let* _ := log (LogRepairError e) in
           ret original_text)
  end.
End Repairer.

(* ===================================================================== *)
(** * Backend adapters *)
(* ===================================================================== *)

(** The uniform contract of the four adapters: a path gives a text or an
    exception.  What the extraction libraries return is not this
    program's to decide. *)
Definition Backend := text -> result text.

Record Backends := {
  PYPDF2_AVAILABLE : bool;
  PDFPLUMBER_AVAILABLE : bool;
  PYMUPDF_AVAILABLE : bool;
  PDFMINER_AVAILABLE : bool;
  extract_text_pdfminer : Backend;
  extract_text_pymupdf_korean : Backend;
  extract_text_pdfplumber : Backend;
  extract_text_pypdf2 : Backend
}.

(** The three locals the selector's loop updates together. *)
Record Best := {
  best_text : text;
  best_method : text;
  korean_score : Q
}.

(** The four counters of [convert_files]. *)
Record Counters := {
  success_count : nat;
  empty_count : nat;
  error_count : nat;
  korean_recovered : nat
}.

Definition Qgtb (a b : Q) : bool := negb (Qle_bool a b).

(** [bool(x)] of a [str] or a [list]. *)
Definition nonempty {A} (l : list A) : bool :=
  match l with [] => false | _ => true end.

(** [''.join(char if ord(char) < 128 else '?' for char in text)] *)
Definition ascii_or_question (t : text) : text :=
  map (fun c => if c <? 128 then c else QUESTION) t.

(** The characters the encodings of the writer have a code for. *)
Definition can_encode (rt : Runtime) (encoding : text) (c : Z) : bool :=
  if text_eqb encoding (py "utf-8") then negb (is_surrogate c)
  else if text_eqb encoding (py "latin-1") then c <? 256
  else if text_eqb encoding (py "ascii") then c <? 128
  else cp949_encodes rt c.

(** The characters a file holds: with [errors='replace'] the codec
    writes [?] for a character it has no code for, with
    [errors='ignore'] it leaves the character out.  The line ends of
    the platform are not modelled. *)
Definition file_content (rt : Runtime) (d : FileData) : text :=
  match file_errors d with
  | errors_replace =>
    map (fun c => if can_encode rt (file_encoding d) c then c else QUESTION)
        (file_text d)
  | errors_ignore =>
    List.filter (can_encode rt (file_encoding d)) (file_text d)
  end.

Definition ASCII_LOSSY : text := py "ASCII (문자 손실)".

Definition FAILED : text := py "실패".

(** The two fixed messages of [convert_files]. *)
Definition empty_message_for (filename : text) : text :=
  filename ++ py "에서 텍스트를 추출할 수 없습니다." ++ [NL; NL]
  ++ py "가능한 원인:" ++ [NL]
  ++ py "• 이미지로만 구성된 PDF (스캔 문서)" ++ [NL]
  ++ py "• 암호화되거나 보호된 PDF" ++ [NL]
  ++ py "• 특수한 폰트나 인코딩 사용" ++ [NL]
  ++ py "• 손상된 PDF 파일" ++ [NL; NL]
  ++ py "해결 방법:" ++ [NL]
  ++ py "• OCR 프로그램 사용 (이미지 PDF의 경우)" ++ [NL]
  ++ py "• PDF 암호 해제 후 재시도" ++ [NL]
  ++ py "• 다른 PDF 뷰어로 다시 저장 후 시도" ++ [NL].

Definition error_message_for (o : OS) (filename : text) (e : exn) : text :=
  py "PDF 변환 실패: " ++ filename ++ [NL] ++ py "오류: " ++ e ++ [NL; NL]
  ++ py "시스템: " ++ os_text o ++ [NL]
  ++ py "다른 변환 방법을 시도해보세요:" ++ [NL]
  ++ py "• 다른 라이브러리 방법 선택" ++ [NL]
  ++ py "• 한글 복구 옵션 조정" ++ [NL]
  ++ py "• PDF를 다른 형식으로 저장 후 재시도" ++ [NL].

Section Converter.
Context (rt : Runtime) (bk : Backends) (cfg : Config).

(* --------------------------------------------------------------------- *)
(** ** Method selector *)

(** [methods], in the order the availability tests append them. *)
Definition smart_methods : list (text * Backend) :=
  (if PDFMINER_AVAILABLE bk
   then [(py "pdfminer (한글특화)", extract_text_pdfminer bk)] else [])
  ++ (if PYMUPDF_AVAILABLE bk
      then [(py "PyMuPDF (한글최적화)", extract_text_pymupdf_korean bk)] else [])
  ++ (if PDFPLUMBER_AVAILABLE bk
      then [(py "pdfplumber", extract_text_pdfplumber bk)] else [])
  ++ (if PYPDF2_AVAILABLE bk
      then [(py "PyPDF2", extract_text_pypdf2 bk)] else []).

(** [current_score > korean_score or
     (current_score == korean_score and len(text) > len(best_text))];
    the scores are doubles, compared by their values. *)
Definition replaces_best (current_score : Q) (t : text) (b : Best) : bool :=
  Qgtb current_score (korean_score b)
  || (Qeq_bool current_score (korean_score b)
      && (length (best_text b) <? length t)%nat).

(** One turn of the [for] loop; only [method_func] can raise, and it is
    called before the three locals are assigned. *)
Definition smart_step (pdf_path : text) (b : Best) (m : text * Backend)
  : M Best :=
  let (method_name, method_func) := m in
  try_except
    (let* t := lift (method_func pdf_path) in
     let current_score := evaluate_korean_quality rt t in
     let b' :=
       if replaces_best current_score t b
       then {| best_text := t; best_method := method_name;
               korean_score := current_score |}
       else b in
     let* _ := log (LogMethodScore method_name current_score
                                   (length (strip t))) in
     ret b')
    (fun e =>
       let* _ := log (LogMethodFailed method_name e) in
       ret b).

Fixpoint smart_loop (methods : list (text * Backend)) (pdf_path : text)
         (b : Best) : M Best :=
  match methods with
  | [] => ret b
  | m :: rest =>
    let* b' := smart_step pdf_path b m in
    smart_loop rest pdf_path b'
  end.

Definition initial_best : Best :=
  {| best_text := []; best_method := []; korean_score := 0 |}.

(** The selector on an explicit method list. *)
Definition smart_select (methods : list (text * Backend)) (pdf_path : text)
  : M text :=
  let* b := smart_loop methods pdf_path initial_best in
  let* _ :=
    if nonempty (strip (best_text b))
    then log (LogBestMethod (best_method b) (korean_score b))
    else ret tt in
  ret (best_text b).

(** [extract_text_smart_korean] *)
Definition extract_text_smart_korean (pdf_path : text) : M text :=
  smart_select smart_methods pdf_path.

(** [extract_text_from_pdf] *)
Definition extract_text_from_pdf (pdf_path : text) : M text :=
  try_except
    (match extraction_method cfg with
     | smart_korean => extract_text_smart_korean pdf_path
     | all_methods => extract_text_smart_korean pdf_path
     | pdfminer =>
       if PDFMINER_AVAILABLE bk
       then lift (extract_text_pdfminer bk pdf_path)
       else extract_text_smart_korean pdf_path
     | pymupdf =>
       if PYMUPDF_AVAILABLE bk
       then lift (extract_text_pymupdf_korean bk pdf_path)
       else extract_text_smart_korean pdf_path
     | pdfplumber =>
       if PDFPLUMBER_AVAILABLE bk
       then lift (extract_text_pdfplumber bk pdf_path)
       else extract_text_smart_korean pdf_path
     | pypdf2 =>
       if PYPDF2_AVAILABLE bk
       then lift (extract_text_pypdf2 bk pdf_path)
       else extract_text_smart_korean pdf_path
     | other_method => extract_text_smart_korean pdf_path
     end)
    (fun e => raise (py "텍스트 추출 실패: " ++ e)).

(* --------------------------------------------------------------------- *)
(** ** Output writer *)

(** [encodings] *)
Definition encodings : list text :=
  match os_name rt with
  | Windows => [py "utf-8"; py "cp949"; py "ascii"]
  | _ => [py "utf-8"; py "latin-1"; py "ascii"]
  end.

(** The [for enc in encodings] loop: [Some enc] is the [return True, enc]
    inside it, [None] is falling out of the loop. *)
Fixpoint try_encodings (filepath t : text) (encs : list text)
  : M (option text) :=
  match encs with
  | [] => ret None
  | enc :: rest =>
    try_except
      (let* _ := open_write filepath enc errors_replace t in
       ret (Some enc))
      (fun _ => try_encodings filepath t rest)
  end.

(** [safe_write_text]; its [encoding] argument is assigned and never
    read. *)
Definition safe_write_text (filepath t : text) : M (bool * text) :=
  let* r := try_encodings filepath t encodings in
  match r with
  | Some enc => ret (true, enc)
  | None =>
    try_except
      (let ascii_text := ascii_or_question t in
       let* _ := open_write filepath (py "ascii") errors_ignore ascii_text in
       ret (true, ASCII_LOSSY))
      (fun _ => ret (false, FAILED))
  end.

(* --------------------------------------------------------------------- *)
(** ** Batch orchestrator *)

(** [stop_conversion], called by the coordinating thread. *)
Definition stop_conversion : M unit :=
  let* _ := set_is_converting false in
  log LogStopped.

(** [ui k] tells whether the stop button is pressed between the
    [k-1]-th and the [k]-th reading of the flag by the worker. *)
Definition ui_step (ui : nat -> bool) (k : nat) : M unit :=
  if ui k then stop_conversion else ret tt.

Definition get_is_converting : M bool := fun w => (w, Ok (is_converting w)).

(** The body of the [for] loop below the test of the flag.  Nothing
    after [extract_text_from_pdf] raises, so the handler sees the
    counters as they were when the file was begun. *)
Definition convert_one (pdf_path : text) (c : Counters) : M Counters :=
  let output_dir := output_path cfg in
  let filename := os_path_basename rt pdf_path in
  let* _ := log (LogProcessing filename) in
  try_except
    (let* t := extract_text_from_pdf pdf_path in
     let output_filename := path_stem rt filename ++ py ".txt" in
     let output_path := os_path_join rt output_dir output_filename in
     if nonempty (strip t) then
       let korean_quality := evaluate_korean_quality rt t in
       let* (success, encoding) := safe_write_text output_path t in
       if success : bool then
         let char_count := length (strip t) in
         let korean_chars := findall_class is_hangul t in
         let* _ :=
           if (0 <? korean_chars)%nat
           then log (LogSuccessKorean char_count korean_chars korean_quality)
           else log (LogSuccessPlain char_count) in
         let* _ := log (LogSaved output_filename encoding) in
         ret {| success_count := S (success_count c);
                empty_count := empty_count c;
                error_count := error_count c;
                korean_recovered :=
                  if (0 <? korean_chars)%nat
                  then S (korean_recovered c) else korean_recovered c |}
       else
         let* _ := log LogSaveFailed in
         ret {| success_count := success_count c;
                empty_count := empty_count c;
                error_count := S (error_count c);
                korean_recovered := korean_recovered c |}
     else
       let empty_message := empty_message_for filename in
       let* _ := safe_write_text output_path empty_message in
       let* _ := log LogNoText in
       ret {| success_count := success_count c;
              empty_count := S (empty_count c);
              error_count := error_count c;
              korean_recovered := korean_recovered c |})
    (fun e =>
       let* _ := log (LogFailed e) in
       let error_filename := path_stem rt filename ++ py "_오류.txt" in
       let error_path := os_path_join rt output_dir error_filename in
       let error_message := error_message_for (os_name rt) filename e in
       let* _ := safe_write_text error_path error_message in
       ret {| success_count := success_count c;
              empty_count := empty_count c;
              error_count := S (error_count c);
              korean_recovered := korean_recovered c |}).

(** [for i, pdf_path in enumerate(self.pdf_files)], from index [i] on.
    The result is the counters when the loop is left. *)
Fixpoint convert_loop (ui : nat -> bool) (i : nat) (files : list text)
         (c : Counters) : M Counters :=
  match files with
  | [] => let* _ := ui_step ui i in ret c
  | pdf_path :: rest =>
    let* _ := ui_step ui i in
    let* converting := get_is_converting in
    if negb converting then ret c
    else
      let* c' := convert_one pdf_path c in
      convert_loop ui (S i) rest c'
  end.

Definition zero_counters : Counters :=
  {| success_count := 0; empty_count := 0; error_count := 0;
     korean_recovered := 0 |}.

(** The summary behind [if self.is_converting:]. *)
Definition report_summary (c : Counters) : M unit :=
  let* converting := get_is_converting in
  if converting : bool then
    let* _ := log LogDone in
    let* _ := log (LogSuccessCount (success_count c)) in
    let* _ := log (LogKoreanCount (korean_recovered c)) in
    let* _ := log (LogEmptyCount (empty_count c)) in
    let* _ := log (LogErrorCount (error_count c)) in
    let* _ := log (LogTotal (success_count c + empty_count c
                             + error_count c)) in
    log (ShowInfo (success_count c) (korean_recovered c)
                  (empty_count c) (error_count c))
  else ret tt.

(** [conversion_finished] *)
Definition conversion_finished : M unit := set_is_converting false.

(** [convert_files].  No step of the model raises outside the per-file
    [try], so the outer handler has nothing to catch; the [finally]
    clause runs last. *)
Definition convert_files (ui : nat -> bool) : M Counters :=
  let total_files := length (pdf_files cfg) in
  let* _ := log (LogStart total_files (os_name rt)) in
  let* _ := log (LogMode (extraction_method cfg)) in
  let* c := convert_loop ui 0 (pdf_files cfg) zero_counters in
  let* _ := report_summary c in
  let* _ := conversion_finished in
  ret c.

(** [start_conversion], with the worker run to its end. *)
Definition start_conversion (ui : nat -> bool) : M unit :=
  if negb (nonempty (pdf_files cfg)) then
    log (ShowWarning (py "변환할 PDF 파일을 추가해주세요."))
  else if negb (nonempty (output_path cfg)) then
    log (ShowWarning (py "출력 폴더를 선택해주세요."))
  else
    let* _ := set_is_converting true in
    let* _ := convert_files ui in
    ret tt.
End Converter.

(* ===================================================================== *)
(** * The scorer as the specification words it *)
(* ===================================================================== *)

(** "count of complete Hangul syllables" *)
Definition spec_syllables (t : text) : nat := length (List.filter is_hangul t).

(** "lone jamo characters" *)
Definition spec_lone_jamo (t : text) : nat := length (List.filter is_jamo t).

(** "total non-whitespace-trimmed length" *)
Definition spec_length (t : text) : nat := length (strip t).

(** "count of 2+-syllable Hangul runs": the positions at which a run of
    syllables begins and goes on for at least one more syllable. *)
Fixpoint spec_hangul_runs (after_syllable : bool) (t : text) : nat :=
  match t with
  | a :: ((b :: _) as tl) =>
    ((if negb after_syllable && is_hangul a && is_hangul b then 1 else 0)
     + spec_hangul_runs (is_hangul a) tl)%nat
  | _ => O
  end.

(** "characters outside {word chars, whitespace, Hangul syllables, Hangul
    jamo, . , ! ? ( )}" *)
Definition spec_noise (rt : Runtime) (t : text) : nat :=
  length (List.filter
            (fun c => negb (is_word rt c) && negb (isspace c)
                      && negb (is_hangul c) && negb (is_jamo c)
                      && negb (is_punct c)) t).

Definition spec_korean_ratio (t : text) : Q :=
  (Zq (spec_syllables t) / Zq (spec_length t))%Q.

Definition spec_complete_term (t : text) : Q :=
  if (spec_syllables t + spec_lone_jamo t =? 0)%nat then 0%Q
  else (Zq (spec_syllables t) / Zq (spec_syllables t + spec_lone_jamo t)
        * 50)%Q.

Definition spec_word_density (t : text) : Q :=
  (Zq (spec_hangul_runs false t) / (Zq (spec_length t) / 10))%Q.

Definition spec_broken_ratio (rt : Runtime) (t : text) : Q :=
  (Zq (spec_noise rt t) / Zq (spec_length t))%Q.

(** "Final score = max(0, sum)" *)
Definition spec_score (rt : Runtime) (t : text) : Q :=
  Qmax 0 (spec_korean_ratio t * 100 + spec_complete_term t
          + Qmin (spec_word_density t * 20) 20
          - spec_broken_ratio rt t * 50)%Q.

(** The same formula in double arithmetic: every quotient, product, sum
    and difference is rounded to the nearest double, and the terms are
    added from left to right. *)
Definition float_korean_ratio (t : text) : Q :=
  Binary64.div (Zq (spec_syllables t)) (Zq (spec_length t)).

Definition float_complete_term (t : text) : Q :=
  if (spec_syllables t + spec_lone_jamo t =? 0)%nat then 0%Q
  else Binary64.mul
         (Binary64.div (Zq (spec_syllables t))
                       (Zq (spec_syllables t + spec_lone_jamo t))) 50.

Definition float_word_density (t : text) : Q :=
  Binary64.div (Binary64.of_int (Zq (spec_hangul_runs false t)))
               (Binary64.div (Zq (spec_length t)) 10).

Definition float_broken_ratio (rt : Runtime) (t : text) : Q :=
  Binary64.div (Zq (spec_noise rt t)) (Zq (spec_length t)).

Definition float_score (rt : Runtime) (t : text) : Q :=
  Qmax 0 (Binary64.sub
            (Binary64.add
               (Binary64.add (Binary64.mul (float_korean_ratio t) 100)
                             (float_complete_term t))
               (Qmin (Binary64.mul (float_word_density t) 20) 20))
            (Binary64.mul (float_broken_ratio rt t) 50)).

(* ===================================================================== *)
(** * A concrete runtime, for running the model *)
(* ===================================================================== *)

Module Posix.
(** A runtime on which the definitions compute: Linux, the POSIX
    flavour of the path functions, and the Unicode tables cut down to
    ASCII and the Hangul blocks (outside them no character counts as
    alphanumeric and normalisation leaves the text alone). *)

Definition SLASH : Z := 0x2F.
Definition DOT : Z := 0x2E.

Definition hangul_isalnum (c : Z) : bool :=
  in_range 0x30 0x39 c || in_range 0x41 0x5A c || in_range 0x61 0x7A c
  || is_hangul c || is_jamo c || in_range 0x1100 0x11FF c.

(** Conjoining jamo: leading consonants, vowels, trailing consonants. *)
Definition is_L (c : Z) : bool := in_range 0x1100 0x1112 c.
Definition is_V (c : Z) : bool := in_range 0x1161 0x1175 c.
Definition is_T (c : Z) : bool := in_range 0x11A8 0x11C2 c.
Definition is_LV (c : Z) : bool :=
  is_hangul c && ((c - 0xAC00) mod 28 =? 0).

(** The algorithmic part of NFC: Hangul syllable composition. *)
Fixpoint hangul_NFC (t : text) : text :=
  match t with
  | a :: ((b :: r) as tl) =>
    if is_L a && is_V b then
      let lv := 0xAC00 + ((a - 0x1100) * 21 + (b - 0x1161)) * 28 in
      match r with
      | c :: r' =>
        if is_T c then lv + (c - 0x11A7) :: hangul_NFC r'
        else lv :: hangul_NFC r
      | [] => [lv]
      end
    else if is_LV a && is_T b then a + (b - 0x11A7) :: hangul_NFC r
    else a :: hangul_NFC tl
  | _ => t
  end.

Fixpoint after_last_slash (acc t : text) : text :=
  match t with
  | [] => acc
  | c :: r => if c =? SLASH then after_last_slash r r
              else after_last_slash acc r
  end.

(** [posixpath.basename] *)
Definition basename (p : text) : text := after_last_slash p p.

Fixpoint rfind_dot (i : nat) (t : text) : option nat :=
  match t with
  | [] => None
  | c :: r =>
    match rfind_dot (S i) r with
    | Some j => Some j
    | None => if c =? DOT then Some i else None
    end
  end.

(** [PurePosixPath(name).stem] for a name without directory part. *)
Definition stem (name : text) : text :=
  match rfind_dot 0 name with
  | Some i =>
    if (0 <? i)%nat && (i <? length name - 1)%nat then firstn i name
    else name
  | None => name
  end.

(** [posixpath.join] of two components. *)
Definition join (a b : text) : text :=
  match b with
  | c :: _ => if c =? SLASH then b
              else match a with
                   | [] => b
                   | _ => if List.last a 0 =? SLASH then a ++ b
                          else a ++ SLASH :: b
                   end
  | [] => match a with
          | [] => []
          | _ => if List.last a 0 =? SLASH then a else a ++ [SLASH]
          end
  end.

Definition runtime : Runtime :=
  {| isalnum := hangul_isalnum;
     normalize_NFC := hangul_NFC;
     os_name := Linux;
     os_path_basename := basename;
     path_stem := stem;
     os_path_join := join;
     cp949_encodes := fun c => (c <? 128) || is_hangul c || is_jamo c |}.

Definition all_toggles (m : Method) (out : text) (files : list text)
  : Config :=
  {| extraction_method := m;
     font_recovery := true;
     charset_detection := true;
     unicode_normalization := true;
     broken_char_repair := true;
     merge_option := false;
     page_separator := true;
     output_path := out;
     pdf_files := files |}.

Definition fresh_world : World :=
  {| disk := ∅; io_faults := []; is_converting := true; log_sink := [] |}.
End Posix.

Module Sample.
(** A batch of three files: every adapter reads text from the first,
    blanks from the second, and fails on the third. *)

Definition file_a : text := py "/in/a.pdf".
Definition file_b : text := py "/in/b.pdf".
Definition file_c : text := py "/in/c.pdf".

Definition text_a : text := py "한글 문서 text".
Definition text_b : text := [SPACE; NL; SPACE].

Definition adapter : Backend :=
  fun pdf_path =>
    if text_eqb pdf_path file_a then Ok text_a
    else if text_eqb pdf_path file_b then Ok text_b
    else Raise (py "cannot read").

Definition backends : Backends :=
  {| PYPDF2_AVAILABLE := true;
     PDFPLUMBER_AVAILABLE := true;
     PYMUPDF_AVAILABLE := true;
     PDFMINER_AVAILABLE := true;
     extract_text_pdfminer := adapter;
     extract_text_pymupdf_korean := adapter;
     extract_text_pdfplumber := adapter;
     extract_text_pypdf2 := adapter |}.

Definition config (m : Method) : Config :=
  Posix.all_toggles m (py "/out") [file_a; file_b; file_c].

(** The stop button is never pressed; it is pressed while the first
    file is being converted. *)
Definition never : nat -> bool := fun _ => false.
Definition during_first : nat -> bool := fun k => (k =? 1)%nat.

(** A disk on which the next [n] calls of [open] fail. *)
Definition failing_disk (n : nat) : World :=
  {| disk := ∅; io_faults := repeat open_raises n; is_converting := true;
     log_sink := [] |}.

(** A disk that holds an earlier output for the first sample file and
    has no room left: [open] empties the file, and every write but the
    second (which gets two characters through) fails at once. *)
Definition full_disk : World :=
  {| disk := {[ py "/out/a.txt" :=
                  {| file_encoding := py "utf-8";
                     file_errors := errors_replace;
                     file_text := py "earlier output" |} ]};
     io_faults := [write_raises 0; write_raises 2; write_raises 0;
                   write_raises 0];
     is_converting := true;
     log_sink := [] |}.
End Sample.

(* ===================================================================== *)
(** * Vocabulary of the properties *)
(* ===================================================================== *)

(** The extraction candidates of one file: the texts of the methods that
    return, in the order they are run. *)
Fixpoint candidates (methods : list (text * Backend)) (pdf_path : text)
  : list text :=
  match methods with
  | [] => []
  | (_, method_func) :: rest =>
    match method_func pdf_path with
    | Ok t => t :: candidates rest pdf_path
    | Raise _ => candidates rest pdf_path
    end
  end.

(** [b] is a best choice among [seen]: no text of [seen] scores higher,
    none of equal score is longer, the recorded score is the score of
    the recorded text, and the text is one of [seen] unless it is still
    the initial empty one. *)
Definition best_among (rt : Runtime) (b : Best) (seen : list text) : Prop :=
  korean_score b = evaluate_korean_quality rt (best_text b)
  /\ (best_text b = [] \/ In (best_text b) seen)
  /\ forall t, In t seen ->
       (evaluate_korean_quality rt t <= korean_score b)%Q
       /\ (evaluate_korean_quality rt t == korean_score b ->
           (length t <= length (best_text b))%nat).

(** The run of the repairer in which no call fails, as a function:
    steps 1 and 2, which the toggles switch, ... *)
Definition reorder_jamo (t : text) : text :=
  fold_left (fun t v => sub_vowel_first v t) broken_patterns t.

Definition normalize_and_reorder (rt : Runtime) (cfg : Config) (t : text)
  : text :=
  let t := if unicode_normalization cfg then normalize_NFC rt t else t in
  if font_recovery cfg then reorder_jamo t else t.

(** ... and steps 4 to 6 with the final [strip], which nothing
    switches. *)
Definition cleanup (t : text) : text :=
  strip (sub_blank_lines 0
           (sub_spaces false
              (remove_class is_control (remove_class is_surrogate t)))).

Definition repaired (rt : Runtime) (cfg : Config) (t : text) : text :=
  match t with
  | [] => t
  | _ => if broken_char_repair cfg
         then cleanup (normalize_and_reorder rt cfg t) else t
  end.

(** A text whose white space is single U+0020 characters, and which has
    no surrogate and no control character; [after_space] tells that the
    character before [t] is a space. *)
Fixpoint tidy (after_space : bool) (t : text) : bool :=
  match t with
  | [] => true
  | c :: r =>
    if isspace c then (c =? SPACE) && negb after_space && tidy true r
    else negb (is_surrogate c) && negb (is_control c) && tidy false r
  end.

Definition starts_clean (t : text) : bool :=
  match t with
  | [] => true
  | c :: _ => negb (isspace c)
  end.

(** The call sites whose exception reaches the handler of
    [repair_korean_text] under [cfg]: the transcoding probe has a
    handler of its own, and steps 1 and 2 run only when switched on. *)
Definition propagates (cfg : Config) (site : call_site) : bool :=
  match site with
  | call_normalize => unicode_normalization cfg
  | call_sub_pattern v =>
    font_recovery cfg && existsb (Z.eqb v) broken_patterns
  | call_transcode => false
  | _ => true
  end.

(** The repairer is idempotent at [t]: run without failure on its own
    output for [t], it returns that output. *)
Definition idempotent_at (rt : Runtime) (cfg : Config) (t : text) : Prop :=
  forall w t1 w1,
    repair_korean_text rt no_failure cfg t w = (w1, Ok t1) ->
    repair_korean_text rt no_failure cfg t1 w1 = (w1, Ok t1).

(** The selector and the extraction as functions of the path: the
    backends do not read the world, and the selector only logs. *)
Definition select_step (rt : Runtime) (pdf_path : text) (b : Best)
           (m : text * Backend) : Best :=
  match snd m pdf_path with
  | Ok t =>
    if replaces_best (evaluate_korean_quality rt t) t b
    then {| best_text := t; best_method := fst m;
            korean_score := evaluate_korean_quality rt t |}
    else b
  | Raise _ => b
  end.

Definition selection (rt : Runtime) (methods : list (text * Backend))
           (pdf_path : text) : text :=
  best_text (fold_left (select_step rt pdf_path) methods initial_best).

Definition wrap_failure (r : result text) : result text :=
  match r with
  | Ok t => Ok t
  | Raise e => Raise (py "텍스트 추출 실패: " ++ e)
  end.

(** The backend [extract_text_from_pdf] is pinned to, if the method
    names one and it is available. *)
Definition pinned_backend (bk : Backends) (m : Method) : option Backend :=
  match m with
  | pdfminer =>
    if PDFMINER_AVAILABLE bk then Some (extract_text_pdfminer bk) else None
  | pymupdf =>
    if PYMUPDF_AVAILABLE bk then Some (extract_text_pymupdf_korean bk)
    else None
  | pdfplumber =>
    if PDFPLUMBER_AVAILABLE bk then Some (extract_text_pdfplumber bk)
    else None
  | pypdf2 =>
    if PYPDF2_AVAILABLE bk then Some (extract_text_pypdf2 bk) else None
  | _ => None
  end.

Definition extraction (rt : Runtime) (bk : Backends) (cfg : Config)
           (pdf_path : text) : result text :=
  match pinned_backend bk (extraction_method cfg) with
  | Some method_func => wrap_failure (method_func pdf_path)
  | None => Ok (selection rt (smart_methods bk) pdf_path)
  end.

(** Where [convert_files] puts the text (or the "no text" notice) and
    the error notice of a file. *)
Definition text_path (rt : Runtime) (cfg : Config) (pdf_path : text) : text :=
  os_path_join rt (output_path cfg)
    (path_stem rt (os_path_basename rt pdf_path) ++ py ".txt").

Definition error_path (rt : Runtime) (cfg : Config) (pdf_path : text) : text :=
  os_path_join rt (output_path cfg)
    (path_stem rt (os_path_basename rt pdf_path) ++ py "_오류.txt").

(** What a write that succeeds at the first encoding stores. *)
Definition utf8_file (t : text) : FileData :=
  {| file_encoding := py "utf-8"; file_errors := errors_replace;
     file_text := t |}.

(** What the last resort of [safe_write_text] stores. *)
Definition lossy_file (t : text) : FileData :=
  {| file_encoding := py "ascii"; file_errors := errors_ignore;
     file_text := ascii_or_question t |}.

(** The block fails. *)
Definition fails (f : fate) : bool :=
  match f with
  | completes => false
  | _ => true
  end.

(** A file that holds the beginning of [t], or of [t] with [?] for its
    non-ASCII characters: what a write that failed leaves. *)
Definition cut_short (t : text) (d : FileData) : Prop :=
  exists written,
    file_text d = firstn written t
    \/ file_text d = firstn written (ascii_or_question t).

(** What attempts to write [t] to [filepath] that failed leave of the
    disk [before]: every other path as it was, and the target as it
    was, or cut short. *)
Definition left_behind (filepath t : text)
           (before after : gmap text FileData) : Prop :=
  (forall other, other <> filepath -> after !! other = before !! other)
  /\ (after !! filepath = before !! filepath
      \/ exists d, after !! filepath = Some d /\ cut_short t d).

(** The events of the summary behind [if self.is_converting:]. *)
Definition is_summary_event (ev : event) : bool :=
  match ev with
  | LogDone | LogSuccessCount _ | LogKoreanCount _ | LogEmptyCount _
  | LogErrorCount _ | LogTotal _ | ShowInfo _ _ _ _ => true
  | _ => false
  end.

(** [w'] comes after [w] by per-file work: the flag is as it was and
    the log has grown by events that are not summary events. *)
Definition per_file_work (w w' : World) : Prop :=
  is_converting w' = is_converting w
  /\ exists evs, log_sink w' = log_sink w ++ evs
                 /\ forallb (fun ev => negb (is_summary_event ev)) evs = true.

(** [m] only does per-file work. *)
Definition quiet {A} (m : M A) : Prop :=
  forall w, per_file_work w (fst (m w)).

(** The repairer's report of a failure. *)
Definition is_repair_error (ev : event) : bool :=
  match ev with
  | LogRepairError _ => true
  | _ => false
  end.

(** [m] adds nothing to the log but reports of the repairer. *)
Definition logs_repair_errors {A} (m : M A) : Prop :=
  forall w, exists evs,
    log_sink (fst (m w)) = log_sink w ++ evs
    /\ forallb is_repair_error evs = true.

(** [m] adds nothing to the log. *)
Definition silent {A} (m : M A) : Prop :=
  forall w, log_sink (fst (m w)) = log_sink w.

(** [m] returns. *)
Definition returns {A} (m : M A) : Prop :=
  forall w, exists w' a, m w = (w', Ok a).

(** What [m] returns, when it returns, satisfies [P]. *)
Definition yields {A} (P : A -> Prop) (m : M A) : Prop :=
  forall w w' a, m w = (w', Ok a) -> P a.


(** [w'] comes after [w] by logging per-file events only. *)
Definition only_logs (w w' : World) : Prop :=
  disk w' = disk w /\ io_faults w' = io_faults w /\ per_file_work w w'.

(** The world once [convert_files] has logged its two opening lines. *)
Definition batch_begun (rt : Runtime) (cfg : Config) (w : World) : World :=
  fst (log (LogMode (extraction_method cfg))
           (fst (log (LogStart (length (pdf_files cfg)) (os_name rt)) w))).

(** The log holds a line of the summary. *)
Definition reports_summary (w : World) : Prop :=
  exists ev, In ev (log_sink w) /\ is_summary_event ev = true.

(** The number of files the counters account for. *)
Definition files_counted (c : Counters) : nat :=
  (success_count c + empty_count c + error_count c)%nat.

(** The outcome the specification expects of a batch of a good file
    [A], a blank file [B] and a file [C] no backend can read: a text for
    [A], a notice under the text name for [B], an error notice under
    the [_오류] name for [C], and one file counted of each kind. *)
Definition one_of_each (rt : Runtime) (bk : Backends) (cfg : Config)
           (A B C : text) (w : World) : Prop :=
  exists w' c,
    convert_files rt bk cfg (fun _ => false) w = (w', Ok c)
    /\ success_count c = 1%nat /\ empty_count c = 1%nat
    /\ error_count c = 1%nat
    /\ is_Some (disk w' !! text_path rt cfg A)
    /\ is_Some (disk w' !! text_path rt cfg B)
    /\ is_Some (disk w' !! error_path rt cfg C).

(** The outcome the specification expects of a batch cancelled after
    its first file: one artifact, and a summary in the log. *)
Definition partial_summary (rt : Runtime) (bk : Backends) (cfg : Config)
           (ui : nat -> bool) (w : World) : Prop :=
  exists w' c,
    convert_files rt bk cfg ui w = (w', Ok c)
    /\ size (disk w') = 1%nat
    /\ reports_summary w'.

(** The first character of [t] is a Hangul syllable. *)
Definition head_is_hangul (t : text) : bool :=
  match t with c :: _ => is_hangul c | [] => false end.

(** Running one [call] of a hypothesis about a successful run: the call
    did not fail. *)
Ltac run_call H :=
  match type of H with
  | context [call ?fl ?site ?f ?x ?w] =>
    let N := fresh "N" in
    unfold call at 1 in H;
    destruct (fl site) eqn:N;
    [ unfold raise in H; discriminate H
    | change (ret (f x) w) with (w, Ok (f x)) in H; cbv beta iota in H ]
  end.

(* ===================================================================== *)
(** * The four adapters *)
(* ===================================================================== *)

(** [str(n)] of a natural number. *)
Fixpoint digits (d : Decimal.uint) : text :=
  match d with
  | Decimal.Nil => []
  | Decimal.D0 r => 0x30 :: digits r
  | Decimal.D1 r => 0x31 :: digits r
  | Decimal.D2 r => 0x32 :: digits r
  | Decimal.D3 r => 0x33 :: digits r
  | Decimal.D4 r => 0x34 :: digits r
  | Decimal.D5 r => 0x35 :: digits r
  | Decimal.D6 r => 0x36 :: digits r
  | Decimal.D7 r => 0x37 :: digits r
  | Decimal.D8 r => 0x38 :: digits r
  | Decimal.D9 r => 0x39 :: digits r
  end.

Definition str_of_nat (n : nat) : text := digits (Nat.to_uint n).

(** [f"\n--- 페이지 {page_num + 1} ---\n"] *)
Definition page_header (page_num : nat) : text :=
  [NL] ++ py "--- 페이지 " ++ str_of_nat (page_num + 1) ++ py " ---" ++ [NL].

(** What PyMuPDF hands to [extract_from_blocks], as far as the function
    looks at it: a span is a dict with or without the key ['text'], a
    line a dict with or without ['spans']; a block is a dict with
    ['lines'], a dict without ['lines'] and with ['text'], another
    dict, a list or tuple of five items or more (whose fifth item is a
    [str] or not), or something else. *)
Inductive span :=
| span_text (t : text)
| span_other.

Inductive line :=
| line_spans (spans : list span)
| line_other.

Inductive block :=
| block_lines (lines : list line)
| block_text (t : text)
| block_dict
| block_seq (fifth : option text)
| block_other.

(** What [page.get_text(...)] returns: a [str], a dict (with
    [result.get('blocks', [])]), a list, or something else. *)
Inductive page_result :=
| result_str (t : text)
| result_dict (blocks : list block)
| result_list (blocks : list block)
| result_other.

(** A loaded page: the outcomes of [get_text("text")],
    [get_text("dict")] and [get_text("blocks")]. *)
Record FitzPage := {
  get_text_text : result page_result;
  get_text_dict : result page_result;
  get_text_blocks : result page_result
}.

(** An opened document: [doc.load_page(i)] for every [i] below
    [len(doc)], and [doc.close()]. *)
Record FitzDoc := {
  load_page : list (result FitzPage);
  close : result unit
}.

(** The extraction libraries. *)
Record Libraries := {
  (** [extract_text(pdf_path, laparams=laparams)] of pdfminer *)
  pdfminer_extract_text : text -> result text;
  (** [fitz.open(pdf_path)] *)
  fitz_open : text -> result FitzDoc;
  (** [pdfplumber.open(pdf_path)], with [page.extract_text()] for every
      page; [None] is Python's [None] *)
  pdfplumber_open : text -> result (list (result (option text)));
  (** [open(pdf_path, 'rb')] and [PyPDF2.PdfReader(file)], with
      [page.extract_text()] for every page *)
  PdfReader : text -> result (list (result text))
}.

Module Adapters.

(** The three nested loops of [extract_from_blocks]. *)
Definition add_span (acc : text) (s : span) : text :=
  match s with
  | span_text t => acc ++ t
  | span_other => acc
  end.

Definition add_line (acc : text) (l : line) : text :=
  (match l with
   | line_spans spans => fold_left add_span spans acc
   | line_other => acc
   end) ++ [NL].

Definition add_block (acc : text) (b : block) : text :=
  match b with
  | block_lines lines => fold_left add_line lines acc
  | block_text t => acc ++ t
  | block_seq (Some t) => acc ++ t
  | block_dict | block_seq None | block_other => acc
  end.

(** [extract_from_blocks] *)
Definition extract_from_blocks (blocks : list block) : text :=
  fold_left add_block blocks [].

(** The loop over [methods] for one page: the first method that returns
    a [str], a dict or a list decides; one that raises, or returns
    something else, lets the next one try; [page_text] starts as the
    empty string. *)
Fixpoint first_result (results : list (result page_result)) : text :=
  match results with
  | [] => []
  | Ok (result_str t) :: _ => t
  | Ok (result_dict blocks) :: _ => extract_from_blocks blocks
  | Ok (result_list blocks) :: _ => extract_from_blocks blocks
  | Ok result_other :: rest => first_result rest
  | Raise _ :: rest => first_result rest
  end.

Section WithLibraries.
Context (rt : Runtime) (fl : Failures) (cfg : Config) (lib : Libraries).

(** [extract_text_pdfminer] *)
Definition extract_text_pdfminer (pdf_path : text) : M text :=
  try_except
    (let* t := lift (pdfminer_extract_text lib pdf_path) in
     repair_korean_text rt fl cfg t)
    (fun e => raise (py "pdfminer 추출 실패: " ++ e)).

(** The page loop of [extract_text_pymupdf_korean], from page
    [page_num] on. *)
Fixpoint pymupdf_pages (pages : list (result FitzPage)) (page_num : nat)
         (acc : text) : M text :=
  match pages with
  | [] => ret acc
  | loaded :: rest =>
    let* page := lift loaded in
    let acc :=
      if page_separator cfg then acc ++ page_header page_num else acc in
    let page_text :=
      first_result [get_text_text page; get_text_dict page;
                    get_text_blocks page] in
    let* page_text := repair_korean_text rt fl cfg page_text in
    pymupdf_pages rest (S page_num) (acc ++ page_text ++ [NL])
  end.

(** [extract_text_pymupdf_korean] *)
Definition extract_text_pymupdf_korean (pdf_path : text) : M text :=
  try_except
    (let* doc := lift (fitz_open lib pdf_path) in
     let* t := pymupdf_pages (load_page doc) 0 [] in
     let* _ := lift (close doc) in
     ret t)
    (fun e => raise (py "PyMuPDF 한글 추출 실패: " ++ e)).

(** The page loop of [extract_text_pypdf2]. *)
Fixpoint pypdf2_pages (pages : list (result text)) (page_num : nat)
         (acc : text) : M text :=
  match pages with
  | [] => ret acc
  | extracted :: rest =>
    let acc :=
      if page_separator cfg then acc ++ page_header page_num else acc in
    let* page_text := lift extracted in
    let* repaired_text := repair_korean_text rt fl cfg page_text in
    pypdf2_pages rest (S page_num) (acc ++ repaired_text ++ [NL])
  end.

(** [extract_text_pypdf2] *)
Definition extract_text_pypdf2 (pdf_path : text) : M text :=
  let* pages := lift (PdfReader lib pdf_path) in
  pypdf2_pages pages 0 [].

(** The page loop of [extract_text_pdfplumber]; [if page_text:] passes
    over [None] and the empty string. *)
Fixpoint pdfplumber_pages (pages : list (result (option text)))
         (page_num : nat) (acc : text) : M text :=
  match pages with
  | [] => ret acc
  | extracted :: rest =>
    let acc :=
      if page_separator cfg then acc ++ page_header page_num else acc in
    let* page_text := lift extracted in
    match page_text with
    | Some (c :: r) =>
      let* repaired_text := repair_korean_text rt fl cfg (c :: r) in
      pdfplumber_pages rest (S page_num) (acc ++ repaired_text ++ [NL])
    | _ => pdfplumber_pages rest (S page_num) acc
    end
  end.

(** [extract_text_pdfplumber] *)
Definition extract_text_pdfplumber (pdf_path : text) : M text :=
  let* pages := lift (pdfplumber_open lib pdf_path) in
  pdfplumber_pages pages 0 [].
End WithLibraries.
End Adapters.

(** [check_libraries]: the list of the libraries found, or the exit of
    the program when there is none. *)
Definition check_libraries (bk : Backends) : result (list text) :=
  let available_methods :=
    (if PYPDF2_AVAILABLE bk then [py "PyPDF2"] else [])
    ++ (if PDFPLUMBER_AVAILABLE bk then [py "pdfplumber"] else [])
    ++ (if PYMUPDF_AVAILABLE bk then [py "PyMuPDF"] else [])
    ++ (if PDFMINER_AVAILABLE bk then [py "pdfminer"] else []) in
  match available_methods with
  | [] => Raise (py "SystemExit: 1")
  | _ => Ok available_methods
  end.

Module Booklet.
(** A document of three pages, the second one without text, as each of
    the libraries sees it at [Sample.file_a]; at [Sample.file_b] the
    same document without its second page for pdfplumber, and one whose
    second page cannot be read for PyPDF2. *)

Definition page_1 : text := Sample.text_a.
Definition page_3 : text := py "셋째 쪽".

(** A page whose first method raises, whose second returns nothing of
    use and whose third returns one block. *)
Definition fitz_page (t : text) : FitzPage :=
  {| get_text_text := Raise (py "no text layer");
     get_text_dict := Ok result_other;
     get_text_blocks := Ok (result_list [block_seq (Some t)]) |}.

Definition libraries : Libraries :=
  {| pdfminer_extract_text := fun pdf_path =>
       if text_eqb pdf_path Sample.file_a
       then Ok (page_1 ++ [NL] ++ page_3)
       else Raise (py "cannot read");
     fitz_open := fun pdf_path =>
       if text_eqb pdf_path Sample.file_a
       then Ok {| load_page :=
                    map Ok [fitz_page page_1; fitz_page []; fitz_page page_3];
                  close := Ok tt |}
       else Raise (py "cannot read");
     pdfplumber_open := fun pdf_path =>
       if text_eqb pdf_path Sample.file_a
       then Ok (map Ok [Some page_1; None; Some page_3])
       else if text_eqb pdf_path Sample.file_b
            then Ok (map Ok [Some page_1; Some page_3])
            else Raise (py "cannot read");
     PdfReader := fun pdf_path =>
       if text_eqb pdf_path Sample.file_a
       then Ok (map Ok [page_1; []; page_3])
       else if text_eqb pdf_path Sample.file_b
            then Ok (map Ok [page_1] ++ Raise (py "broken page") :: [])
            else Raise (py "cannot read") |}.

(** Every toggle of the repairer on, no page separators. *)
Definition plain : Config :=
  {| extraction_method := smart_korean;
     font_recovery := true;
     charset_detection := true;
     unicode_normalization := true;
     broken_char_repair := true;
     merge_option := false;
     page_separator := false;
     output_path := py "/out";
     pdf_files := [Sample.file_a] |}.
End Booklet.

(* ===================================================================== *)
(** * The file list of the window *)
(* ===================================================================== *)

Module Gui.

(** What the file list callbacks call besides the runtime. *)
Record Desktop := {
  os_path_dirname : text -> text;
  (** [os.listdir], which raises on a folder it cannot read *)
  os_listdir : text -> result (list text);
  (** [str.lower] *)
  lower : text -> text
}.

(** The two lines the callbacks log. *)
Inductive notice :=
| LogFolderAdded (added_count : nat)
| LogListCleared.

(** The part of the converter object the callbacks work on: the list
    [pdf_files], the lines of the list box, the Tk variable
    [output_path], the text of [progress_label] and the log. *)
Record Window := {
  pdf_files : list text;
  file_listbox : list text;
  output_path : text;
  progress_label : text;
  log_text : list notice
}.

(** The window [__init__] and [setup_ui] leave. *)
Definition initial : Window :=
  {| pdf_files := [];
     file_listbox := [];
     output_path := [];
     progress_label := py "변환할 파일을 추가해주세요.";
     log_text := [] |}.

(** [s.endswith(suffix)] *)
Definition endswith (suffix s : text) : bool :=
  (length suffix <=? length s)%nat
  && text_eqb (skipn (length s - length suffix) s) suffix.

(** [self.file_listbox.delete(index)]: Tk passes over an index that is
    not a line of the list box. *)
Definition listbox_delete (index : nat) (lines : list text) : list text :=
  firstn index lines ++ skipn (S index) lines.

(** [del l[index]] for an index that is not negative. *)
Definition del_item (index : nat) (l : list text) : result (list text) :=
  if (index <? length l)%nat
  then Ok (firstn index l ++ skipn (S index) l)
  else Raise (py "IndexError: list assignment index out of range").

Section Callbacks.
Context (rt : Runtime) (dk : Desktop).

(** [self.log(message)] *)
Definition log (n : notice) (g : Window) : Window :=
  {| pdf_files := pdf_files g;
     file_listbox := file_listbox g;
     output_path := output_path g;
     progress_label := progress_label g;
     log_text := log_text g ++ [n] |}.

(** [update_file_count] *)
Definition update_file_count (g : Window) : Window :=
  let count := length (pdf_files g) in
  {| pdf_files := pdf_files g;
     file_listbox := file_listbox g;
     output_path :=
       match pdf_files g with
       | first_file :: _ =>
         if negb (nonempty (output_path g))
         then os_path_dirname dk first_file
         else output_path g
       | [] => output_path g
       end;
     progress_label := py "총 " ++ str_of_nat count ++ py "개의 PDF 파일";
     log_text := log_text g |}.

(** [self.pdf_files.append(path)] and
    [self.file_listbox.insert(tk.END, line)] *)
Definition append (path line : text) (g : Window) : Window :=
  {| pdf_files := pdf_files g ++ [path];
     file_listbox := file_listbox g ++ [line];
     output_path := output_path g;
     progress_label := progress_label g;
     log_text := log_text g |}.

(** [x in self.pdf_files] *)
Definition listed (path : text) (g : Window) : bool :=
  existsb (text_eqb path) (pdf_files g).

(** The loop of [add_files]. *)
Fixpoint add_each (files : list text) (g : Window) : Window :=
  match files with
  | [] => g
  | file :: rest =>
    add_each rest
      (if negb (listed file g)
       then append file (os_path_basename rt file) g
       else g)
  end.

(** [add_files], for the [files] the dialog returns (none when it is
    cancelled). *)
Definition add_files (files : list text) (g : Window) : Window :=
  update_file_count (add_each files g).

(** The loop of [add_folder], with [added_count]. *)
Fixpoint add_from (folder : text) (names : list text) (added_count : nat)
         (g : Window) : Window * nat :=
  match names with
  | [] => (g, added_count)
  | pdf_file :: rest =>
    let full_path := os_path_join rt folder pdf_file in
    if negb (listed full_path g)
    then add_from folder rest (S added_count) (append full_path pdf_file g)
    else add_from folder rest added_count g
  end.

(** [add_folder], for the [folder] the dialog returns (the empty string
    when it is cancelled). *)
Definition add_folder (folder : text) (g : Window) : Window * result unit :=
  if nonempty folder
  then
    match os_listdir dk folder with
    | Ok names =>
      let pdf_files :=
        List.filter (fun f => endswith (py ".pdf") (lower dk f)) names in
      let (g1, added_count) := add_from folder pdf_files 0 g in
      (update_file_count (log (LogFolderAdded added_count) g1), Ok tt)
    | Raise e => (g, Raise e)
    end
  else (g, Ok tt).

(** [clear_files] *)
Definition clear_files (g : Window) : Window :=
  log LogListCleared
    (update_file_count
       {| pdf_files := [];
          file_listbox := [];
          output_path := output_path g;
          progress_label := progress_label g;
          log_text := log_text g |}).

(** The loop of [remove_selected] over the indices as it meets them. *)
Fixpoint remove_each (indices : list nat) (g : Window)
  : Window * result unit :=
  match indices with
  | [] => (g, Ok tt)
  | index :: rest =>
    let lines := listbox_delete index (file_listbox g) in
    match del_item index (pdf_files g) with
    | Ok files =>
      remove_each rest
        {| pdf_files := files;
           file_listbox := lines;
           output_path := output_path g;
           progress_label := progress_label g;
           log_text := log_text g |}
    | Raise e =>
      ({| pdf_files := pdf_files g;
          file_listbox := lines;
          output_path := output_path g;
          progress_label := progress_label g;
          log_text := log_text g |}, Raise e)
    end
  end.

(** [remove_selected], for the [selected_indices] that [curselection]
    returns. *)
Definition remove_selected (selected_indices : list nat) (g : Window)
  : Window * result unit :=
  match remove_each (rev selected_indices) g with
  | (g1, Ok _) => (update_file_count g1, Ok tt)
  | (g1, Raise e) => (g1, Raise e)
  end.

(** [select_output_folder], for the [folder] the dialog returns. *)
Definition select_output_folder (folder : text) (g : Window) : Window :=
  if nonempty folder
  then {| pdf_files := pdf_files g;
          file_listbox := file_listbox g;
          output_path := folder;
          progress_label := progress_label g;
          log_text := log_text g |}
  else g.

(** What the user does with the file list, and the window it leaves:
    Tk reports a callback that raises and goes on with the window as
    the callback left it. *)
Inductive action :=
| AddFiles (files : list text)
| AddFolder (folder : text)
| ClearFiles
| RemoveSelected (selected_indices : list nat)
| SelectOutputFolder (folder : text).

Definition perform (g : Window) (a : action) : Window :=
  match a with
  | AddFiles files => add_files files g
  | AddFolder folder => fst (add_folder folder g)
  | ClearFiles => clear_files g
  | RemoveSelected selected_indices =>
    fst (remove_selected selected_indices g)
  | SelectOutputFolder folder => select_output_folder folder g
  end.
End Callbacks.

(** The list box shows one line for every file of the list, and no file
    is listed twice. *)
Definition in_step (g : Window) : Prop :=
  length (file_listbox g) = length (pdf_files g)
  /\ List.NoDup (pdf_files g).

(** The items of [l] whose index, counted from [k], is not in
    [selected]. *)
Fixpoint unselected (selected : list nat) (k : nat) (l : list text)
  : list text :=
  match l with
  | [] => []
  | x :: r =>
    if existsb (Nat.eqb k) selected
    then unselected selected (S k) r
    else x :: unselected selected (S k) r
  end.

(** Indices as [curselection] returns them: ascending, and each one a
    line of a list box of [n] lines. *)
Fixpoint ascending_below (n : nat) (selected : list nat) : bool :=
  match selected with
  | [] => true
  | i :: rest =>
    (i <? n)%nat
    && match rest with
       | [] => true
       | j :: _ => (i <? j)%nat
       end
    && ascending_below n rest
  end.

End Gui.

Module Desk.
(** A desktop on which the definitions compute: the POSIX [dirname],
    [lower] on ASCII letters, and one folder that can be listed. *)

Fixpoint lstrip_slashes (t : text) : text :=
  match t with
  | c :: r => if c =? Posix.SLASH then lstrip_slashes r else t
  | [] => []
  end.

Definition rstrip_slashes (t : text) : text :=
  rev (lstrip_slashes (rev t)).

(** [posixpath.dirname] *)
Definition dirname (p : text) : text :=
  let head := firstn (length p - length (Posix.basename p)) p in
  if forallb (Z.eqb Posix.SLASH) head then head else rstrip_slashes head.

Definition ascii_lower (t : text) : text :=
  map (fun c => if in_range 0x41 0x5A c then c + 32 else c) t.

Definition folder : text := py "/in".

Definition listdir (path : text) : result (list text) :=
  if text_eqb path folder
  then Ok [py "a.pdf"; py "notes.txt"; py "B.PDF"; py "c.pdf.bak"]
  else Raise (py "FileNotFoundError").

Definition desktop : Gui.Desktop :=
  {| Gui.os_path_dirname := dirname;
     Gui.os_listdir := listdir;
     Gui.lower := ascii_lower |}.

(** A window with three files listed and no output folder. *)
Definition three_files : Gui.Window :=
  Gui.add_files Posix.runtime desktop
    [Sample.file_a; Sample.file_b; Sample.file_c] Gui.initial.
End Desk.

(* ===================================================================== *)
(** * Vocabulary of the further properties *)
(* ===================================================================== *)

(** The pages of a pdfplumber document that have text. *)
Definition has_text (page_text : option text) : bool :=
  match page_text with
  | Some (_ :: _) => true
  | _ => false
  end.

(** The text of one block, as [extract_from_blocks] reads it. *)
Definition block_own_text (b : block) : text :=
  Adapters.extract_from_blocks [b].

(** The action is the choice of an output folder. *)
Definition chooses_folder (a : Gui.action) : bool :=
  match a with
  | Gui.SelectOutputFolder _ => true
  | _ => false
  end.

(* ===================================================================== *)
(** * Properties *)
(* ===================================================================== *)

(** ** The model on small inputs *)

(** The literals are decoded to code points. *)
Example py_decodes : py "aㅏ가힣" = [0x61; 0x314F; 0xAC00; 0xD7A3].
Proof. reflexivity. Qed.

(** [len(re.findall(r'[가-힣]{2,}', "가나 다 라마바ㄱ사아"))] is 3. *)
Example findall_hangul_words_runs :
  findall_hangul_words 0 (py "가나 다 라마바ㄱ사아") = 3%nat
  /\ spec_hangul_runs false (py "가나 다 라마바ㄱ사아") = 3%nat.
Proof. split; reflexivity. Qed.

(** [re.sub(r'ㅏ([ㄱ-ㅎ])', r'\1ㅏ', "ㅏㄱㅏㅏㄴㅏ")] is ["ㄱㅏㅏㄴㅏㅏ"]: the
    matches do not overlap. *)
Example sub_vowel_first_scan :
  sub_vowel_first 0x314F (py "ㅏㄱㅏㅏㄴㅏ") = py "ㄱㅏㅏㄴㅏㅏ".
Proof. reflexivity. Qed.

(** [re.sub(r'\s+', ' ', "a \t\n b\r\nc ")] is ["a b c "]. *)
Example sub_spaces_runs :
  sub_spaces false [0x61; SPACE; TAB; NL; SPACE; 0x62; 0x0D; NL; 0x63; SPACE]
  = py "a b c ".
Proof. reflexivity. Qed.

(** [re.sub(r'\n\s*\n', '\n\n', "a\n \n\t\n b\nc\n\n")] is
    ["a\n\n b\nc\n\n"]: the greedy [\s*] gives back characters until
    a newline follows. *)
Example sub_blank_lines_greedy :
  sub_blank_lines 0
    [0x61; NL; SPACE; NL; TAB; NL; SPACE; 0x62; NL; 0x63; NL; NL]
  = [0x61; NL; NL; SPACE; 0x62; NL; 0x63; NL; NL].
Proof. reflexivity. Qed.

(** ["  a b \n".strip()] is ["a b"]. *)
Example strip_both_ends :
  strip [SPACE; SPACE; 0x61; SPACE; 0x62; SPACE; NL] = py "a b".
Proof. reflexivity. Qed.

(** The doubles the interpreter prints as [113.63636363636363],
    [119.99999999999999], [120.0] and [156.66666666666666]. *)
Example evaluate_korean_quality_mixed :
  evaluate_korean_quality Posix.runtime (py "안녕하세요 world")
  == 999556025250909 # 8796093022208
  /\ evaluate_korean_quality Posix.runtime (py "가가ㄱ")
     == 8444249301319679 # 70368744177664
  /\ evaluate_korean_quality Posix.runtime (py "가가#") == 120
  /\ evaluate_korean_quality Posix.runtime
       (py "가가가가가가가가가가가가가가가가가가가가가가가가가가가가가가")
     == 5512218293917013 # 35184372088832.
Proof. vm_compute. repeat split. Qed.


(** The selector compares the doubles: after ["가가ㄱ"], which scores a
    little under 120, the later candidate ["가가#"], which scores 120,
    replaces the best. *)
Example replaces_best_compares_doubles :
  replaces_best (evaluate_korean_quality Posix.runtime (py "가가#"))
    (py "가가#")
    {| best_text := py "가가ㄱ"; best_method := py "pdfminer (한글특화)";
       korean_score := evaluate_korean_quality Posix.runtime (py "가가ㄱ") |}
  = true.
Proof. vm_compute. reflexivity. Qed.

Example smart_select_compares_doubles :
  snd (smart_select Posix.runtime
         [(py "pdfminer (한글특화)", fun _ => Ok (py "가가ㄱ"));
          (py "pdfplumber", fun _ => Ok (py "가가#"))]
         (py "/in/a.pdf") (Sample.failing_disk 0))
  = Ok (py "가가#").
Proof. vm_compute. reflexivity. Qed.
(** Noise alone is clamped to 0. *)
Example evaluate_korean_quality_noise :
  evaluate_korean_quality Posix.runtime (py "#$%^") == 0.
Proof. reflexivity. Qed.

(** The repairer, every toggle on, on a text with a decomposed syllable,
    a control character and mixed white space. *)
Example repair_korean_text_run :
  repair_korean_text Posix.runtime no_failure
    (Posix.all_toggles smart_korean [] [])
    ([SPACE; 0x1112; 0x1161; 0x11AB; 0x00] ++ py "글" ++ [TAB; NL]
     ++ py "ㅏㄱ" ++ [SPACE])
    Posix.fresh_world
  = (Posix.fresh_world, Ok (py "한글 ㄱㅏ")).
Proof. vm_compute. reflexivity. Qed.

(** The selector on the sample file: four equal candidates, the first
    one stays. *)
Example extract_text_smart_korean_run :
  snd (extract_text_smart_korean Posix.runtime Sample.backends Sample.file_a
         Posix.fresh_world) = Ok Sample.text_a
  /\ snd (extract_text_smart_korean Posix.runtime Sample.backends Sample.file_c
            Posix.fresh_world) = Ok [].
Proof. split; vm_compute; reflexivity. Qed.

(** The names of the artifacts. *)
Example artifact_names :
  text_path Posix.runtime (Sample.config smart_korean) (py "/in/보고서.v2.pdf")
  = py "/out/보고서.v2.txt"
  /\ error_path Posix.runtime (Sample.config smart_korean) Sample.file_c
     = py "/out/c_오류.txt".
Proof. split; vm_compute; reflexivity. Qed.

(** ** Counting and trimming *)

Lemma findall_class_filter (p : Z -> bool) (t : text) :
  findall_class p t = length (List.filter p t).
Proof.
  induction t as [|c r IH]; simpl; [reflexivity|].
  destruct (p c); simpl; congruence.
Qed.

Lemma findall_class_le_length (p : Z -> bool) (t : text) :
  (findall_class p t <= length t)%nat.
Proof.
  induction t as [|c r IH]; simpl; [lia|]. destruct (p c); lia.
Qed.

Section NotSpace.
Variable p : Z -> bool.
Hypothesis p_not_space : forall c, p c = true -> isspace c = false.

Lemma findall_class_lstrip (t : text) :
  findall_class p (lstrip t) = findall_class p t.
Proof.
  induction t as [|c r IH]; simpl; [reflexivity|].
  destruct (isspace c) eqn:Hs; simpl; [|reflexivity].
  destruct (p c) eqn:Hp; [|exact IH].
  apply p_not_space in Hp. congruence.
Qed.

Lemma findall_class_rstrip (t : text) :
  findall_class p (rstrip t) = findall_class p t.
Proof.
  induction t as [|c r IH]; [reflexivity|].
  cbn [rstrip]. destruct (rstrip r) as [|c' r'] eqn:E.
  - cbn [findall_class] in *. rewrite <- IH.
    destruct (isspace c) eqn:Hs; cbn [findall_class]; [|reflexivity].
    destruct (p c) eqn:Hp; [|reflexivity].
    apply p_not_space in Hp. congruence.
  - cbn [findall_class] in *. rewrite IH. reflexivity.
Qed.

Lemma findall_class_strip (t : text) :
  findall_class p (strip t) = findall_class p t.
Proof.
  unfold strip. rewrite findall_class_rstrip. apply findall_class_lstrip.
Qed.

Lemma findall_class_le_stripped (t : text) :
  (findall_class p t <= length (strip t))%nat.
Proof.
  rewrite <- findall_class_strip. apply findall_class_le_length.
Qed.
End NotSpace.

Lemma hangul_not_space (c : Z) : is_hangul c = true -> isspace c = false.
Proof.
  unfold is_hangul, isspace, in_range. intros H.
  apply andb_true_iff in H as [H1 H2].
  apply Z.leb_le in H1. apply Z.leb_le in H2.
  repeat (apply orb_false_iff; split);
    first [ apply andb_false_iff; (left; apply Z.leb_gt; lia) || (right; apply Z.leb_gt; lia)
          | apply Z.eqb_neq; lia ].
Qed.

Lemma broken_not_space (rt : Runtime) (c : Z) :
  is_broken rt c = true -> isspace c = false.
Proof.
  unfold is_broken. intros H. apply negb_true_iff in H.
  repeat (apply orb_false_iff in H as [H ?]). assumption.
Qed.

Lemma lstrip_all_space (t : text) :
  forallb isspace t = true -> lstrip t = [].
Proof.
  induction t as [|c r IH]; simpl; [reflexivity|].
  intros H. apply andb_true_iff in H as [Hc Hr]. rewrite Hc. auto.
Qed.

Lemma strip_all_space (t : text) :
  forallb isspace t = true -> strip t = [].
Proof.
  intros H. unfold strip. rewrite lstrip_all_space by assumption. reflexivity.
Qed.

(** ** The two ways of counting Hangul words agree *)

Lemma spec_hangul_runs_cons (prev : bool) (a : Z) (tl : text) :
  spec_hangul_runs prev (a :: tl)
  = ((if negb prev && is_hangul a && head_is_hangul tl then 1 else 0)
     + spec_hangul_runs (is_hangul a) tl)%nat.
Proof.
  destruct tl as [|b r]; simpl; [|reflexivity].
  rewrite andb_false_r. reflexivity.
Qed.

Lemma findall_hangul_words_spec (t : text) :
  findall_hangul_words 0 t = spec_hangul_runs false t
  /\ findall_hangul_words 1 t
     = ((if head_is_hangul t then 1 else 0) + spec_hangul_runs true t)%nat
  /\ forall n, findall_hangul_words (S (S n)) t
               = S (spec_hangul_runs true t).
Proof.
  induction t as [|c r (IH0 & IH1 & IH2)].
  - simpl. auto.
  - rewrite !spec_hangul_runs_cons. cbn [findall_hangul_words head_is_hangul].
    destruct (is_hangul c) eqn:Hc; cbn [negb andb Nat.leb].
    + rewrite IH1, IH2. repeat split; intros; try rewrite IH2; lia.
    + rewrite IH0. repeat split; intros; lia.
Qed.

Lemma findall_class_ext (p q : Z -> bool) (t : text) :
  (forall c, p c = q c) -> findall_class p t = findall_class q t.
Proof.
  intros Hpq. induction t as [|c r IH]; simpl; [reflexivity|].
  rewrite Hpq, IH. reflexivity.
Qed.

Lemma spec_noise_findall (rt : Runtime) (t : text) :
  spec_noise rt t = findall_class (is_broken rt) t.
Proof.
  unfold spec_noise. rewrite <- findall_class_filter.
  apply findall_class_ext. intros c. unfold is_broken.
  destruct (is_word rt c), (isspace c), (is_hangul c), (is_jamo c),
    (is_punct c); reflexivity.
Qed.

Lemma jamo_not_space (c : Z) : is_jamo c = true -> isspace c = false.
Proof.
  unfold is_jamo, is_consonant_jamo, is_vowel_jamo, isspace, in_range.
  intros H.
  assert (0x3131 <= c <= 0x3163) as Hc.
  { apply orb_true_iff in H as [H|H];
      apply andb_true_iff in H as [H1 H2];
      apply Z.leb_le in H1; apply Z.leb_le in H2; lia. }
  repeat (apply orb_false_iff; split);
    first [ apply andb_false_iff;
            (left; apply Z.leb_gt; lia) || (right; apply Z.leb_gt; lia)
          | apply Z.eqb_neq; lia ].
Qed.

Lemma findall_hangul_words_le (run : nat) (t : text) :
  (findall_hangul_words run t <= run + findall_class is_hangul t)%nat.
Proof.
  revert run. induction t as [|c r IH]; intros run;
    cbn [findall_hangul_words findall_class].
  - destruct run as [|[|n]]; simpl; lia.
  - destruct (is_hangul c).
    + specialize (IH (S run)). lia.
    + specialize (IH 0%nat). destruct run as [|[|n]]; simpl in *; lia.
Qed.

(** ** Rounding *)

(** [1/10], [100], [-1/3] and two ties, rounded. *)
Example round_examples :
  (Binary64.div 1 10 == 3602879701896397 # 36028797018963968)%Q
  /\ (Binary64.round 100 == 100)%Q
  /\ (Binary64.round (-(1 # 3)) == - (6004799503160661 # 18014398509481984))%Q
  /\ (Binary64.round (9007199254740993 # 1) == 9007199254740992 # 1)%Q
  /\ (Binary64.round (9007199254740995 # 1) == 9007199254740996 # 1)%Q.
Proof. vm_compute. repeat split. Qed.

(** ** Rounding to an integer *)

Lemma round_half_even_spec (q : Q) :
  let m := inject_Z (Binary64.round_half_even q) in
  (m - q <= 1 # 2)%Q /\ (q - m <= 1 # 2)%Q
  /\ ((m - q == 1 # 2)%Q \/ (q - m == 1 # 2)%Q ->
      Z.even (Binary64.round_half_even q) = true).
Proof.
  unfold Binary64.round_half_even.
  pose proof (Qfloor_le q) as Hlo. pose proof (Qlt_floor q) as Hhi.
  rewrite inject_Z_plus in Hhi. change (inject_Z 1) with 1%Q in Hhi.
  destruct (Qcompare_spec (q - inject_Z (Qfloor q)) (1 # 2)) as [E|E|E];
    cbn zeta.
  - destruct (Z.even (Qfloor q)) eqn:Ev.
    + split; [lra|]. split; [lra|]. intros _. exact Ev.
    + rewrite inject_Z_plus. change (inject_Z 1) with 1%Q.
      split; [lra|]. split; [lra|]. intros _.
      rewrite Z.even_add, Ev. reflexivity.
  - split; [lra|]. split; [lra|]. intros [H|H]; lra.
  - rewrite inject_Z_plus. change (inject_Z 1) with 1%Q.
    split; [lra|]. split; [lra|]. intros [H|H]; lra.
Qed.

Lemma inject_Z_le_1 (a b : Z) :
  (inject_Z a - inject_Z b <= 1)%Q -> a - b <= 1.
Proof.
  intros H. assert (inject_Z a <= inject_Z (b + 1))%Q as H'.
  { rewrite inject_Z_plus. change (inject_Z 1) with 1%Q. lra. }
  rewrite <- Zle_Qle in H'. lia.
Qed.

Lemma round_half_even_mono (p q : Q) :
  (p <= q)%Q -> Binary64.round_half_even p <= Binary64.round_half_even q.
Proof.
  intros Hpq.
  destruct (round_half_even_spec p) as (Hp1 & Hp2 & Hp3).
  destruct (round_half_even_spec q) as (Hq1 & Hq2 & Hq3).
  cbn zeta in *.
  set (a := Binary64.round_half_even p) in *.
  set (b := Binary64.round_half_even q) in *.
  destruct (Z_le_gt_dec a b) as [|Hgt]; [assumption|exfalso].
  assert (a - b <= 1) as H1 by (apply inject_Z_le_1; lra).
  assert (a = b + 1) as Hab by lia.
  assert (inject_Z a == inject_Z b + 1)%Q as Hq.
  { rewrite Hab, inject_Z_plus. reflexivity. }
  assert (Z.even a = true) as Ea by (apply Hp3; left; lra).
  assert (Z.even b = true) as Eb by (apply Hq3; right; lra).
  rewrite Hab, Z.even_add, Eb in Ea. discriminate Ea.
Qed.

Lemma round_half_even_comp (p q : Q) :
  (p == q)%Q -> Binary64.round_half_even p = Binary64.round_half_even q.
Proof.
  intros H. apply Z.le_antisymm; apply round_half_even_mono; lra.
Qed.

Lemma round_half_even_Z (z : Z) : Binary64.round_half_even (inject_Z z) = z.
Proof.
  unfold Binary64.round_half_even. rewrite Qfloor_Z.
  destruct (Qcompare_spec (inject_Z z - inject_Z z) (1 # 2)) as [E|E|E];
    [lra|reflexivity|lra].
Qed.

(** ** Powers of two *)

Lemma two_not_0 : ~ (2 == 0)%Q.
Proof. intros H. discriminate H. Qed.

Lemma pow2_pos (e : Z) : (0 < 2 ^ e)%Q.
Proof. apply Qpower_0_lt. reflexivity. Qed.

Lemma pow2_succ (e : Z) : (2 ^ (e + 1) == 2 * 2 ^ e)%Q.
Proof. rewrite Qpower_plus by exact two_not_0. rewrite Qpower_1_r. ring. Qed.

Lemma pow2_le (a b : Z) : a <= b -> (2 ^ a <= 2 ^ b)%Q.
Proof. intros H. apply Qpower_le_compat_l; [exact H|discriminate]. Qed.

Lemma pow2_lt (a b : Z) : a < b -> (2 ^ a < 2 ^ b)%Q.
Proof. intros H. apply Qpower_lt_compat_l; [exact H|reflexivity]. Qed.

Lemma pow2_Z (a : Z) : 0 <= a -> (inject_Z (2 ^ a) == 2 ^ a)%Q.
Proof. intros H. rewrite Zpower_Qpower by exact H. reflexivity. Qed.

(** The binade of a number is unique. *)
Lemma binade_unique (x : Q) (a b : Z) :
  (2 ^ a <= x)%Q -> (x < 2 ^ (a + 1))%Q ->
  (2 ^ b <= x)%Q -> (x < 2 ^ (b + 1))%Q -> a = b.
Proof.
  intros Ha1 Ha2 Hb1 Hb2.
  destruct (Z.lt_trichotomy a b) as [H|[H|H]]; [exfalso|exact H|exfalso].
  - pose proof (pow2_le (a + 1) b ltac:(lia)). lra.
  - pose proof (pow2_le (b + 1) a ltac:(lia)). lra.
Qed.

Lemma floor_log2_spec (x : Q) :
  ~ (x == 0)%Q ->
  (2 ^ Binary64.floor_log2 x <= Qabs x)%Q
  /\ (Qabs x < 2 ^ (Binary64.floor_log2 x + 1))%Q.
Proof.
  intros Hx. unfold Binary64.floor_log2.
  destruct x as [n d]. cbn [Qnum Qden].
  assert (n <> 0) as Hn.
  { intros ->. apply Hx. reflexivity. }
  set (a := Z.log2 (Z.abs n)). set (b := Z.log2 (Z.pos d)).
  assert (0 < Z.abs n) as Hpos by lia.
  destruct (Z.log2_spec (Z.abs n) Hpos) as [Ha1 Ha2].
  destruct (Z.log2_spec (Z.pos d) ltac:(lia)) as [Hb1 Hb2].
  fold a in Ha1, Ha2. fold b in Hb1, Hb2.
  assert (0 <= a) as Ha0 by apply Z.log2_nonneg.
  assert (0 <= b) as Hb0 by apply Z.log2_nonneg.
  assert (Qabs (n # d) == inject_Z (Z.abs n) / inject_Z (Z.pos d))%Q as Habs.
  { rewrite <- Zabs_Qabs. apply Qmake_Qdiv. }
  assert (0 < inject_Z (Z.pos d))%Q as Hd by (rewrite <- (Zlt_Qlt 0); lia).
  rewrite Zle_Qle, pow2_Z in Ha1 by exact Ha0.
  rewrite Zlt_Qlt in Ha2. replace (Z.succ a) with (a + 1) in Ha2 by lia.
  rewrite pow2_Z in Ha2 by lia.
  rewrite Zle_Qle, pow2_Z in Hb1 by exact Hb0.
  rewrite Zlt_Qlt in Hb2. replace (Z.succ b) with (b + 1) in Hb2 by lia.
  rewrite pow2_Z in Hb2 by lia.
  pose proof (pow2_pos a). pose proof (pow2_pos b).
  pose proof (pow2_succ a) as Sa. pose proof (pow2_succ b) as Sb.
  set (N := inject_Z (Z.abs n)) in *. set (D := inject_Z (Z.pos d)) in *.
  assert (N / D < 2 ^ (a - b + 1))%Q as Hup.
  { apply Qlt_shift_div_r; [exact Hd|].
    replace (a - b + 1) with ((a + 1) - b) by lia.
    rewrite Qpower_minus by exact two_not_0.
    assert (2 ^ (a + 1) / 2 ^ b * 2 ^ b == 2 ^ (a + 1))%Q as Hm
        by (field; lra).
    assert (0 < 2 ^ (a + 1) / 2 ^ b)%Q as Hq
        by (apply Qlt_shift_div_l; [assumption|lra]).
    set (r := (2 ^ (a + 1) / 2 ^ b)%Q) in *. nra. }
  assert (2 ^ (a - b - 1) <= N / D)%Q as Hlow.
  { apply Qle_shift_div_l; [exact Hd|].
    replace (a - b - 1) with (a - (b + 1)) by lia.
    rewrite Qpower_minus by exact two_not_0.
    assert (2 ^ a / 2 ^ (b + 1) * 2 ^ (b + 1) == 2 ^ a)%Q as Hm
        by (field; lra).
    assert (0 < 2 ^ a / 2 ^ (b + 1))%Q as Hq
        by (apply Qlt_shift_div_l; [lra|lra]).
    set (r := (2 ^ a / 2 ^ (b + 1))%Q) in *. nra. }
  rewrite Habs.
  destruct (Qle_bool (2 ^ (a - b)) (N / D)) eqn:E.
  - apply Qle_bool_iff in E. split; assumption.
  - assert (~ (2 ^ (a - b) <= N / D)%Q) as Hnot.
    { intros H'. apply Qle_bool_iff in H'. congruence. }
    replace (a - b - 1 + 1) with (a - b) by lia.
    split; [exact Hlow|]. apply Qnot_le_lt. exact Hnot.
Qed.

Lemma floor_log2_unique (x : Q) (e : Z) :
  (2 ^ e <= Qabs x)%Q -> (Qabs x < 2 ^ (e + 1))%Q ->
  Binary64.floor_log2 x = e.
Proof.
  intros H1 H2.
  assert (~ (x == 0)%Q) as Hx.
  { intros E. rewrite E in H1. pose proof (pow2_pos e).
    change (Qabs 0) with 0%Q in H1. lra. }
  destruct (floor_log2_spec x Hx) as [H3 H4].
  eapply binade_unique; eassumption.
Qed.

Lemma floor_log2_comp (x y : Q) :
  (x == y)%Q -> ~ (x == 0)%Q ->
  Binary64.floor_log2 x = Binary64.floor_log2 y.
Proof.
  intros E Hx. destruct (floor_log2_spec x Hx) as [H1 H2].
  symmetry. apply floor_log2_unique; rewrite <- E; assumption.
Qed.

(** ** Rounding to a double *)

Lemma round_0 : (Binary64.round 0 == 0)%Q.
Proof. reflexivity. Qed.

Lemma Qeq_bool_false (x : Q) : ~ (x == 0)%Q -> Qeq_bool x 0 = false.
Proof.
  intros H. destruct (Qeq_bool x 0) eqn:E; [|reflexivity].
  apply Qeq_bool_eq in E. contradiction.
Qed.

(** The scaled number of which [round] takes the nearest integer lies
    between [2^52] and [2^53]. *)
Lemma scaled_bounds (x : Q) :
  ~ (x == 0)%Q ->
  let e := Binary64.floor_log2 x - 52 in
  (2 ^ 52 <= Qabs (x / 2 ^ e))%Q /\ (Qabs (x / 2 ^ e) < 2 ^ 53)%Q
  /\ (Qabs x == Qabs (x / 2 ^ e) * 2 ^ e)%Q.
Proof.
  intros Hx e. destruct (floor_log2_spec x Hx) as [H1 H2].
  pose proof (pow2_pos e) as He.
  assert (Qabs (x / 2 ^ e) == Qabs x / 2 ^ e)%Q as Habs.
  { unfold Qdiv. rewrite Qabs_Qmult, Qabs_Qinv.
    rewrite (Qabs_pos (2 ^ e)) by lra. reflexivity. }
  assert (2 ^ Binary64.floor_log2 x == 2 ^ 52 * 2 ^ e)%Q as E1.
  { rewrite <- Qpower_plus by exact two_not_0. unfold e.
    replace (52 + (Binary64.floor_log2 x - 52))
      with (Binary64.floor_log2 x) by lia. reflexivity. }
  assert (2 ^ (Binary64.floor_log2 x + 1) == 2 ^ 53 * 2 ^ e)%Q as E2.
  { rewrite <- Qpower_plus by exact two_not_0. unfold e.
    replace (53 + (Binary64.floor_log2 x - 52))
      with (Binary64.floor_log2 x + 1) by lia. reflexivity. }
  rewrite E1 in H1. rewrite E2 in H2. rewrite Habs.
  split; [apply Qle_shift_div_l; assumption|].
  split; [apply Qlt_shift_div_r; assumption|].
  field. lra.
Qed.

Lemma round_unfold (x : Q) :
  ~ (x == 0)%Q ->
  (Binary64.round x
   == inject_Z (Binary64.round_half_even
                  (x / 2 ^ (Binary64.floor_log2 x - 52)))
      * 2 ^ (Binary64.floor_log2 x - 52))%Q.
Proof.
  intros Hx. unfold Binary64.round. rewrite (Qeq_bool_false x Hx).
  reflexivity.
Qed.

Lemma round_comp (x y : Q) :
  (x == y)%Q -> (Binary64.round x == Binary64.round y)%Q.
Proof.
  intros E. destruct (Qeq_dec x 0) as [Hx|Hx].
  - assert (y == 0)%Q as Hy by (rewrite <- E; exact Hx).
    unfold Binary64.round.
    rewrite (proj2 (Qeq_bool_iff x 0) Hx), (proj2 (Qeq_bool_iff y 0) Hy).
    reflexivity.
  - assert (~ (y == 0)%Q) as Hy by (rewrite <- E; exact Hx).
    rewrite (round_unfold x Hx), (round_unfold y Hy).
    rewrite <- (floor_log2_comp x y E Hx).
    rewrite (round_half_even_comp
               (y / 2 ^ (Binary64.floor_log2 x - 52))
               (x / 2 ^ (Binary64.floor_log2 x - 52)))
      by (apply Qdiv_comp; [symmetry; exact E|reflexivity]).
    reflexivity.
Qed.

#[global] Instance round_Proper : Proper (Qeq ==> Qeq) Binary64.round.
Proof. intros x y E. apply round_comp. exact E. Qed.

(** The relative error of one rounding is at most [2^-53]. *)
Lemma round_error (x : Q) :
  (Qabs (Binary64.round x - x) <= Qabs x * (1 # 9007199254740992))%Q.
Proof.
  destruct (Qeq_dec x 0) as [Hx|Hx].
  - rewrite Hx. vm_compute. discriminate.
  - destruct (scaled_bounds x Hx) as (H1 & H2 & H3). cbn zeta in *.
    rewrite (round_unfold x Hx).
    set (e := Binary64.floor_log2 x - 52) in *.
    set (q := (x / 2 ^ e)%Q) in *.
    destruct (round_half_even_spec q) as (S1 & S2 & _). cbn zeta in *.
    set (m := inject_Z (Binary64.round_half_even q)) in *.
    pose proof (pow2_pos e) as He.
    assert (x == q * 2 ^ e)%Q as Ex by (unfold q; field; lra).
    assert (m * 2 ^ e - x == (m - q) * 2 ^ e)%Q as -> by (rewrite Ex at 1; ring).
    rewrite Qabs_Qmult, (Qabs_pos (2 ^ e)) by lra. rewrite H3.
    assert (Qabs (m - q) <= 1 # 2)%Q as Hm
        by (apply Qabs_Qle_condition; split; lra).
    change (2 ^ 52)%Q with (4503599627370496 # 1)%Q in H1.
    set (aq := Qabs q) in *. set (am := Qabs (m - q)) in *.
    set (p := (2 ^ e)%Q) in *. nra.
Qed.

Lemma round_near (x B : Q) :
  (- B <= x <= B)%Q ->
  (x - B * (1 # 9007199254740992) <= Binary64.round x
   <= x + B * (1 # 9007199254740992))%Q.
Proof.
  intros [H1 H2]. pose proof (round_error x) as He.
  assert (Qabs x <= B)%Q as Hx by (apply Qabs_Qle_condition; split; lra).
  apply Qabs_Qle_condition in He. lra.
Qed.

(** A number and its double have the same sign, and lie in the same
    binade (its upper end included). *)
Lemma round_pos_bounds (x : Q) :
  (0 < x)%Q ->
  (2 ^ Binary64.floor_log2 x <= Binary64.round x)%Q
  /\ (Binary64.round x <= 2 ^ (Binary64.floor_log2 x + 1))%Q.
Proof.
  intros Hpos. assert (~ (x == 0)%Q) as Hx by lra.
  destruct (scaled_bounds x Hx) as (H1 & H2 & _). cbn zeta in *.
  rewrite (round_unfold x Hx).
  set (e := Binary64.floor_log2 x - 52) in *.
  pose proof (pow2_pos e) as He.
  assert (0 < x / 2 ^ e)%Q as Hq by (apply Qlt_shift_div_l; lra).
  rewrite (Qabs_pos (x / 2 ^ e)) in H1, H2 by lra.
  set (q := (x / 2 ^ e)%Q) in *.
  assert (2 ^ 52 <= Binary64.round_half_even q) as Hm1.
  { rewrite <- (round_half_even_Z (2 ^ 52)).
    apply round_half_even_mono. exact H1. }
  assert (Binary64.round_half_even q <= 2 ^ 53) as Hm2.
  { rewrite <- (round_half_even_Z (2 ^ 53)).
    apply round_half_even_mono. apply Qlt_le_weak. exact H2. }
  rewrite Zle_Qle in Hm1, Hm2.
  assert (2 ^ Binary64.floor_log2 x == 2 ^ 52 * 2 ^ e)%Q as ->.
  { rewrite <- Qpower_plus by exact two_not_0. unfold e.
    replace (52 + (Binary64.floor_log2 x - 52))
      with (Binary64.floor_log2 x) by lia. reflexivity. }
  assert (2 ^ (Binary64.floor_log2 x + 1) == 2 ^ 53 * 2 ^ e)%Q as ->.
  { rewrite <- Qpower_plus by exact two_not_0. unfold e.
    replace (53 + (Binary64.floor_log2 x - 52))
      with (Binary64.floor_log2 x + 1) by lia. reflexivity. }
  split; apply Qmult_le_compat_r; try lra; assumption.
Qed.

Lemma round_half_even_opp (q : Q) :
  Binary64.round_half_even (- q) = - Binary64.round_half_even q.
Proof.
  destruct (round_half_even_spec q) as (H1 & H2 & H3).
  destruct (round_half_even_spec (- q)) as (K1 & K2 & K3). cbn zeta in *.
  set (a := Binary64.round_half_even (- q)) in *.
  set (b := Binary64.round_half_even q) in *.
  assert (inject_Z (- b) == - inject_Z b)%Q as Eb
      by (rewrite inject_Z_opp; reflexivity).
  assert (a - - b <= 1) as L1 by (apply inject_Z_le_1; lra).
  assert (- b - a <= 1) as L2 by (apply inject_Z_le_1; lra).
  destruct (Z.eq_dec a (- b)) as [|Hne]; [assumption|exfalso].
  assert (a = - b + 1 \/ a = - b - 1) as [Ha|Ha] by lia.
  - assert (inject_Z a == - inject_Z b + 1)%Q as Ea.
    { rewrite Ha, inject_Z_plus, inject_Z_opp. reflexivity. }
    assert (Z.even a = true) as E1 by (apply K3; left; lra).
    assert (Z.even b = true) as E2 by (apply H3; left; lra).
    rewrite Ha, Z.even_add, Z.even_opp, E2 in E1. discriminate E1.
  - assert (inject_Z a == - inject_Z b - 1)%Q as Ea.
    { rewrite Ha. unfold Z.sub. rewrite inject_Z_plus, !inject_Z_opp.
      reflexivity. }
    assert (Z.even a = true) as E1 by (apply K3; right; lra).
    assert (Z.even b = true) as E2 by (apply H3; right; lra).
    rewrite Ha, Z.even_sub, Z.even_opp, E2 in E1. discriminate E1.
Qed.

Lemma round_opp (x : Q) : (Binary64.round (- x) == - Binary64.round x)%Q.
Proof.
  destruct (Qeq_dec x 0) as [Hx|Hx].
  - rewrite Hx. reflexivity.
  - assert (~ (- x == 0)%Q) as Hx' by (intros E; apply Hx; lra).
    rewrite (round_unfold x Hx), (round_unfold (- x) Hx').
    destruct (floor_log2_spec x Hx) as [H1 H2].
    rewrite (floor_log2_unique (- x) (Binary64.floor_log2 x))
      by (rewrite Qabs_opp; assumption).
    set (e := Binary64.floor_log2 x - 52).
    pose proof (pow2_pos e).
    rewrite (round_half_even_comp (- x / 2 ^ e) (- (x / 2 ^ e)))
      by (field; lra).
    rewrite round_half_even_opp, inject_Z_opp. ring.
Qed.

Lemma round_nonneg (x : Q) : (0 <= x)%Q -> (0 <= Binary64.round x)%Q.
Proof.
  intros H. destruct (Qeq_dec x 0) as [Hx|Hx].
  - rewrite Hx. discriminate.
  - assert (0 < x)%Q as Hpos by lra.
    destruct (round_pos_bounds x Hpos) as [H1 _].
    pose proof (pow2_pos (Binary64.floor_log2 x)). lra.
Qed.

Lemma round_nonpos (x : Q) : (x <= 0)%Q -> (Binary64.round x <= 0)%Q.
Proof.
  intros H. pose proof (round_nonneg (- x) ltac:(lra)) as H'.
  rewrite round_opp in H'. lra.
Qed.

Lemma round_mono_pos (x y : Q) :
  (0 < x)%Q -> (x <= y)%Q -> (Binary64.round x <= Binary64.round y)%Q.
Proof.
  intros Hx Hxy. assert (0 < y)%Q as Hy by lra.
  assert (~ (x == 0)%Q) as Nx by lra. assert (~ (y == 0)%Q) as Ny by lra.
  destruct (floor_log2_spec x Nx) as [X1 X2].
  destruct (floor_log2_spec y Ny) as [Y1 Y2].
  rewrite (Qabs_pos x) in X1, X2 by lra.
  rewrite (Qabs_pos y) in Y1, Y2 by lra.
  set (a := Binary64.floor_log2 x) in *.
  set (b := Binary64.floor_log2 y) in *.
  destruct (Z.lt_trichotomy a b) as [Hab|[Hab|Hab]].
  - destruct (round_pos_bounds x Hx) as [_ Hup].
    destruct (round_pos_bounds y Hy) as [Hlo _].
    fold a in Hup. fold b in Hlo.
    pose proof (pow2_le (a + 1) b ltac:(lia)). lra.
  - rewrite (round_unfold x Nx), (round_unfold y Ny).
    fold a b. rewrite <- Hab. pose proof (pow2_pos (a - 52)) as He.
    apply Qmult_le_compat_r; [|lra].
    rewrite <- Zle_Qle. apply round_half_even_mono.
    apply Qmult_le_compat_r; [exact Hxy|].
    apply Qlt_le_weak, Qinv_lt_0_compat. exact He.
  - exfalso. pose proof (pow2_le (b + 1) a ltac:(lia)). lra.
Qed.

(** Rounding is monotone. *)
Lemma round_mono (x y : Q) :
  (x <= y)%Q -> (Binary64.round x <= Binary64.round y)%Q.
Proof.
  intros Hxy. destruct (Qlt_le_dec 0 x) as [Hx|Hx].
  - apply round_mono_pos; assumption.
  - destruct (Qlt_le_dec y 0) as [Hy|Hy].
    + pose proof (round_mono_pos (- y) (- x) ltac:(lra) ltac:(lra)) as H.
      rewrite !round_opp in H. lra.
    + pose proof (round_nonpos x Hx). pose proof (round_nonneg y Hy). lra.
Qed.

(** A double is its own nearest double. *)
Lemma round_idem (x : Q) :
  (Binary64.round (Binary64.round x) == Binary64.round x)%Q.
Proof.
  assert (forall x, (0 < x)%Q ->
                    (Binary64.round (Binary64.round x)
                     == Binary64.round x)%Q) as Hpos.
  { clear x. intros x Hx. assert (~ (x == 0)%Q) as Nx by lra.
    destruct (scaled_bounds x Nx) as (H1 & H2 & _). cbn zeta in *.
    pose proof (round_unfold x Nx) as Hr.
    set (e := Binary64.floor_log2 x - 52) in *.
    pose proof (pow2_pos e) as He.
    assert (0 < x / 2 ^ e)%Q as Hq by (apply Qlt_shift_div_l; lra).
    rewrite (Qabs_pos (x / 2 ^ e)) in H1, H2 by lra.
    set (m := Binary64.round_half_even (x / 2 ^ e)) in *.
    assert (2 ^ 52 <= m) as Hm1.
    { rewrite <- (round_half_even_Z (2 ^ 52)).
      apply round_half_even_mono. exact H1. }
    assert (m <= 2 ^ 53) as Hm2.
    { rewrite <- (round_half_even_Z (2 ^ 53)).
      apply round_half_even_mono. apply Qlt_le_weak. exact H2. }
    set (y := Binary64.round x) in *.
    assert (0 < inject_Z m)%Q as Hmpos by (rewrite <- (Zlt_Qlt 0); lia).
    assert (0 < y)%Q as Hy by (rewrite Hr; apply Qmult_lt_0_compat; lra).
    assert (~ (y == 0)%Q) as Ny by lra.
    destruct (Z.eq_dec m (2 ^ 53)) as [Em|Em].
    - (* the upper end of the binade *)
      assert (y == 2 ^ (e + 53))%Q as Ey.
      { rewrite Hr, Em, Qpower_plus by exact two_not_0.
        change (inject_Z (2 ^ 53)) with (2 ^ 53)%Q. ring. }
      assert (Binary64.floor_log2 y = e + 53) as Ef.
      { apply floor_log2_unique; rewrite (Qabs_pos y) by lra; rewrite Ey;
          [lra|apply pow2_lt; lia]. }
      rewrite (round_unfold y Ny), Ef.
      replace (e + 53 - 52) with (e + 1) by lia.
      pose proof (pow2_pos (e + 1)) as He1.
      rewrite (round_half_even_comp (y / 2 ^ (e + 1)) (inject_Z (2 ^ 52))).
      + rewrite round_half_even_Z, Ey.
        rewrite !Qpower_plus by exact two_not_0.
        change (inject_Z (2 ^ 52)) with (2 ^ 52)%Q.
        change (2 ^ 53)%Q with (2 * 2 ^ 52)%Q. rewrite Qpower_1_r. ring.
      + rewrite Ey, !Qpower_plus by exact two_not_0.
        change (inject_Z (2 ^ 52)) with (2 ^ 52)%Q.
        change (2 ^ 53)%Q with (2 * 2 ^ 52)%Q. rewrite Qpower_1_r.
        field. lra.
    - assert (m < 2 ^ 53) as Hm3 by lia.
      rewrite Zle_Qle in Hm1. rewrite Zlt_Qlt in Hm3.
      change (inject_Z (2 ^ 52)) with (2 ^ 52)%Q in Hm1.
      change (inject_Z (2 ^ 53)) with (2 ^ 53)%Q in Hm3.
      assert (Binary64.floor_log2 y = e + 52) as Ef.
      { apply floor_log2_unique; rewrite (Qabs_pos y) by lra; rewrite Hr.
        - rewrite (Qpower_plus 2 e 52) by exact two_not_0.
          rewrite (Qmult_comm (2 ^ e)).
          apply Qmult_le_compat_r; [exact Hm1|lra].
        - replace (e + 52 + 1) with (e + 53) by lia.
          rewrite (Qpower_plus 2 e 53) by exact two_not_0.
          rewrite (Qmult_comm (2 ^ e)).
          apply Qmult_lt_compat_r; [exact He|exact Hm3]. }
      rewrite (round_unfold y Ny), Ef.
      replace (e + 52 - 52) with e by lia.
      rewrite (round_half_even_comp (y / 2 ^ e) (inject_Z m))
        by (rewrite Hr; field; lra).
      rewrite round_half_even_Z. symmetry. exact Hr. }
  destruct (Qlt_le_dec 0 x) as [Hx|Hx]; [apply Hpos; exact Hx|].
  destruct (Qeq_dec x 0) as [E|E]; [rewrite E; reflexivity|].
  pose proof (Hpos (- x)%Q ltac:(lra)) as H.
  rewrite !round_opp in H. lra.
Qed.

(** ** Rational arithmetic on counts *)

Lemma Zq_nonneg (n : nat) : (0 <= Zq n)%Q.
Proof.
  unfold Zq. change 0%Q with (inject_Z 0). rewrite <- Zle_Qle. lia.
Qed.

Lemma Zq_pos (n : nat) : (0 < n)%nat -> (0 < Zq n)%Q.
Proof.
  intros H. unfold Zq. change 0%Q with (inject_Z 0).
  rewrite <- Zlt_Qlt. lia.
Qed.

Lemma Zq_le (a b : nat) : (a <= b)%nat -> (Zq a <= Zq b)%Q.
Proof. intros H. unfold Zq. rewrite <- Zle_Qle. lia. Qed.

Lemma Zq_ratio_bounds (a b : nat) :
  (a <= b)%nat -> (0 <= Zq a / Zq b)%Q /\ (Zq a / Zq b <= 1)%Q.
Proof.
  intros Hab. destruct b as [|b].
  - assert (a = 0%nat) by lia. subst. split; vm_compute; discriminate.
  - pose proof (Zq_pos (S b) ltac:(lia)) as Hb.
    pose proof (Zq_nonneg a) as Ha. pose proof (Zq_le _ _ Hab) as Hle.
    split.
    + apply Qle_shift_div_l; [assumption|]. lra.
    + apply Qle_shift_div_r; [assumption|]. lra.
Qed.

Lemma Zq_ratio_nonneg (a : nat) (d : Q) : (0 <= d)%Q -> (0 <= Zq a / d)%Q.
Proof.
  intros Hd. pose proof (Zq_nonneg a) as Ha.
  destruct (Qlt_le_dec 0 d) as [Hpos|Hle].
  - apply Qle_shift_div_l; [assumption|]. lra.
  - assert (d == 0)%Q as Hz by lra. rewrite Hz. unfold Qdiv.
    change (/ 0)%Q with 0%Q. lra.
Qed.

(** ** The scorer computes the specification's formula *)

Lemma spec_counts_le_length (rt : Runtime) (t : text) :
  (spec_syllables t <= spec_length t)%nat
  /\ (spec_lone_jamo t <= spec_length t)%nat
  /\ (spec_noise rt t <= spec_length t)%nat
  /\ (spec_hangul_runs false t <= spec_syllables t)%nat.
Proof.
  unfold spec_syllables, spec_lone_jamo, spec_length.
  rewrite spec_noise_findall, <- !findall_class_filter.
  repeat split.
  - apply findall_class_le_stripped, hangul_not_space.
  - apply findall_class_le_stripped, jamo_not_space.
  - apply findall_class_le_stripped, broken_not_space.
  - destruct (findall_hangul_words_spec t) as [<- _].
    apply (findall_hangul_words_le 0).
Qed.

Lemma spec_terms_bounds (rt : Runtime) (t : text) :
  (0 <= spec_korean_ratio t * 100 /\ spec_korean_ratio t * 100 <= 100)%Q
  /\ (0 <= spec_complete_term t /\ spec_complete_term t <= 50)%Q
  /\ (0 <= Qmin (spec_word_density t * 20) 20
      /\ Qmin (spec_word_density t * 20) 20 <= 20)%Q
  /\ (0 <= spec_broken_ratio rt t * 50)%Q.
Proof.
  destruct (spec_counts_le_length rt t) as (Hs & Hj & Hn & Hw).
  repeat apply conj.
  - destruct (Zq_ratio_bounds _ _ Hs). unfold spec_korean_ratio. lra.
  - destruct (Zq_ratio_bounds _ _ Hs). unfold spec_korean_ratio. lra.
  - unfold spec_complete_term.
    destruct (spec_syllables t + spec_lone_jamo t =? 0)%nat; [lra|].
    destruct (Zq_ratio_bounds (spec_syllables t)
                (spec_syllables t + spec_lone_jamo t) ltac:(lia)). lra.
  - unfold spec_complete_term.
    destruct (spec_syllables t + spec_lone_jamo t =? 0)%nat; [lra|].
    destruct (Zq_ratio_bounds (spec_syllables t)
                (spec_syllables t + spec_lone_jamo t) ltac:(lia)). lra.
  - apply Q.min_glb; [|lra].
    assert (0 <= spec_word_density t)%Q; [|lra].
    apply Zq_ratio_nonneg. pose proof (Zq_nonneg (spec_length t)).
    unfold Qdiv. apply Qmult_le_0_compat; [assumption|]. vm_compute. discriminate.
  - apply Q.le_min_r.
  - assert (0 <= spec_broken_ratio rt t)%Q; [|lra].
    apply Zq_ratio_nonneg, Zq_nonneg.
Qed.

Lemma Zq0_div (d : Q) : Zq 0 / d == 0.
Proof. unfold Qdiv. change (Zq 0) with 0%Q. ring. Qed.

(** ** Double arithmetic on counts *)

#[global] Instance of_int_Proper : Proper (Qeq ==> Qeq) Binary64.of_int.
Proof. intros x y E. unfold Binary64.of_int. rewrite E. reflexivity. Qed.

#[global] Instance add_Proper : Proper (Qeq ==> Qeq ==> Qeq) Binary64.add.
Proof.
  intros x y E x' y' E'. unfold Binary64.add. rewrite E, E'. reflexivity.
Qed.

#[global] Instance sub_Proper : Proper (Qeq ==> Qeq ==> Qeq) Binary64.sub.
Proof.
  intros x y E x' y' E'. unfold Binary64.sub. rewrite E, E'. reflexivity.
Qed.

#[global] Instance mul_Proper : Proper (Qeq ==> Qeq ==> Qeq) Binary64.mul.
Proof.
  intros x y E x' y' E'. unfold Binary64.mul. rewrite E, E'. reflexivity.
Qed.

#[global] Instance div_Proper : Proper (Qeq ==> Qeq ==> Qeq) Binary64.div.
Proof.
  intros x y E x' y' E'. unfold Binary64.div. rewrite E, E'. reflexivity.
Qed.

(** Adding a double to zero, or zero to a double, gives that double. *)
Lemma add_0_l (x : Q) :
  (Binary64.add 0 (Binary64.round x) == Binary64.round x)%Q.
Proof.
  unfold Binary64.add. rewrite Qplus_0_l. apply round_idem.
Qed.

Lemma add_0_r (x : Q) :
  (Binary64.add (Binary64.round x) 0 == Binary64.round x)%Q.
Proof.
  unfold Binary64.add. rewrite Qplus_0_r. apply round_idem.
Qed.

Lemma round_pos (x : Q) : (0 < x)%Q -> (0 < Binary64.round x)%Q.
Proof.
  intros H. destruct (round_pos_bounds x H) as [H1 _].
  pose proof (pow2_pos (Binary64.floor_log2 x)). lra.
Qed.

Lemma sub_0_r (x : Q) :
  (Binary64.sub (Binary64.round x) 0 == Binary64.round x)%Q.
Proof.
  unfold Binary64.sub. rewrite <- (round_idem x) at 2.
  apply round_comp. ring.
Qed.

(** The numbers the scorer adds and compares with are doubles. *)
Lemma round_1 : (Binary64.round 1 == 1)%Q.
Proof. reflexivity. Qed.

Lemma round_20 : (Binary64.round 20 == 20)%Q.
Proof. reflexivity. Qed.

Lemma round_50 : (Binary64.round 50 == 50)%Q.
Proof. reflexivity. Qed.

Lemma round_100 : (Binary64.round 100 == 100)%Q.
Proof. reflexivity. Qed.

Lemma round_150 : (Binary64.round 150 == 150)%Q.
Proof. reflexivity. Qed.

Lemma round_170 : (Binary64.round 170 == 170)%Q.
Proof. reflexivity. Qed.

(** The quotient of two counts, the smaller by the greater. *)
Lemma div_counts (a b : nat) :
  (a <= b)%nat -> (0 < b)%nat ->
  (0 <= Binary64.div (Zq a) (Zq b) <= 1)%Q
  /\ (Zq a / Zq b - (1 # 9007199254740992) <= Binary64.div (Zq a) (Zq b)
      <= Zq a / Zq b + (1 # 9007199254740992))%Q.
Proof.
  intros Hab Hb. destruct (Zq_ratio_bounds a b Hab) as [H0 H1].
  unfold Binary64.div.
  pose proof (round_nonneg _ H0) as R0.
  pose proof (round_mono _ _ H1) as R1.
  rewrite round_1 in R1.
  pose proof (round_near (Zq a / Zq b) 1 ltac:(lra)) as Hn.
  lra.
Qed.

(** A ratio times one of the weights 100 and 50. *)
Lemma mul_weight (r x C : Q) :
  (0 <= r <= 1)%Q ->
  (x - (1 # 9007199254740992) <= r <= x + (1 # 9007199254740992))%Q ->
  (0 <= C)%Q -> (Binary64.round C == C)%Q ->
  (0 <= Binary64.mul r C <= C)%Q
  /\ (x * C - 2 * C * (1 # 9007199254740992) <= Binary64.mul r C
      <= x * C + 2 * C * (1 # 9007199254740992))%Q.
Proof.
  intros [Hr0 Hr1] [Hx0 Hx1] HC Hfix. unfold Binary64.mul.
  assert (0 <= r * C)%Q as P0 by (apply Qmult_le_0_compat; lra).
  assert (r * C <= C)%Q as P1.
  { rewrite <- (Qmult_1_l C) at 2. apply Qmult_le_compat_r; lra. }
  pose proof (round_nonneg _ P0) as R0.
  pose proof (round_mono _ _ P1) as R1. rewrite Hfix in R1.
  pose proof (round_near (r * C) C ltac:(lra)) as Hn.
  assert ((x - (1 # 9007199254740992)) * C <= r * C)%Q as L
      by (apply Qmult_le_compat_r; lra).
  assert (r * C <= (x + (1 # 9007199254740992)) * C)%Q as U
      by (apply Qmult_le_compat_r; lra).
  split; [lra|]. split; lra.
Qed.

(** The sum of two bounded terms. *)
Lemma add_bounded (a b A B : Q) :
  (0 <= a <= A)%Q -> (0 <= b <= B)%Q ->
  (Binary64.round (A + B) == A + B)%Q ->
  (0 <= Binary64.add a b <= A + B)%Q
  /\ (a + b - (A + B) * (1 # 9007199254740992) <= Binary64.add a b
      <= a + b + (A + B) * (1 # 9007199254740992))%Q.
Proof.
  intros Ha Hb Hfix. unfold Binary64.add.
  pose proof (round_nonneg (a + b) ltac:(lra)) as R0.
  pose proof (round_mono (a + b) (A + B) ltac:(lra)) as R1.
  rewrite Hfix in R1.
  pose proof (round_near (a + b) (A + B) ltac:(lra)) as Hn.
  lra.
Qed.

(** The word density term: [min(word_density * 20, 20)]. *)
Lemma word_term (kw n : nat) :
  (kw <= n)%nat -> (0 < n)%nat ->
  let p :=
    Qmin (Binary64.mul
            (Binary64.div (Binary64.of_int (Zq kw))
                          (Binary64.div (Zq n) 10)) 20) 20 in
  let exact := Qmin (Zq kw / (Zq n / 10) * 20) 20 in
  (0 <= p <= 20)%Q
  /\ (exact - 1040 * (1 # 9007199254740992) <= p
      <= exact + 1040 * (1 # 9007199254740992))%Q.
Proof.
  intros Hle Hn. cbn zeta.
  unfold Binary64.mul, Binary64.div, Binary64.of_int.
  pose proof (Zq_nonneg kw) as HA. pose proof (Zq_pos n Hn) as HN.
  pose proof (Zq_le kw n Hle) as HAN.
  set (A := Zq kw) in *. set (N := Zq n) in *.
  set (Bn := (N / 10)%Q).
  assert (Bn * 10 == N)%Q as EBn by (unfold Bn; field).
  assert (0 < Bn)%Q as HBn by lra.
  set (X := (A / Bn)%Q).
  assert (X * Bn == A)%Q as EX by (unfold X; field; lra).
  assert (0 <= X)%Q as HX0 by (apply Qle_shift_div_l; lra).
  assert (X <= 10)%Q as HX1 by (apply Qle_shift_div_r; lra).
  (* the two operands *)
  pose proof (round_near A A ltac:(lra)) as Hf.
  pose proof (round_nonneg A HA) as Hf0.
  set (f := Binary64.round A) in *.
  pose proof (round_near Bn Bn ltac:(lra)) as Hd.
  set (d := Binary64.round Bn) in *.
  assert (0 < d)%Q as Hd0 by lra.
  (* their quotient *)
  set (q := (f / d)%Q).
  assert (X * d >= A - A * (1 # 9007199254740992))%Q as P1.
  { assert (0 <= X * (d - (Bn - Bn * (1 # 9007199254740992))))%Q as P
        by (apply Qmult_le_0_compat; lra).
    assert (X * (d - (Bn - Bn * (1 # 9007199254740992)))
            == X * d - (X * Bn) * (1 - (1 # 9007199254740992)))%Q as E
        by ring.
    rewrite E, EX in P. lra. }
  assert (X * d <= A + A * (1 # 9007199254740992))%Q as P2.
  { assert (0 <= X * (Bn + Bn * (1 # 9007199254740992) - d))%Q as P
        by (apply Qmult_le_0_compat; lra).
    assert (X * (Bn + Bn * (1 # 9007199254740992) - d)
            == (X * Bn) * (1 + (1 # 9007199254740992)) - X * d)%Q as E
        by ring.
    rewrite E, EX in P. lra. }
  assert (q <= X + 30 * (1 # 9007199254740992))%Q as Q1.
  { apply Qle_shift_div_r; [exact Hd0|].
    assert ((X + 30 * (1 # 9007199254740992)) * d
            == X * d + 30 * (1 # 9007199254740992) * d)%Q as -> by ring.
    assert (0 <= 30 * (1 # 9007199254740992) * d
                 - 3 * (1 # 9007199254740992) * (X * d))%Q; [|lra].
    assert (30 * (1 # 9007199254740992) * d
            - 3 * (1 # 9007199254740992) * (X * d)
            == 3 * (1 # 9007199254740992) * ((10 - X) * d))%Q as -> by ring.
    apply Qmult_le_0_compat; [lra|]. apply Qmult_le_0_compat; lra. }
  assert (X - 30 * (1 # 9007199254740992) <= q)%Q as Q2.
  { apply Qle_shift_div_l; [exact Hd0|].
    assert ((X - 30 * (1 # 9007199254740992)) * d
            == X * d - 30 * (1 # 9007199254740992) * d)%Q as -> by ring.
    assert (0 <= 30 * (1 # 9007199254740992) * d
                 - 3 * (1 # 9007199254740992) * (X * d))%Q; [|lra].
    assert (30 * (1 # 9007199254740992) * d
            - 3 * (1 # 9007199254740992) * (X * d)
            == 3 * (1 # 9007199254740992) * ((10 - X) * d))%Q as -> by ring.
    apply Qmult_le_0_compat; [lra|]. apply Qmult_le_0_compat; lra. }
  assert (0 <= q)%Q as Q0 by (apply Qle_shift_div_l; lra).
  (* the density and its product by 20 *)
  pose proof (round_near q 11 ltac:(lra)) as Hwd.
  pose proof (round_nonneg q Q0) as Hwd0.
  set (wd := Binary64.round q) in *.
  pose proof (round_near (wd * 20) 220 ltac:(lra)) as Hp.
  pose proof (round_nonneg (wd * 20) ltac:(lra)) as Hp0.
  set (p0 := Binary64.round (wd * 20)) in *.
  destruct (Q.min_spec p0 20) as [[? ->]|[? ->]];
    destruct (Q.min_spec (X * 20) 20) as [[? ->]|[? ->]];
    split; lra.
Qed.

(** Nothing is left after trimming: every count is zero. *)
Lemma spec_counts_blank (rt : Runtime) (t : text) :
  spec_length t = 0%nat ->
  spec_syllables t = 0%nat /\ spec_lone_jamo t = 0%nat
  /\ spec_noise rt t = 0%nat /\ spec_hangul_runs false t = 0%nat.
Proof.
  intros Hz. destruct (spec_counts_le_length rt t) as (Hs & Hj & Hn & Hw).
  repeat split; lia.
Qed.

(** ** The scorer computes the formula in double arithmetic *)

Lemma evaluate_as_float (rt : Runtime) (t : text) :
  evaluate_korean_quality rt t == float_score rt t.
Proof.
  destruct (Nat.eq_dec (spec_length t) 0%nat) as [Hz|Hnz].
  - assert (evaluate_korean_quality rt t = 0%Q) as ->.
    { unfold evaluate_korean_quality. destruct t as [|c r]; [reflexivity|].
      fold (spec_length (c :: r)). rewrite Hz. reflexivity. }
    destruct (spec_counts_blank rt t Hz) as (Hs & Hj & Hn & Hw).
    unfold float_score, float_korean_ratio, float_complete_term,
      float_word_density, float_broken_ratio.
    rewrite Hz, Hs, Hj, Hn, Hw. reflexivity.
  - destruct t as [|c r]; [contradiction Hnz; reflexivity|].
    unfold evaluate_korean_quality.
    fold (spec_length (c :: r)).
    destruct (Nat.eqb_spec (spec_length (c :: r)) 0%nat) as [|_];
      [contradiction|].
    destruct (Nat.ltb_spec 0%nat (spec_length (c :: r))) as [_|]; [|lia].
    destruct (findall_hangul_words_spec (c :: r)) as [-> _].
    rewrite <- spec_noise_findall.
    rewrite !findall_class_filter.
    fold (spec_syllables (c :: r)). fold (spec_lone_jamo (c :: r)).
    unfold float_score, float_korean_ratio, float_complete_term,
      float_word_density, float_broken_ratio.
    apply Q.max_compat; [reflexivity|].
    apply sub_Proper; [|reflexivity].
    apply add_Proper; [|reflexivity].
    destruct (Nat.ltb_spec 0%nat
                (spec_syllables (c :: r) + spec_lone_jamo (c :: r)))
      as [Hp|Hp];
      destruct (Nat.eqb_spec
                  (spec_syllables (c :: r) + spec_lone_jamo (c :: r)) 0%nat)
      as [Hq|Hq]; try lia.
    + apply add_Proper; [|reflexivity]. apply add_0_l.
    + unfold Binary64.mul. rewrite add_0_l, add_0_r. reflexivity.
Qed.

(** The double formula stays below 170 and within [2^-42] of the
    formula over the rationals: the rounding errors of its thirteen
    operations add up to less than [1930 * 2^-53]. *)
Lemma float_score_close (rt : Runtime) (t : text) :
  (float_score rt t <= 170)%Q
  /\ (spec_score rt t - (1 # 4398046511104) <= float_score rt t
      <= spec_score rt t + (1 # 4398046511104))%Q.
Proof.
  destruct (Nat.eq_dec (spec_length t) 0%nat) as [Hz|Hnz].
  - destruct (spec_counts_blank rt t Hz) as (Hs & Hj & Hn & Hw).
    unfold float_score, float_korean_ratio, float_complete_term,
      float_word_density, float_broken_ratio, spec_score, spec_korean_ratio,
      spec_complete_term, spec_word_density, spec_broken_ratio.
    rewrite Hz, Hs, Hj, Hn, Hw. vm_compute. repeat split; discriminate.
  - destruct (spec_counts_le_length rt t) as (Hs & Hj & Hn & Hw).
    assert (0 < spec_length t)%nat as Hpos by lia.
    unfold float_score, float_korean_ratio, float_word_density,
      float_broken_ratio, spec_score, spec_korean_ratio, spec_word_density,
      spec_broken_ratio.
    (* the first term *)
    destruct (div_counts _ _ Hs Hpos) as [K1 K2].
    destruct (mul_weight _ _ 100 K1 K2 ltac:(lra) round_100) as [T1 E1].
    set (t1 := Binary64.mul (Binary64.div (Zq (spec_syllables t))
                                          (Zq (spec_length t))) 100) in *.
    (* the second term *)
    assert ((0 <= float_complete_term t <= 50)%Q
            /\ (spec_complete_term t - 100 * (1 # 9007199254740992)
                <= float_complete_term t
                <= spec_complete_term t + 100 * (1 # 9007199254740992))%Q)
      as [T2 E2].
    { unfold float_complete_term, spec_complete_term.
      destruct (Nat.eqb_spec (spec_syllables t + spec_lone_jamo t) 0)
        as [|Hd]; [lra|].
      destruct (div_counts (spec_syllables t)
                  (spec_syllables t + spec_lone_jamo t)
                  ltac:(lia) ltac:(lia)) as [C1 C2].
      destruct (mul_weight _ _ 50 C1 C2 ltac:(lra) round_50) as [C3 C4].
      split; lra. }
    set (t2 := float_complete_term t) in *.
    destruct (add_bounded t1 t2 100 50 T1 T2 round_150) as [S2 F2].
    set (s2 := Binary64.add t1 t2) in *.
    (* the third term *)
    destruct (word_term (spec_hangul_runs false t) (spec_length t)
                ltac:(lia) Hpos) as [T3 E3].
    cbn zeta in T3, E3.
    set (t3 := Qmin (Binary64.mul
                       (Binary64.div
                          (Binary64.of_int (Zq (spec_hangul_runs false t)))
                          (Binary64.div (Zq (spec_length t)) 10)) 20) 20)
      in *.
    assert (0 <= s2 <= 150)%Q as S2' by lra.
    destruct (add_bounded s2 t3 150 20 S2' T3 round_170) as [S3 F3].
    set (s3 := Binary64.add s2 t3) in *.
    (* the fourth term and the difference *)
    destruct (div_counts _ _ Hn Hpos) as [B1 B2].
    destruct (mul_weight _ _ 50 B1 B2 ltac:(lra) round_50) as [T4 E4].
    set (t4 := Binary64.mul (Binary64.div (Zq (spec_noise rt t))
                                          (Zq (spec_length t))) 50) in *.
    unfold Binary64.sub.
    pose proof (round_near (s3 - t4) 170 ltac:(lra)) as F4.
    pose proof (round_mono (s3 - t4) 170 ltac:(lra)) as U4.
    rewrite round_170 in U4.
    set (s4 := Binary64.round (s3 - t4)) in *.
    set (x1 := (Zq (spec_syllables t) / Zq (spec_length t) * 100)%Q) in *.
    set (x2 := spec_complete_term t) in *.
    set (x3 := Qmin (Zq (spec_hangul_runs false t)
                     / (Zq (spec_length t) / 10) * 20) 20) in *.
    set (x4 := (Zq (spec_noise rt t) / Zq (spec_length t) * 50)%Q) in *.
    destruct (Q.max_spec 0 s4) as [[? ->]|[? ->]];
      destruct (Q.max_spec 0 (x1 + x2 + x3 - x4)) as [[? ->]|[? ->]];
      repeat split; lra.
Qed.

Lemma div_0 (d : Q) : Binary64.div (Zq 0) d == 0.
Proof. unfold Binary64.div. rewrite Zq0_div. reflexivity. Qed.

(** Without a syllable the three positive terms are 0. *)
Lemma float_score_without_syllables (rt : Runtime) (t : text) :
  spec_syllables t = 0%nat -> float_score rt t == 0.
Proof.
  intros Hs. destruct (spec_counts_le_length rt t) as (_ & _ & Hn & Hw).
  assert (spec_hangul_runs false t = 0%nat) as Hw0 by lia.
  unfold float_score, float_korean_ratio, float_complete_term,
    float_word_density, float_broken_ratio.
  rewrite Hs, Hw0.
  assert (Binary64.mul (Binary64.div (Zq 0) (Zq (spec_length t))) 100 == 0)
    as -> by (rewrite div_0; reflexivity).
  assert ((if (0 + spec_lone_jamo t =? 0)%nat then 0%Q
           else Binary64.mul
                  (Binary64.div (Zq 0) (Zq (0 + spec_lone_jamo t))) 50) == 0)
    as ->.
  { destruct (0 + spec_lone_jamo t =? 0)%nat; [reflexivity|].
    rewrite div_0. reflexivity. }
  assert (Binary64.div (Binary64.of_int (Zq 0))
                       (Binary64.div (Zq (spec_length t)) 10) == 0) as ->.
  { unfold Binary64.div at 1.
    assert (Binary64.of_int (Zq 0) == 0) as -> by reflexivity.
    unfold Qdiv. rewrite Qmult_0_l. reflexivity. }
  assert (Qmin (Binary64.mul 0 20) 20 == 0) as -> by reflexivity.
  assert (Binary64.add (Binary64.add 0 0) 0 == 0) as -> by reflexivity.
  apply Q.max_l. unfold Binary64.sub. apply round_nonpos.
  assert (0 <= Binary64.mul
                 (Binary64.div (Zq (spec_noise rt t)) (Zq (spec_length t)))
                 50)%Q; [|lra].
  unfold Binary64.mul, Binary64.div. apply round_nonneg.
  apply Qmult_le_0_compat; [|lra]. apply round_nonneg.
  apply Zq_ratio_nonneg, Zq_nonneg.
Qed.

(** C2, refuted as stated: for the text of two syllables and a jamo
    the formula is worth 120, and the scorer returns the double below
    it, [119.99999999999999]. *)
Lemma evaluate_korean_quality_is_rounded :
  spec_score Posix.runtime (py "가가ㄱ") == 120
  /\ evaluate_korean_quality Posix.runtime (py "가가ㄱ")
     == 8444249301319679 # 70368744177664
  /\ ~ evaluate_korean_quality Posix.runtime (py "가가ㄱ")
       == spec_score Posix.runtime (py "가가ㄱ").
Proof.
  split; [vm_compute; reflexivity|]. split; [vm_compute; reflexivity|].
  intros H. vm_compute in H. discriminate H.
Qed.

(** C2, amended.  For every input text the quality scorer returns the
    value of
    [max(0, korean_ratio*100 + complete_ratio*50 + min(word_density*20, 20)
            - broken_ratio*50)]
    in double arithmetic ([float_score]: the four terms of the
    specification, each quotient, product, sum and difference rounded
    to the nearest double, the terms added from left to right, the
    second term being 0 when its denominator is 0).  That value is
    within [2^-42] of the value of the formula over the rationals
    ([spec_score]).  It is exactly 0 for the empty text, and exactly 0
    for a text without Hangul syllables, jamo and noise characters, as
    pure ASCII prose is. *)
Theorem evaluate_korean_quality_formula (rt : Runtime) (t : text) :
  evaluate_korean_quality rt t == float_score rt t
  /\ (spec_score rt t - (1 # 4398046511104) <= evaluate_korean_quality rt t
      <= spec_score rt t + (1 # 4398046511104))%Q
  /\ evaluate_korean_quality rt [] == 0
  /\ (spec_syllables t = 0%nat -> spec_lone_jamo t = 0%nat ->
      spec_noise rt t = 0%nat ->
      evaluate_korean_quality rt t == 0).
Proof.
  split; [apply evaluate_as_float|]. split; [|split; [reflexivity|]].
  - rewrite evaluate_as_float. apply float_score_close.
  - intros Hs _ _. rewrite evaluate_as_float.
    apply float_score_without_syllables. exact Hs.
Qed.

(** C2 amended, run on a piece of plain ASCII prose. *)
Lemma evaluate_korean_quality_formula_witness :
  evaluate_korean_quality Posix.runtime (py "Hello, world (2 pages)!") == 0.
Proof.
  apply (evaluate_korean_quality_formula Posix.runtime
           (py "Hello, world (2 pages)!")); vm_compute; reflexivity.
Defined.

(** C10. For every input text the score lies in [0, 170]: the first
    three terms lie in [0, 100], [0, 50] and [0, 20], the fourth is
    subtracted and the final [max] with 0 removes a negative sum; a text
    of whitespace only scores 0, as the empty text does. *)
Theorem evaluate_korean_quality_range (rt : Runtime) (t : text) :
  (0 <= evaluate_korean_quality rt t /\ evaluate_korean_quality rt t <= 170)%Q
  /\ (0 <= spec_korean_ratio t * 100 /\ spec_korean_ratio t * 100 <= 100)%Q
  /\ (0 <= spec_complete_term t /\ spec_complete_term t <= 50)%Q
  /\ (0 <= Qmin (spec_word_density t * 20) 20
      /\ Qmin (spec_word_density t * 20) 20 <= 20)%Q
  /\ (0 <= spec_broken_ratio rt t * 50)%Q
  /\ (forallb isspace t = true -> evaluate_korean_quality rt t == 0).
Proof.
  pose proof (spec_terms_bounds rt t) as (Hk & Hc & Hw & Hb).
  split; [|split; [exact Hk|split; [exact Hc|split; [exact Hw|split; [exact Hb|]]]]].
  - rewrite evaluate_as_float. split.
    + unfold float_score. apply Q.le_max_l.
    + apply float_score_close.
  - intros Hws. unfold evaluate_korean_quality.
    destruct t as [|c r]; [reflexivity|].
    rewrite (strip_all_space _ Hws). reflexivity.
Qed.

(** C10, run on a text of blanks, tabs and newlines. *)
Lemma evaluate_korean_quality_range_witness :
  evaluate_korean_quality Posix.runtime [SPACE; TAB; NL; NL; SPACE] == 0.
Proof.
  apply (evaluate_korean_quality_range Posix.runtime
           [SPACE; TAB; NL; NL; SPACE]).
  reflexivity.
Defined.

(** ** Method selector *)

Lemma Qgtb_true (a b : Q) : Qgtb a b = true <-> (b < a)%Q.
Proof.
  unfold Qgtb. rewrite negb_true_iff. split.
  - intros H. apply Qnot_le_lt. intros Hle.
    apply Qle_bool_iff in Hle. congruence.
  - intros H. destruct (Qle_bool a b) eqn:E; [|reflexivity].
    apply Qle_bool_iff in E. apply Qlt_not_le in H. contradiction.
Qed.

Lemma replaces_best_true (s : Q) (t : text) (b : Best) :
  replaces_best s t b = true ->
  (korean_score b < s)%Q
  \/ (s == korean_score b /\ (length (best_text b) < length t)%nat).
Proof.
  unfold replaces_best. intros H. apply orb_true_iff in H as [H|H].
  - left. apply Qgtb_true. exact H.
  - right. apply andb_true_iff in H as [H1 H2].
    apply Qeq_bool_iff in H1. apply Nat.ltb_lt in H2. auto.
Qed.

Lemma replaces_best_false (s : Q) (t : text) (b : Best) :
  replaces_best s t b = false ->
  (s <= korean_score b)%Q
  /\ (s == korean_score b -> (length t <= length (best_text b))%nat).
Proof.
  unfold replaces_best. intros H. apply orb_false_iff in H as [H1 H2].
  assert (s <= korean_score b)%Q as Hle.
  { apply Qnot_lt_le. intros Hlt. apply Qgtb_true in Hlt. congruence. }
  split; [exact Hle|]. intros Heq.
  apply andb_false_iff in H2 as [H2|H2].
  - apply Qeq_bool_iff in Heq. congruence.
  - apply Nat.ltb_ge in H2. exact H2.
Qed.

(** One more candidate keeps the choice a best one. *)
Lemma best_among_step (rt : Runtime) (b : Best) (seen : list text)
      (name t : text) :
  best_among rt b seen ->
  best_among rt
    (if replaces_best (evaluate_korean_quality rt t) t b
     then {| best_text := t; best_method := name;
             korean_score := evaluate_korean_quality rt t |}
     else b)
    (seen ++ [t]).
Proof.
  intros (Hscore & Hmem & Hbest).
  destruct (replaces_best _ t b) eqn:E.
  - apply replaces_best_true in E. unfold best_among. cbn [best_text korean_score].
    split; [reflexivity|]. split; [right; apply in_or_app; right; left; reflexivity|].
    intros t' Hin. apply in_app_or in Hin as [Hin|[<-|[]]].
    + destruct (Hbest t' Hin) as [Hle Hlen]. split.
      * destruct E as [E|[E _]]; lra.
      * intros Heq. destruct E as [E|[E1 E2]]; [lra|].
        assert (evaluate_korean_quality rt t' == korean_score b)%Q as Ht' by lra.
        specialize (Hlen Ht'). lia.
    + split; [lra|]. intros _. lia.
  - apply replaces_best_false in E as [Hle Hlen].
    split; [exact Hscore|]. split.
    + destruct Hmem as [Hmem|Hmem]; [left; exact Hmem|].
      right. apply in_or_app. left. exact Hmem.
    + intros t' Hin. apply in_app_or in Hin as [Hin|[<-|[]]].
      * apply Hbest; exact Hin.
      * split; assumption.
Qed.

Lemma best_among_initial (rt : Runtime) : best_among rt initial_best [].
Proof.
  split; [reflexivity|]. split; [left; reflexivity|]. intros t [].
Qed.

(** The loop returns, and its result is a best choice among what was
    seen before together with the candidates of the remaining methods. *)
Lemma smart_loop_best (rt : Runtime) (pdf_path : text)
      (methods : list (text * Backend)) :
  forall (b : Best) (seen : list text) (w : World),
    best_among rt b seen ->
    exists w' b',
      smart_loop rt methods pdf_path b w = (w', Ok b')
      /\ disk w' = disk w /\ io_faults w' = io_faults w
      /\ is_converting w' = is_converting w
      /\ best_among rt b' (seen ++ candidates methods pdf_path).
Proof.
  induction methods as [|[name f] rest IH]; intros b seen w Hb.
  - exists w, b. rewrite app_nil_r. cbn. auto.
  - cbn [smart_loop candidates].
    unfold bind at 1. unfold smart_step, try_except, bind, lift, log, ret.
    destruct (f pdf_path) as [t|e].
    + pose proof (best_among_step rt b seen name t Hb) as Hb'.
      match goal with
      | |- context [smart_loop _ _ _ ?b1 ?w1] =>
        destruct (IH b1 (seen ++ [t]) w1 Hb')
          as (w' & b' & Hrun & Hd & Hf & Hc & Hbest)
      end.
      exists w', b'. rewrite Hrun. rewrite <- app_assoc in Hbest.
      repeat (split; [first [reflexivity | assumption]|]). exact Hbest.
    + match goal with
      | |- context [smart_loop _ _ _ _ ?w1] =>
        destruct (IH b seen w1 Hb)
          as (w' & b' & Hrun & Hd & Hf & Hc & Hbest)
      end.
      exists w', b'. rewrite Hrun.
      repeat (split; [first [reflexivity | assumption]|]). exact Hbest.
Qed.

(** C1. Whatever the list of methods, the smart selector returns, and
    the text it retains is the empty text or one of the candidates; its
    score is greater than or equal to the score of every candidate, and
    at least as long as every candidate with the same score; when every
    method fails or gives the empty text, the result is the empty
    string.  [extract_text_smart_korean] is [smart_select] on the
    methods that are available. *)
Theorem smart_select_retains_best (rt : Runtime)
        (methods : list (text * Backend)) (pdf_path : text) (w : World) :
  exists w' best,
    smart_select rt methods pdf_path w = (w', Ok best)
    /\ (best = [] \/ In best (candidates methods pdf_path))
    /\ (forall t, In t (candidates methods pdf_path) ->
          (evaluate_korean_quality rt t <= evaluate_korean_quality rt best)%Q
          /\ (evaluate_korean_quality rt t == evaluate_korean_quality rt best ->
              (length t <= length best)%nat))
    /\ ((forall t, In t (candidates methods pdf_path) -> t = []) -> best = []).
Proof.
  destruct (smart_loop_best rt pdf_path methods initial_best [] w
              (best_among_initial rt))
    as (w1 & b & Hrun & _ & _ & _ & Hscore & Hmem & Hbest).
  cbn [app] in Hmem, Hbest.
  unfold smart_select, bind. rewrite Hrun.
  assert (exists w', (if nonempty (strip (best_text b))
                      then log (LogBestMethod (best_method b) (korean_score b))
                      else ret tt) w1 = (w', Ok tt)) as [w' Hlog].
  { destruct (nonempty _); eexists; reflexivity. }
  rewrite Hlog. exists w', (best_text b). unfold ret.
  split; [reflexivity|]. split; [exact Hmem|]. split.
  - intros t Hin. rewrite <- Hscore. apply Hbest. exact Hin.
  - intros Hall. destruct Hmem as [Hmem|Hmem]; [exact Hmem|]. apply Hall, Hmem.
Qed.

(** ** Korean text repairer: the run without failure *)

Lemma recover_font_no_failure (patterns : list Z) :
  forall (t : text) (w : World),
    recover_font no_failure patterns t w
    = (w, Ok (fold_left (fun t v => sub_vowel_first v t) patterns t)).
Proof.
  induction patterns as [|v rest IH]; intros t w; [reflexivity|].
  cbn [recover_font fold_left]. unfold bind, call, no_failure, ret.
  apply IH.
Qed.

Lemma repair_body_no_failure (rt : Runtime) (cfg : Config) (t : text)
      (w : World) :
  repair_body rt no_failure cfg t w
  = (w, Ok (cleanup (normalize_and_reorder rt cfg t))).
Proof.
  unfold repair_body, cleanup, normalize_and_reorder, reorder_jamo.
  unfold bind at 1.
  assert ((if unicode_normalization cfg
           then call no_failure call_normalize (normalize_NFC rt) t
           else ret t) w
          = (w, Ok (if unicode_normalization cfg
                    then normalize_NFC rt t else t))) as ->.
  { destruct (unicode_normalization cfg); reflexivity. }
  unfold bind at 1.
  match goal with
  | |- context [(if font_recovery cfg then recover_font _ _ ?x else _) w] =>
    assert ((if font_recovery cfg
             then recover_font no_failure broken_patterns x
             else ret x) w
            = (w, Ok (if font_recovery cfg
                      then fold_left (fun t v => sub_vowel_first v t)
                                     broken_patterns x
                      else x))) as ->
  end.
  { destruct (font_recovery cfg);
      [apply recover_font_no_failure|reflexivity]. }
  unfold bind at 1.
  match goal with
  | |- context [(if charset_detection cfg then ?m else _) w] =>
    assert ((if charset_detection cfg then m else ret tt) w = (w, Ok tt))
      as ->
  end.
  { destruct (charset_detection cfg); [|reflexivity].
    unfold try_except.
    destruct (text_eqb _ _ && is_windows _); reflexivity. }
  reflexivity.
Qed.

Lemma repair_no_failure (rt : Runtime) (cfg : Config) (t : text) (w : World) :
  repair_korean_text rt no_failure cfg t w = (w, Ok (repaired rt cfg t)).
Proof.
  unfold repair_korean_text, repaired.
  destruct t as [|c r]; [reflexivity|].
  destruct (broken_char_repair cfg); cbn [negb]; [|reflexivity].
  unfold try_except. rewrite repair_body_no_failure. reflexivity.
Qed.

(** C9. With [repair_broken_chars] switched off the repairer returns its
    input as it is, whatever the other three toggles, the runtime and
    the failing calls; the world is left as it was. *)
Theorem repair_disabled_returns_input (rt : Runtime) (fl : Failures)
        (cfg : Config) (t : text) (w : World) :
  broken_char_repair cfg = false ->
  repair_korean_text rt fl cfg t w = (w, Ok t).
Proof.
  intros Hoff. unfold repair_korean_text. rewrite Hoff.
  destruct t; reflexivity.
Qed.

(** C9, run on a text the repairer would otherwise change. *)
Lemma repair_disabled_returns_input_witness :
  repair_korean_text Posix.runtime no_failure
    {| extraction_method := smart_korean; font_recovery := true;
       charset_detection := true; unicode_normalization := true;
       broken_char_repair := false; merge_option := false;
       page_separator := true; output_path := []; pdf_files := [] |}
    (py "  ㅏㄱ   ㄴ  ") Posix.fresh_world
  = (Posix.fresh_world, Ok (py "  ㅏㄱ   ㄴ  ")).
Proof.
  apply repair_disabled_returns_input. reflexivity.
Defined.

(** ** Korean text repairer: failures *)

Lemma call_cases {A B} (fl : Failures) (site : call_site) (f : A -> B)
      (x : A) (w : World) :
  (fl site = None /\ call fl site f x w = (w, Ok (f x)))
  \/ (exists e, fl site = Some e /\ call fl site f x w = (w, Raise e)).
Proof.
  unfold call. destruct (fl site) as [e|]; [right; eauto|left; auto].
Qed.

Lemma recover_font_cases (fl : Failures) (patterns : list Z) :
  forall (t : text) (w : World),
    (exists t', recover_font fl patterns t w = (w, Ok t')
                /\ forall v, In v patterns -> fl (call_sub_pattern v) = None)
    \/ (exists e, recover_font fl patterns t w = (w, Raise e)).
Proof.
  induction patterns as [|v rest IH]; intros t w.
  - left. exists t. split; [reflexivity|]. intros v [].
  - cbn [recover_font]. unfold bind.
    destruct (call_cases fl (call_sub_pattern v) (sub_vowel_first v) t w)
      as [[Hnone ->]|(e & _ & ->)]; [|right; eauto].
    destruct (IH (sub_vowel_first v t) w) as [(t' & -> & Hrest)|(e & ->)];
      [|right; eauto].
    left. exists t'. split; [reflexivity|].
    intros v' [<-|Hin]; auto.
Qed.

(** The transcoding probe never lets its failure out. *)
Lemma transcode_probe_ok (rt : Runtime) (fl : Failures) (cfg : Config)
      (t : text) (w : World) :
  (if charset_detection cfg then
     try_except
       (if text_eqb (get_system_encoding (os_name rt)) (py "cp949")
           && is_windows (os_name rt)
        then call fl call_transcode (fun _ : text => tt) t
        else ret tt)
       (fun _ => ret tt)
   else ret tt) w = (w, Ok tt).
Proof.
  destruct (charset_detection cfg); [|reflexivity].
  unfold try_except.
  destruct (text_eqb _ _ && is_windows _); [|reflexivity].
  unfold call. destruct (fl call_transcode); reflexivity.
Qed.

(** The body of the [try] leaves the world alone. *)
Lemma repair_body_world (rt : Runtime) (fl : Failures) (cfg : Config)
      (t : text) (w : World) :
  fst (repair_body rt fl cfg t w) = w.
Proof.
  unfold repair_body.
  unfold bind at 1.
  assert (forall x, (if unicode_normalization cfg
                     then call fl call_normalize (normalize_NFC rt) x
                     else ret x) w = (w, Ok (normalize_NFC rt x))
                    \/ (if unicode_normalization cfg
                        then call fl call_normalize (normalize_NFC rt) x
                        else ret x) w = (w, Ok x)
                    \/ exists e, (if unicode_normalization cfg
                        then call fl call_normalize (normalize_NFC rt) x
                        else ret x) w = (w, Raise e)) as H1.
  { intros x. destruct (unicode_normalization cfg); [|auto].
    destruct (call_cases fl call_normalize (normalize_NFC rt) x w)
      as [[_ ->]|(e & _ & ->)]; eauto. }
  assert (forall x, exists r,
             (if font_recovery cfg then recover_font fl broken_patterns x
              else ret x) w = (w, r)) as H2.
  { intros x. destruct (font_recovery cfg); [|eexists; reflexivity].
    destruct (recover_font_cases fl broken_patterns x w)
      as [(t' & -> & _)|(e & ->)]; eexists; reflexivity. }
  assert (forall x, exists r,
             (let* _ := (if charset_detection cfg then
                  try_except
                    (if text_eqb (get_system_encoding (os_name rt)) (py "cp949")
                        && is_windows (os_name rt)
                     then call fl call_transcode (fun _ : text => tt) x
                     else ret tt)
                    (fun _ => ret tt)
                else ret tt) in
              let* t := call fl call_join (remove_class is_surrogate) x in
              let* t := call fl call_sub_control (remove_class is_control) t in
              let* t := call fl call_sub_spaces (sub_spaces false) t in
              let* t := call fl call_sub_blank_lines (sub_blank_lines 0) t in
              call fl call_strip strip t) w = (w, r)) as H3.
  { intros x. unfold bind at 1. rewrite transcode_probe_ok.
    unfold bind, call.
    destruct (fl call_join), (fl call_sub_control), (fl call_sub_spaces),
      (fl call_sub_blank_lines), (fl call_strip); eexists; reflexivity. }
  destruct (H1 t) as [->|[->|(e & ->)]]; [| |reflexivity].
  - unfold bind at 1. destruct (H2 (normalize_NFC rt t)) as [[x|e] ->];
      [|reflexivity].
    destruct (H3 x) as [r ->]. reflexivity.
  - unfold bind at 1. destruct (H2 t) as [[x|e] ->]; [|reflexivity].
    destruct (H3 x) as [r ->]. reflexivity.
Qed.

Lemma repair_body_ok_sites (rt : Runtime) (fl : Failures) (cfg : Config)
      (t t' : text) (w w' : World) :
  repair_body rt fl cfg t w = (w', Ok t') ->
  forall site, propagates cfg site = true -> fl site = None.
Proof.
  intros Hrun.
  unfold repair_body in Hrun. unfold bind at 1 in Hrun.
  assert (unicode_normalization cfg = true -> fl call_normalize = None) as F1.
  { intros Hn. rewrite Hn in Hrun. run_call Hrun. reflexivity. }
  assert (exists x, (let* t0 := (if font_recovery cfg then recover_font fl broken_patterns x else ret x) in
     let* _ := (if charset_detection cfg then
                  try_except
                    (if text_eqb (get_system_encoding (os_name rt)) (py "cp949")
                        && is_windows (os_name rt)
                     then call fl call_transcode (fun _ : text => tt) t0
                     else ret tt)
                    (fun _ => ret tt)
                else ret tt) in
              let* t := call fl call_join (remove_class is_surrogate) t0 in
              let* t := call fl call_sub_control (remove_class is_control) t in
              let* t := call fl call_sub_spaces (sub_spaces false) t in
              let* t := call fl call_sub_blank_lines (sub_blank_lines 0) t in
              call fl call_strip strip t) w = (w', Ok t')) as [x Hrun2].
  { destruct (unicode_normalization cfg).
    - run_call Hrun. eexists; exact Hrun.
    - eexists; exact Hrun. }
  clear Hrun. unfold bind at 1 in Hrun2.
  assert (font_recovery cfg = true ->
          forall v, In v broken_patterns -> fl (call_sub_pattern v) = None) as F2.
  { intros Hf. rewrite Hf in Hrun2.
    destruct (recover_font_cases fl broken_patterns x w)
      as [(y & E & Hall)|(e & E)]; rewrite E in Hrun2; [exact Hall|discriminate]. }
  assert (exists y, (
     let* _ := (if charset_detection cfg then
                  try_except
                    (if text_eqb (get_system_encoding (os_name rt)) (py "cp949")
                        && is_windows (os_name rt)
                     then call fl call_transcode (fun _ : text => tt) y
                     else ret tt)
                    (fun _ => ret tt)
                else ret tt) in
              let* t := call fl call_join (remove_class is_surrogate) y in
              let* t := call fl call_sub_control (remove_class is_control) t in
              let* t := call fl call_sub_spaces (sub_spaces false) t in
              let* t := call fl call_sub_blank_lines (sub_blank_lines 0) t in
              call fl call_strip strip t) w = (w', Ok t')) as [y Hrun3].
  { destruct (font_recovery cfg).
    - destruct (recover_font_cases fl broken_patterns x w)
        as [(y & E & Hall)|(e & E)]; rewrite E in Hrun2; [|discriminate].
      eexists; exact Hrun2.
    - eexists; exact Hrun2. }
  clear Hrun2. unfold bind at 1 in Hrun3. rewrite transcode_probe_ok in Hrun3.
  unfold bind at 1 in Hrun3. run_call Hrun3.
  unfold bind at 1 in Hrun3. run_call Hrun3.
  unfold bind at 1 in Hrun3. run_call Hrun3.
  unfold bind at 1 in Hrun3. run_call Hrun3.
  run_call Hrun3.
  intros site Hp. destruct site; cbn [propagates] in Hp; auto; try discriminate.
  apply andb_true_iff in Hp as [Hf Hex].
  apply existsb_exists in Hex as (v' & Hin & Heq).
  apply Z.eqb_eq in Heq. subst v'. auto.
Qed.

(** C5. The repairer never raises to its caller, whatever the text, the
    toggles and the failing calls.  When its [try] block hits a failure
    the handler logs it and the original, unrepaired text is returned;
    this is what happens as soon as a call fails whose exception reaches
    the handler (the transcoding probe of step 3 catches its own
    failure, which is then no failure of the repairer). *)
Theorem repair_failure_returns_original (rt : Runtime) (fl : Failures)
        (cfg : Config) (t : text) (w : World) :
  (exists w' t', repair_korean_text rt fl cfg t w = (w', Ok t'))
  /\ (forall w1 e,
        t <> [] -> broken_char_repair cfg = true ->
        repair_body rt fl cfg t w = (w1, Raise e) ->
        exists w',
          repair_korean_text rt fl cfg t w = (w', Ok t)
          /\ log_sink w' = log_sink w ++ [LogRepairError e]
          /\ disk w' = disk w)
  /\ (forall site e,
        fl site = Some e -> propagates cfg site = true ->
        exists w', repair_korean_text rt fl cfg t w = (w', Ok t)).
Proof.
  split; [|split].
  - unfold repair_korean_text. destruct t as [|c r]; [eexists _, _; reflexivity|].
    destruct (broken_char_repair cfg); cbn [negb]; [|eexists _, _; reflexivity].
    unfold try_except.
    destruct (repair_body rt fl cfg (c :: r) w) as [w1 [t1|e]];
      eexists _, _; reflexivity.
  - intros w1 e Hne Hon Hbody.
    pose proof (repair_body_world rt fl cfg t w) as Hw.
    rewrite Hbody in Hw. cbn [fst] in Hw. subst w1.
    unfold repair_korean_text. destruct t as [|c r]; [contradiction|].
    rewrite Hon. cbn [negb]. unfold try_except. rewrite Hbody.
    eexists. split; [reflexivity|]. split; reflexivity.
  - intros site e Hsite Hp.
    unfold repair_korean_text. destruct t as [|c r]; [eexists; reflexivity|].
    destruct (broken_char_repair cfg); cbn [negb]; [|eexists; reflexivity].
    unfold try_except.
    destruct (repair_body rt fl cfg (c :: r) w) as [w1 [t1|e1]] eqn:Hbody.
    + pose proof (repair_body_ok_sites rt fl cfg _ _ _ _ Hbody site Hp).
      congruence.
    + eexists. reflexivity.
Qed.

(** C5, run with a failing [re.sub(r'\s+', ' ', text)]. *)
Lemma repair_failure_returns_original_witness :
  exists w',
    repair_korean_text Posix.runtime
      (fun site => match site with
                   | call_sub_spaces => Some (py "error")
                   | _ => None
                   end)
      (Posix.all_toggles smart_korean [] []) (py " ㅏㄱ   ㄴ ")
      Posix.fresh_world
    = (w', Ok (py " ㅏㄱ   ㄴ ")).
Proof.
  apply (proj2 (proj2 (repair_failure_returns_original Posix.runtime _
                         (Posix.all_toggles smart_korean [] [])
                         (py " ㅏㄱ   ㄴ ") Posix.fresh_world))
           call_sub_spaces (py "error")); reflexivity.
Defined.

(** ** Korean text repairer: the cleanup *)

Lemma space_is_space : isspace SPACE = true.
Proof. reflexivity. Qed.

Lemma remove_class_clears (p : Z -> bool) (t : text) :
  forallb (fun c => negb (p c)) (remove_class p t) = true.
Proof.
  induction t as [|c r IH]; [reflexivity|]. cbn [remove_class].
  destruct (p c) eqn:E; [exact IH|]. cbn [forallb]. rewrite E, IH. reflexivity.
Qed.

Lemma remove_class_keeps (p q : Z -> bool) (t : text) :
  forallb q t = true -> forallb q (remove_class p t) = true.
Proof.
  induction t as [|c r IH]; [reflexivity|]. cbn [remove_class forallb].
  intros H. apply andb_true_iff in H as [Hc Hr].
  destruct (p c); [auto|]. cbn [forallb]. rewrite Hc. auto.
Qed.

Lemma remove_class_fixed (p : Z -> bool) (t : text) :
  forallb (fun c => negb (p c)) t = true -> remove_class p t = t.
Proof.
  induction t as [|c r IH]; [reflexivity|]. cbn [remove_class forallb].
  intros H. apply andb_true_iff in H as [Hc Hr].
  apply negb_true_iff in Hc. rewrite Hc, IH by assumption. reflexivity.
Qed.

Lemma tidy_sub_spaces (t : text) :
  forallb (fun c => negb (is_surrogate c)) t = true ->
  forallb (fun c => negb (is_control c)) t = true ->
  forall b, tidy b (sub_spaces b t) = true.
Proof.
  induction t as [|c r IH]; [reflexivity|]. cbn [forallb sub_spaces].
  intros Hs Hc b.
  apply andb_true_iff in Hs as [Hs1 Hs2].
  apply andb_true_iff in Hc as [Hc1 Hc2].
  destruct (isspace c) eqn:E.
  - destruct b; [auto|]. cbn [tidy]. rewrite space_is_space.
    rewrite IH by assumption. reflexivity.
  - destruct b; cbn [tidy]; rewrite E, Hs1, Hc1, IH by assumption; reflexivity.
Qed.

Lemma tidy_spaces (t : text) :
  forall b, tidy b t = true ->
            forall c, In c t -> isspace c = true -> c = SPACE.
Proof.
  induction t as [|a r IH]; intros b Ht c [].
  - subst a. intros Hc. cbn [tidy] in Ht. rewrite Hc in Ht.
    apply andb_true_iff in Ht as [Ht _]. apply andb_true_iff in Ht as [Ht _].
    apply Z.eqb_eq in Ht. exact Ht.
  - cbn [tidy] in Ht. destruct (isspace a).
    + apply andb_true_iff in Ht as [_ Ht]. eapply IH; eassumption.
    + apply andb_true_iff in Ht as [_ Ht]. eapply IH; eassumption.
Qed.

Lemma tidy_no_newline_tab (t : text) (b : bool) :
  tidy b t = true -> ~ In NL t /\ ~ In TAB t.
Proof.
  intros Ht. split; intros Hin;
    apply (tidy_spaces t b Ht) in Hin; try reflexivity; discriminate.
Qed.

Lemma tidy_parts (t : text) :
  forall b, tidy b t = true ->
            forallb (fun c => negb (is_surrogate c)) t = true
            /\ forallb (fun c => negb (is_control c)) t = true
            /\ sub_spaces b t = t.
Proof.
  induction t as [|c r IH]; intros b Ht; [auto|].
  cbn [tidy] in Ht. cbn [forallb sub_spaces].
  destruct (isspace c) eqn:E.
  - apply andb_true_iff in Ht as [Ht Hr]. apply andb_true_iff in Ht as [Hc Hb].
    apply Z.eqb_eq in Hc. subst c. apply negb_true_iff in Hb. subst b.
    destruct (IH true Hr) as (-> & -> & ->). auto.
  - apply andb_true_iff in Ht as [Ht Hr]. apply andb_true_iff in Ht as [Hs Hc].
    destruct (IH false Hr) as (-> & -> & ->). rewrite Hs, Hc. auto.
Qed.

Lemma sub_blank_lines_fixed (t : text) :
  ~ In NL t -> sub_blank_lines 0 t = t.
Proof.
  induction t as [|c r IH]; [reflexivity|]. intros Hin.
  cbn [sub_blank_lines].
  destruct (Z.eqb_spec c NL) as [->|_]; [contradiction Hin; left; reflexivity|].
  rewrite IH; [reflexivity|]. intros H. apply Hin. right. exact H.
Qed.

Lemma tidy_weaken (t : text) (b : bool) :
  tidy b t = true -> tidy false t = true.
Proof.
  destruct t as [|c r]; [reflexivity|]. cbn [tidy].
  destruct (isspace c); [|auto]. intros H.
  apply andb_true_iff in H as [H Hr]. apply andb_true_iff in H as [Hc _].
  rewrite Hc, Hr. reflexivity.
Qed.

Lemma tidy_lstrip (t : text) :
  forall b, tidy b t = true -> tidy false (lstrip t) = true.
Proof.
  induction t as [|c r IH]; intros b Ht; [reflexivity|].
  cbn [lstrip]. destruct (isspace c) eqn:E.
  - cbn [tidy] in Ht. rewrite E in Ht.
    apply andb_true_iff in Ht as [_ Hr]. eapply IH; eassumption.
  - eapply tidy_weaken; eassumption.
Qed.

Lemma tidy_rstrip (t : text) :
  forall b, tidy b t = true -> tidy b (rstrip t) = true.
Proof.
  induction t as [|c r IH]; intros b Ht; [reflexivity|].
  cbn [rstrip]. cbn [tidy] in Ht.
  destruct (isspace c) eqn:E.
  - apply andb_true_iff in Ht as [Hc Hr].
    specialize (IH true Hr).
    destruct (rstrip r) as [|c' r']; [reflexivity|].
    cbn [tidy] in *. rewrite E, Hc. exact IH.
  - apply andb_true_iff in Ht as [Hc Hr].
    specialize (IH false Hr).
    destruct (rstrip r) as [|c' r'].
    + cbn [tidy]. rewrite E, Hc. reflexivity.
    + cbn [tidy] in *. rewrite E, Hc. exact IH.
Qed.

Lemma starts_clean_lstrip (t : text) : starts_clean (lstrip t) = true.
Proof.
  induction t as [|c r IH]; [reflexivity|]. cbn [lstrip].
  destruct (isspace c) eqn:E; [exact IH|]. cbn [starts_clean]. rewrite E. reflexivity.
Qed.

Lemma starts_clean_rstrip (t : text) :
  starts_clean t = true -> starts_clean (rstrip t) = true.
Proof.
  destruct t as [|c r]; [reflexivity|]. cbn [rstrip starts_clean].
  intros Hc. destruct (rstrip r); [|exact Hc].
  apply negb_true_iff in Hc. rewrite Hc. cbn [starts_clean]. rewrite Hc. reflexivity.
Qed.

Lemma lstrip_fixed (t : text) : starts_clean t = true -> lstrip t = t.
Proof.
  destruct t as [|c r]; [reflexivity|]. cbn [starts_clean lstrip].
  intros Hc. apply negb_true_iff in Hc. rewrite Hc. reflexivity.
Qed.

Lemma rstrip_rstrip (t : text) : rstrip (rstrip t) = rstrip t.
Proof.
  induction t as [|c r IH]; [reflexivity|]. cbn [rstrip].
  destruct (rstrip r) as [|c' r'] eqn:E.
  - destruct (isspace c) eqn:Hc; [reflexivity|]. cbn [rstrip]. rewrite Hc. reflexivity.
  - change (rstrip (c :: c' :: r')) with
      (match rstrip (c' :: r') with
       | [] => if isspace c then [] else [c]
       | x => c :: x
       end).
    rewrite IH. reflexivity.
Qed.

Lemma strip_strip (t : text) : strip (strip t) = strip t.
Proof.
  unfold strip.
  rewrite (lstrip_fixed (rstrip (lstrip t))).
  - apply rstrip_rstrip.
  - apply starts_clean_rstrip, starts_clean_lstrip.
Qed.

Lemma tidy_cleanup (t : text) : tidy false (cleanup t) = true.
Proof.
  unfold cleanup, strip.
  set (g := remove_class is_control (remove_class is_surrogate t)).
  assert (tidy false (sub_spaces false g) = true) as Hu.
  { apply tidy_sub_spaces.
    - apply remove_class_keeps, remove_class_clears.
    - apply remove_class_clears. }
  rewrite sub_blank_lines_fixed by (eapply tidy_no_newline_tab; eassumption).
  apply tidy_rstrip. eapply tidy_lstrip. eassumption.
Qed.

Lemma cleanup_as_strip (t : text) :
  cleanup t
  = strip (sub_spaces false (remove_class is_control (remove_class is_surrogate t))).
Proof.
  unfold cleanup. f_equal.
  apply sub_blank_lines_fixed.
  eapply tidy_no_newline_tab.
  apply tidy_sub_spaces; [apply remove_class_keeps|]; apply remove_class_clears.
Qed.

Lemma cleanup_cleanup (t : text) : cleanup (cleanup t) = cleanup t.
Proof.
  pose proof (tidy_cleanup t) as Ht.
  destruct (tidy_parts _ _ Ht) as (Hs & Hc & Hsp).
  rewrite (cleanup_as_strip (cleanup t)).
  rewrite (remove_class_fixed is_surrogate) by assumption.
  rewrite (remove_class_fixed is_control) by assumption.
  rewrite Hsp. rewrite (cleanup_as_strip t). apply strip_strip.
Qed.

(** ** Korean text repairer: idempotence *)

(** Wherever normalisation leaves strings of compatibility jamo alone,
    as NFC does, a second application moves the vowel once more. *)
Lemma repair_moves_vowel_again (rt : Runtime) (cfg : Config) :
  broken_char_repair cfg = true -> font_recovery cfg = true ->
  normalize_NFC rt (py "ㅏㄱㄴ") = py "ㅏㄱㄴ" ->
  normalize_NFC rt (py "ㄱㅏㄴ") = py "ㄱㅏㄴ" ->
  repaired rt cfg (py "ㅏㄱㄴ") = py "ㄱㅏㄴ"
  /\ repaired rt cfg (py "ㄱㅏㄴ") = py "ㄱㄴㅏ".
Proof.
  intros Hon Hfont H1 H2.
  unfold repaired, normalize_and_reorder. rewrite Hon, Hfont.
  change (py "ㅏㄱㄴ") with [12623; 12593; 12596] in *.
  change (py "ㄱㅏㄴ") with [12593; 12623; 12596] in *.
  destruct (unicode_normalization cfg); rewrite ?H1, ?H2;
    split; vm_compute; reflexivity.
Qed.

(** C3, refuted as stated: with every toggle on, the repairer turns
    ㅏㄱㄴ into ㄱㅏㄴ, and ㄱㅏㄴ into ㄱㄴㅏ. *)
Lemma repair_not_idempotent :
  ~ idempotent_at Posix.runtime (Posix.all_toggles smart_korean [] [])
      (py "ㅏㄱㄴ").
Proof.
  intros H.
  destruct (repair_moves_vowel_again Posix.runtime
              (Posix.all_toggles smart_korean [] [])
              eq_refl eq_refl eq_refl eq_refl) as [H1 H2].
  specialize (H Posix.fresh_world (py "ㄱㅏㄴ") Posix.fresh_world).
  rewrite !repair_no_failure, H1, H2 in H.
  specialize (H eq_refl). vm_compute in H. discriminate H.
Qed.

(** C3, amended.  Run without failure, the repairer is idempotent at
    every text whose repaired form is left unchanged by steps 1 and 2 as
    far as they are switched on (NFC normalisation and the reordering of
    vowel jamo before consonant jamo): steps 4 to 6 and the final trim
    are idempotent.  This covers every text when the two toggles are
    off. *)
Theorem repair_idempotent_when_settled (rt : Runtime) (cfg : Config)
        (t t1 : text) (w w1 : World) :
  repair_korean_text rt no_failure cfg t w = (w1, Ok t1) ->
  normalize_and_reorder rt cfg t1 = t1 ->
  repair_korean_text rt no_failure cfg t1 w1 = (w1, Ok t1).
Proof.
  rewrite !repair_no_failure. intros Hrun Hfix.
  injection Hrun as <- <-. f_equal. f_equal.
  unfold repaired at 1.
  destruct (repaired rt cfg t) as [|c r] eqn:E; [reflexivity|].
  destruct (broken_char_repair cfg) eqn:Hon; [|reflexivity].
  rewrite Hfix. rewrite <- E. unfold repaired.
  destruct t as [|c0 r0]; [discriminate E|]. rewrite Hon.
  apply cleanup_cleanup.
Qed.

(** C3 amended, run on a mixed-script text. *)
Lemma repair_idempotent_when_settled_witness :
  repair_korean_text Posix.runtime no_failure
    (Posix.all_toggles smart_korean [] [])
    (py "한글 text 가ㄱ") Posix.fresh_world
  = (Posix.fresh_world, Ok (py "한글 text 가ㄱ")).
Proof.
  apply (repair_idempotent_when_settled Posix.runtime
           (Posix.all_toggles smart_korean [] [])
           ([9; 32] ++ py "한글" ++ [10; 10; 10; 9] ++ py "text" ++ [0; 32]
            ++ py "가ㄱ" ++ [32; 10])
           (py "한글 text 가ㄱ") Posix.fresh_world Posix.fresh_world);
    vm_compute; reflexivity.
Defined.

(** C6, against the code: [re.sub(r'\s+', ' ', text)] runs first and
    takes newlines and tabs with it, so the substitution for blank lines
    that follows finds nothing: three lines come out as one, and no
    output of the repairer, once it is switched on, holds a newline or a
    tab. *)
Theorem repair_flattens_lines :
  repair_korean_text Posix.runtime no_failure
    (Posix.all_toggles smart_korean [] [])
    (py "a" ++ [NL; NL; NL] ++ py "b" ++ [NL; TAB] ++ py "c")
    Posix.fresh_world
  = (Posix.fresh_world, Ok (py "a b c"))
  /\ forall (rt : Runtime) (cfg : Config) (t : text) (w : World),
      broken_char_repair cfg = true ->
      exists t',
        repair_korean_text rt no_failure cfg t w = (w, Ok t')
        /\ ~ In NL t' /\ ~ In TAB t'.
Proof.
  split; [vm_compute; reflexivity|].
  intros rt cfg t w Hon. exists (repaired rt cfg t).
  split; [apply repair_no_failure|].
  unfold repaired. rewrite Hon. destruct t as [|c r].
  - split; intros [].
  - eapply tidy_no_newline_tab, tidy_cleanup.
Qed.

(** ** Effects of the monadic steps *)

Lemma per_file_work_refl (w : World) : per_file_work w w.
Proof.
  split; [reflexivity|]. exists []. rewrite app_nil_r. auto.
Qed.

Lemma per_file_work_trans (w1 w2 w3 : World) :
  per_file_work w1 w2 -> per_file_work w2 w3 -> per_file_work w1 w3.
Proof.
  intros (Hc1 & evs1 & Hl1 & Hq1) (Hc2 & evs2 & Hl2 & Hq2).
  split; [congruence|]. exists (evs1 ++ evs2).
  rewrite Hl2, Hl1, <- app_assoc, forallb_app, Hq1, Hq2. auto.
Qed.

Lemma quiet_ret {A} (a : A) : quiet (ret a).
Proof. intros w. apply per_file_work_refl. Qed.

Lemma quiet_bind {A B} (m : M A) (k : A -> M B) :
  quiet m -> (forall a, quiet (k a)) -> quiet (bind m k).
Proof.
  intros Hm Hk w. unfold bind. specialize (Hm w).
  destruct (m w) as [w1 [a|e]]; cbn [fst] in *; [|exact Hm].
  eapply per_file_work_trans; [exact Hm|apply Hk].
Qed.

Lemma quiet_try {A} (m : M A) (h : exn -> M A) :
  quiet m -> (forall e, quiet (h e)) -> quiet (try_except m h).
Proof.
  intros Hm Hh w. unfold try_except. specialize (Hm w).
  destruct (m w) as [w1 [a|e]]; cbn [fst] in *; [exact Hm|].
  eapply per_file_work_trans; [exact Hm|apply Hh].
Qed.

Lemma quiet_log (ev : event) : is_summary_event ev = false -> quiet (log ev).
Proof.
  intros Hev w. split; [reflexivity|]. exists [ev]. cbn. rewrite Hev. auto.
Qed.

Lemma quiet_open_write (filepath enc : text) (errs : errors_mode) (t : text) :
  quiet (open_write filepath enc errs t).
Proof.
  intros w. unfold open_write.
  destruct (next_fate w); (split; [reflexivity|]); exists [];
    cbn; rewrite app_nil_r; auto.
Qed.

Lemma returns_ret {A} (a : A) : returns (ret a).
Proof. intros w. eexists _, _. reflexivity. Qed.

Lemma returns_log (ev : event) : returns (log ev).
Proof. intros w. eexists _, _. reflexivity. Qed.

Lemma returns_bind {A B} (m : M A) (k : A -> M B) :
  returns m -> (forall a, returns (k a)) -> returns (bind m k).
Proof.
  intros Hm Hk w. unfold bind. destruct (Hm w) as (w1 & a & ->). apply Hk.
Qed.

Lemma returns_try {A} (m : M A) (h : exn -> M A) :
  (forall e, returns (h e)) -> returns (try_except m h).
Proof.
  intros Hh w. unfold try_except.
  destruct (m w) as [w1 [a|e]]; [eexists _, _; reflexivity|apply Hh].
Qed.

(** ** Output writer *)

Lemma try_encodings_returns (filepath t : text) (encs : list text) :
  returns (try_encodings filepath t encs).
Proof.
  induction encs as [|enc rest IH]; [apply returns_ret|].
  cbn [try_encodings]. apply returns_try. intros _. exact IH.
Qed.

Lemma try_encodings_quiet (filepath t : text) (encs : list text) :
  quiet (try_encodings filepath t encs).
Proof.
  induction encs as [|enc rest IH]; [apply quiet_ret|].
  cbn [try_encodings]. apply quiet_try; [|intros _; exact IH].
  apply quiet_bind; [apply quiet_open_write|intros; apply quiet_ret].
Qed.

Lemma safe_write_text_returns (rt : Runtime) (filepath t : text) :
  returns (safe_write_text rt filepath t).
Proof.
  unfold safe_write_text. apply returns_bind; [apply try_encodings_returns|].
  intros [enc|]; [apply returns_ret|].
  apply returns_try. intros _. apply returns_ret.
Qed.

Lemma safe_write_text_quiet (rt : Runtime) (filepath t : text) :
  quiet (safe_write_text rt filepath t).
Proof.
  unfold safe_write_text. apply quiet_bind; [apply try_encodings_quiet|].
  intros [enc|]; [apply quiet_ret|].
  apply quiet_try; [|intros _; apply quiet_ret].
  apply quiet_bind; [apply quiet_open_write|intros; apply quiet_ret].
Qed.

(** The three fates of one block. *)
Lemma open_write_cases (filepath enc : text) (errs : errors_mode) (t : text)
      (w : World) :
  (next_fate w = completes
   /\ open_write filepath enc errs t w
      = (store filepath {| file_encoding := enc; file_errors := errs;
                           file_text := t |} (consume_fault w), Ok tt))
  \/ (next_fate w = open_raises
      /\ exists e, open_write filepath enc errs t w
                   = (consume_fault w, Raise e))
  \/ (exists written e,
         next_fate w = write_raises written
         /\ open_write filepath enc errs t w
            = (store filepath {| file_encoding := enc; file_errors := errs;
                                 file_text := firstn written t |}
                     (consume_fault w), Raise e)).
Proof.
  unfold open_write. destruct (next_fate w); eauto 8.
Qed.

Lemma next_fate_fails (w : World) :
  fails (next_fate w) = true ->
  exists f, io_faults w = f :: tl (io_faults w) /\ f = next_fate w.
Proof.
  unfold next_fate. destruct (io_faults w) as [|f r]; [discriminate|].
  intros _. exists f. split; reflexivity.
Qed.

Lemma left_behind_refl (filepath t : text) (d : gmap text FileData) :
  left_behind filepath t d d.
Proof. split; [reflexivity|]. left. reflexivity. Qed.

(** One more failed write, of the text or of its lossy form. *)
Lemma left_behind_cut (filepath t : text) (before after : gmap text FileData)
      (d : FileData) :
  cut_short t d ->
  left_behind filepath t before after ->
  left_behind filepath t before (<[filepath := d]> after).
Proof.
  intros Hcut [Hother _]. split.
  - intros other Hne. rewrite lookup_insert_ne by congruence.
    apply Hother. exact Hne.
  - right. exists d. split; [apply lookup_insert_eq|exact Hcut].
Qed.

Lemma left_behind_trans (filepath t : text) (a b c : gmap text FileData) :
  left_behind filepath t a b -> left_behind filepath t b c ->
  left_behind filepath t a c.
Proof.
  intros [H1 H2] [H3 H4]. split.
  - intros other Hne. rewrite (H3 other Hne). apply H1. exact Hne.
  - destruct H4 as [H4|H4]; [|right; exact H4].
    rewrite H4. exact H2.
Qed.

(** A completed write makes what failed writes left of the target
    irrelevant. *)
Lemma insert_left_behind (filepath t : text) (before after : gmap text FileData)
      (d : FileData) :
  left_behind filepath t before after ->
  <[filepath := d]> after = <[filepath := d]> before.
Proof.
  intros [Hother _]. apply map_eq. intros k.
  destruct (decide (k = filepath)) as [->|Hne].
  - rewrite !lookup_insert_eq. reflexivity.
  - rewrite !lookup_insert_ne by congruence. apply Hother. exact Hne.
Qed.

(** The loop over the encodings, whatever the fate of its blocks: either
    every block failed, one fate was used up per encoding and the disk
    is what failed writes leave; or the first block that completed has
    written the file with its encoding. *)
Lemma try_encodings_run (filepath t : text) (encs : list text) :
  forall w,
    (exists w' failed,
        try_encodings filepath t encs w = (w', Ok None)
        /\ io_faults w = failed ++ io_faults w'
        /\ length failed = length encs
        /\ forallb fails failed = true
        /\ left_behind filepath t (disk w) (disk w')
        /\ (Forall (eq open_raises) failed -> disk w' = disk w))
    \/ (exists w' k enc failed,
           try_encodings filepath t encs w = (w', Ok (Some enc))
           /\ nth_error encs k = Some enc
           /\ length failed = k
           /\ forallb fails failed = true
           /\ firstn k (io_faults w) = failed
           /\ fails (hd completes (skipn k (io_faults w))) = false
           /\ io_faults w' = skipn (S k) (io_faults w)
           /\ disk w'
              = <[filepath := {| file_encoding := enc;
                                 file_errors := errors_replace;
                                 file_text := t |}]> (disk w)).
Proof.
  induction encs as [|e rest IH]; intros w.
  - left. exists w, []. repeat split; try reflexivity.
    + apply left_behind_refl.
  - cbn [try_encodings]. unfold try_except, bind.
    destruct (open_write_cases filepath e errors_replace t w)
      as [[Hn ->]|[[Hn [x ->]]|(written & x & Hn & ->)]].
    + (* the block completes *)
      right. eexists _, 0%nat, e, []. split; [reflexivity|].
      cbn [nth_error length forallb firstn skipn].
      repeat split; try reflexivity.
      change (fails (next_fate w) = false). rewrite Hn. reflexivity.
    + (* [open] raises *)
      assert (fails (next_fate w) = true) as Hfail by (rewrite Hn; reflexivity).
      destruct (next_fate_fails w Hfail) as (f & Hf & Ef).
      rewrite Hn in Ef. subst f.
      destruct (IH (consume_fault w))
        as [(w' & failed & Hrun & H1 & H2 & H3 & H4 & H5)
           |(w' & k & enc & failed & Hrun & H1 & H2 & H3 & H4 & H5 & H6 & H7)];
        cbn [io_faults disk consume_fault] in *.
      * left. exists w', (open_raises :: failed). split; [exact Hrun|].
        split; [rewrite Hf; cbn [app]; rewrite <- H1; reflexivity|].
        split; [cbn [length]; rewrite H2; reflexivity|].
        split; [cbn [forallb fails]; exact H3|].
        split; [exact H4|].
        intros Hall. apply H5. inversion Hall; assumption.
      * right. exists w', (S k), enc, (open_raises :: failed).
        split; [exact Hrun|]. rewrite Hf.
        cbn [nth_error length forallb fails firstn skipn].
        split; [exact H1|]. split; [rewrite H2; reflexivity|].
        split; [exact H3|]. split; [rewrite H4; reflexivity|].
        split; [exact H5|]. split; [exact H6|exact H7].
    + (* the write raises *)
      assert (fails (next_fate w) = true) as Hfail by (rewrite Hn; reflexivity).
      destruct (next_fate_fails w Hfail) as (f & Hf & Ef).
      rewrite Hn in Ef. subst f.
      match goal with
      | |- context [try_encodings filepath t rest ?w0] =>
        destruct (IH w0)
          as [(w' & failed & Hrun & H1 & H2 & H3 & H4 & H5)
             |(w' & k & enc & failed & Hrun & H1 & H2 & H3 & H4 & H5 & H6 & H7)]
      end; cbn [io_faults disk consume_fault store] in *.
      * left. exists w', (write_raises written :: failed).
        split; [exact Hrun|].
        split; [rewrite Hf; cbn [app]; rewrite <- H1; reflexivity|].
        split; [cbn [length]; rewrite H2; reflexivity|].
        split; [cbn [forallb fails]; exact H3|].
        split.
        -- eapply left_behind_trans; [|exact H4].
           apply left_behind_cut; [|apply left_behind_refl].
           exists written. left. reflexivity.
        -- intros Hall. inversion Hall as [|? ? Hhead _]. discriminate Hhead.
      * right. exists w', (S k), enc, (write_raises written :: failed).
        split; [exact Hrun|]. rewrite Hf.
        cbn [nth_error length forallb fails firstn skipn].
        split; [exact H1|]. split; [rewrite H2; reflexivity|].
        split; [exact H3|]. split; [rewrite H4; reflexivity|].
        split; [exact H5|]. split; [exact H6|].
        rewrite H7. apply insert_insert_eq.
Qed.

Lemma encodings_first (rt : Runtime) :
  exists rest, encodings rt = py "utf-8" :: rest.
Proof. unfold encodings. destruct (os_name rt); eexists; reflexivity. Qed.

Lemma encodings_length (rt : Runtime) : length (encodings rt) = 3%nat.
Proof. unfold encodings. destruct (os_name rt); reflexivity. Qed.



(** With no fault to come the first encoding does. *)
Lemma safe_write_text_no_fault (rt : Runtime) (filepath t : text) (w : World) :
  io_faults w = [] ->
  exists w',
    safe_write_text rt filepath t w = (w', Ok (true, py "utf-8"))
    /\ disk w' = <[filepath := utf8_file t]> (disk w)
    /\ io_faults w' = []
    /\ is_converting w' = is_converting w
    /\ log_sink w' = log_sink w.
Proof.
  intros Hf. unfold safe_write_text.
  destruct (encodings_first rt) as [rest ->].
  cbn [try_encodings]. unfold bind, try_except, open_write, next_fate.
  rewrite Hf. eexists. split; [reflexivity|]. cbn. rewrite Hf. auto.
Qed.

Lemma ascii_or_question_ascii (t : text) :
  Forall (fun c => c < 128) (ascii_or_question t).
Proof.
  unfold ascii_or_question. apply List.Forall_forall. intros c Hin.
  apply in_map_iff in Hin as (x & <- & _).
  destruct (Z.ltb_spec x 128); [assumption|]. vm_compute. reflexivity.
Qed.


(** The file of the last resort holds what it was handed: every
    character of it is ASCII. *)
Lemma lossy_file_content (rt : Runtime) (t : text) :
  file_content rt (lossy_file t) = ascii_or_question t.
Proof.
  unfold file_content, lossy_file. cbn [file_errors file_encoding file_text].
  pose proof (ascii_or_question_ascii t) as H.
  induction H as [|c r Hc _ IH]; [reflexivity|].
  cbn [List.filter]. rewrite IH.
  assert (can_encode rt (py "ascii") c = true) as ->; [|reflexivity].
  unfold can_encode.
  assert (text_eqb (py "ascii") (py "utf-8") = false) as ->
      by (vm_compute; reflexivity).
  assert (text_eqb (py "ascii") (py "latin-1") = false) as ->
      by (vm_compute; reflexivity).
  assert (text_eqb (py "ascii") (py "ascii") = true) as ->
      by (vm_compute; reflexivity).
  apply Z.ltb_lt. exact Hc.
Qed.

(** The last resort, after the loop has fallen through. *)
Lemma last_resort_run (rt : Runtime) (filepath t : text) (w w1 : World) :
  try_encodings filepath t (encodings rt) w = (w1, Ok None) ->
  left_behind filepath t (disk w) (disk w1) ->
  exists w',
    safe_write_text rt filepath t w
    = (w', Ok (if fails (next_fate w1) then (false, FAILED)
               else (true, ASCII_LOSSY)))
    /\ io_faults w' = tl (io_faults w1)
    /\ is_converting w' = is_converting w1
    /\ log_sink w' = log_sink w1
    /\ (fails (next_fate w1) = false ->
        disk w' = <[filepath := lossy_file t]> (disk w))
    /\ (fails (next_fate w1) = true ->
        left_behind filepath t (disk w) (disk w'))
    /\ (next_fate w1 = open_raises -> disk w' = disk w1).
Proof.
  intros Hnone Hleft. unfold safe_write_text, bind. rewrite Hnone.
  unfold try_except.
  destruct (open_write_cases filepath (py "ascii") errors_ignore
              (ascii_or_question t) w1)
    as [[Hn ->]|[[Hn [x ->]]|(written & x & Hn & ->)]];
    rewrite Hn; cbn [fails]; eexists; (split; [reflexivity|]);
    cbn [io_faults is_converting log_sink disk store consume_fault];
    repeat (split; [reflexivity|]).
  - split; [|split; discriminate]. intros _.
    apply (insert_left_behind filepath t). exact Hleft.
  - split; [discriminate|]. split; [intros _; exact Hleft|reflexivity].
  - split; [discriminate|]. split; [|discriminate]. intros _.
    apply left_behind_cut; [|exact Hleft]. exists written. right. reflexivity.
Qed.




(** ** The extraction as a function of the path *)

Lemma only_logs_refl (w : World) : only_logs w w.
Proof.
  split; [reflexivity|]. split; [reflexivity|]. apply per_file_work_refl.
Qed.

Lemma only_logs_trans (w1 w2 w3 : World) :
  only_logs w1 w2 -> only_logs w2 w3 -> only_logs w1 w3.
Proof.
  intros (Hd1 & Hf1 & Hp1) (Hd2 & Hf2 & Hp2).
  split; [congruence|]. split; [congruence|].
  eapply per_file_work_trans; eassumption.
Qed.

Lemma only_logs_log (ev : event) (w : World) :
  is_summary_event ev = false -> only_logs w (fst (log ev w)).
Proof.
  intros Hev. split; [reflexivity|]. split; [reflexivity|].
  apply quiet_log. exact Hev.
Qed.

Lemma smart_step_run (rt : Runtime) (pdf_path : text) (b : Best)
      (m : text * Backend) (w : World) :
  exists w',
    smart_step rt pdf_path b m w = (w', Ok (select_step rt pdf_path b m))
    /\ only_logs w w'.
Proof.
  destruct m as [name f]. unfold smart_step, select_step, try_except, bind, lift.
  cbn [fst snd]. destruct (f pdf_path) as [t|e].
  - eexists. split; [reflexivity|]. apply only_logs_log. reflexivity.
  - eexists. split; [reflexivity|]. apply only_logs_log. reflexivity.
Qed.

Lemma smart_loop_run (rt : Runtime) (pdf_path : text)
      (methods : list (text * Backend)) :
  forall (b : Best) (w : World),
    exists w',
      smart_loop rt methods pdf_path b w
      = (w', Ok (fold_left (select_step rt pdf_path) methods b))
      /\ only_logs w w'.
Proof.
  induction methods as [|m rest IH]; intros b w.
  - exists w. split; [reflexivity|apply only_logs_refl].
  - cbn [smart_loop fold_left]. unfold bind.
    destruct (smart_step_run rt pdf_path b m w) as (w1 & -> & H1).
    destruct (IH (select_step rt pdf_path b m) w1) as (w2 & -> & H2).
    exists w2. split; [reflexivity|]. eapply only_logs_trans; eassumption.
Qed.

Lemma smart_select_run (rt : Runtime) (methods : list (text * Backend))
      (pdf_path : text) (w : World) :
  exists w',
    smart_select rt methods pdf_path w
    = (w', Ok (selection rt methods pdf_path))
    /\ only_logs w w'.
Proof.
  unfold smart_select, selection, bind.
  destruct (smart_loop_run rt pdf_path methods initial_best w)
    as (w1 & -> & H1).
  destruct (nonempty _).
  - eexists. split; [reflexivity|].
    eapply only_logs_trans; [exact H1|]. apply only_logs_log. reflexivity.
  - eexists. split; [reflexivity|]. exact H1.
Qed.

Lemma extract_text_from_pdf_run (rt : Runtime) (bk : Backends) (cfg : Config)
      (pdf_path : text) (w : World) :
  exists w',
    extract_text_from_pdf rt bk cfg pdf_path w
    = (w', extraction rt bk cfg pdf_path)
    /\ only_logs w w'.
Proof.
  unfold extract_text_from_pdf, extraction, pinned_backend, try_except,
    extract_text_smart_korean.
  destruct (smart_select_run rt (smart_methods bk) pdf_path w)
    as (w1 & Hsel & H1).
  destruct (extraction_method cfg); rewrite ?Hsel;
    try (exists w1; split; [reflexivity|exact H1]).
  - destruct (PDFMINER_AVAILABLE bk); rewrite ?Hsel;
      [|exists w1; split; [reflexivity|exact H1]].
    unfold lift, wrap_failure. destruct (extract_text_pdfminer bk pdf_path);
      exists w; (split; [reflexivity|apply only_logs_refl]).
  - destruct (PYMUPDF_AVAILABLE bk); rewrite ?Hsel;
      [|exists w1; split; [reflexivity|exact H1]].
    unfold lift, wrap_failure.
    destruct (extract_text_pymupdf_korean bk pdf_path);
      exists w; (split; [reflexivity|apply only_logs_refl]).
  - destruct (PDFPLUMBER_AVAILABLE bk); rewrite ?Hsel;
      [|exists w1; split; [reflexivity|exact H1]].
    unfold lift, wrap_failure. destruct (extract_text_pdfplumber bk pdf_path);
      exists w; (split; [reflexivity|apply only_logs_refl]).
  - destruct (PYPDF2_AVAILABLE bk); rewrite ?Hsel;
      [|exists w1; split; [reflexivity|exact H1]].
    unfold lift, wrap_failure. destruct (extract_text_pypdf2 bk pdf_path);
      exists w; (split; [reflexivity|apply only_logs_refl]).
Qed.

(** The smart selector never raises, and gives the empty text when no
    method returns. *)
Lemma selection_no_candidate (rt : Runtime) (methods : list (text * Backend))
      (pdf_path : text) :
  candidates methods pdf_path = [] -> selection rt methods pdf_path = [].
Proof.
  intros Hnone.
  destruct (smart_loop_best rt pdf_path methods initial_best []
              Posix.fresh_world (best_among_initial rt))
    as (w1 & b & Hrun & _ & _ & _ & _ & Hmem & _).
  destruct (smart_loop_run rt pdf_path methods initial_best Posix.fresh_world)
    as (w2 & Hrun2 & _).
  rewrite Hrun in Hrun2. injection Hrun2 as _ Hb.
  unfold selection. rewrite <- Hb. rewrite Hnone in Hmem.
  destruct Hmem as [Hmem|[]]. exact Hmem.
Qed.

Lemma extraction_smart (rt : Runtime) (bk : Backends) (cfg : Config)
      (pdf_path : text) :
  pinned_backend bk (extraction_method cfg) = None ->
  extraction rt bk cfg pdf_path
  = Ok (selection rt (smart_methods bk) pdf_path).
Proof. intros H. unfold extraction. rewrite H. reflexivity. Qed.

(** ** One file *)

Lemma yields_ret {A} (P : A -> Prop) (a : A) : P a -> yields P (ret a).
Proof. intros Ha w w' a' H. injection H as _ <-. exact Ha. Qed.

Lemma yields_bind {A B} (P : B -> Prop) (m : M A) (k : A -> M B) :
  (forall a, yields P (k a)) -> yields P (bind m k).
Proof.
  intros Hk w w' b H. unfold bind in H.
  destruct (m w) as [w1 [a|e]]; [|discriminate H]. eapply Hk. exact H.
Qed.

Lemma yields_try {A} (P : A -> Prop) (m : M A) (h : exn -> M A) :
  yields P m -> (forall e, yields P (h e)) -> yields P (try_except m h).
Proof.
  intros Hm Hh w w' a H. unfold try_except in H.
  destruct (m w) as [w1 [a1|e]] eqn:E.
  - injection H as <- <-. eapply Hm. exact E.
  - eapply Hh. exact H.
Qed.

Lemma extract_text_from_pdf_quiet (rt : Runtime) (bk : Backends)
      (cfg : Config) (pdf_path : text) :
  quiet (extract_text_from_pdf rt bk cfg pdf_path).
Proof.
  intros w. destruct (extract_text_from_pdf_run rt bk cfg pdf_path w)
    as (w' & -> & _ & _ & H). exact H.
Qed.

Lemma convert_one_quiet (rt : Runtime) (bk : Backends) (cfg : Config)
      (pdf_path : text) (c : Counters) :
  quiet (convert_one rt bk cfg pdf_path c).
Proof.
  unfold convert_one.
  apply quiet_bind; [apply quiet_log; reflexivity|intros _].
  apply quiet_try.
  - apply quiet_bind; [apply extract_text_from_pdf_quiet|intros t].
    destruct (nonempty (strip t)).
    + apply quiet_bind; [apply safe_write_text_quiet|intros [success encoding]].
      destruct success.
      * apply quiet_bind;
          [destruct (0 <? _)%nat; apply quiet_log; reflexivity|intros _].
        apply quiet_bind; [apply quiet_log; reflexivity|intros _].
        apply quiet_ret.
      * apply quiet_bind; [apply quiet_log; reflexivity|intros _].
        apply quiet_ret.
    + apply quiet_bind; [apply safe_write_text_quiet|intros _].
      apply quiet_bind; [apply quiet_log; reflexivity|intros _].
      apply quiet_ret.
  - intros e.
    apply quiet_bind; [apply quiet_log; reflexivity|intros _].
    apply quiet_bind; [apply safe_write_text_quiet|intros _].
    apply quiet_ret.
Qed.

Lemma convert_one_returns (rt : Runtime) (bk : Backends) (cfg : Config)
      (pdf_path : text) (c : Counters) :
  returns (convert_one rt bk cfg pdf_path c).
Proof.
  unfold convert_one.
  apply returns_bind; [apply returns_log|intros _].
  apply returns_try. intros e.
  apply returns_bind; [apply returns_log|intros _].
  apply returns_bind; [apply safe_write_text_returns|intros _].
  apply returns_ret.
Qed.

(** Every file goes to exactly one counter. *)
Lemma convert_one_counts (rt : Runtime) (bk : Backends) (cfg : Config)
      (pdf_path : text) (c : Counters) :
  yields (fun c' => files_counted c' = S (files_counted c))
         (convert_one rt bk cfg pdf_path c).
Proof.
  unfold convert_one.
  apply yields_bind; intros _.
  apply yields_try.
  - apply yields_bind; intros t.
    destruct (nonempty (strip t)).
    + apply yields_bind; intros [success encoding].
      destruct success.
      * apply yields_bind; intros _. apply yields_bind; intros _.
        apply yields_ret. unfold files_counted. cbn. lia.
      * apply yields_bind; intros _.
        apply yields_ret. unfold files_counted. cbn. lia.
    + apply yields_bind; intros _. apply yields_bind; intros _.
      apply yields_ret. unfold files_counted. cbn. lia.
  - intros e. apply yields_bind; intros _. apply yields_bind; intros _.
    apply yields_ret. unfold files_counted. cbn. lia.
Qed.

(** The three outcomes of a file, on a disk that takes every write. *)
Lemma convert_one_text (rt : Runtime) (bk : Backends) (cfg : Config)
      (pdf_path t : text) (c : Counters) (w : World) :
  extraction rt bk cfg pdf_path = Ok t ->
  nonempty (strip t) = true ->
  io_faults w = [] ->
  exists w',
    convert_one rt bk cfg pdf_path c w
    = (w', Ok {| success_count := S (success_count c);
                 empty_count := empty_count c;
                 error_count := error_count c;
                 korean_recovered :=
                   if (0 <? findall_class is_hangul t)%nat
                   then S (korean_recovered c) else korean_recovered c |})
    /\ disk w' = <[text_path rt cfg pdf_path := utf8_file t]> (disk w)
    /\ io_faults w' = []
    /\ per_file_work w w'.
Proof.
  intros Hext Hne Hf.
  pose proof (convert_one_quiet rt bk cfg pdf_path c w) as Hq.
  cut (exists w',
    convert_one rt bk cfg pdf_path c w
    = (w', Ok {| success_count := S (success_count c);
                 empty_count := empty_count c;
                 error_count := error_count c;
                 korean_recovered :=
                   if (0 <? findall_class is_hangul t)%nat
                   then S (korean_recovered c) else korean_recovered c |})
    /\ disk w' = <[text_path rt cfg pdf_path := utf8_file t]> (disk w)
    /\ io_faults w' = []).
  { intros (w' & Hrun & Hd & Hf'). exists w'. rewrite Hrun in Hq. auto. }
  clear Hq. unfold convert_one. unfold bind at 1. unfold log at 1.
  cbv beta iota zeta. unfold try_except. unfold bind at 1.
  match goal with
  | |- context [extract_text_from_pdf rt bk cfg pdf_path ?w0] =>
    destruct (extract_text_from_pdf_run rt bk cfg pdf_path w0)
      as (w1 & Hrun & Hd1 & Hf1 & _)
  end.
  rewrite Hrun, Hext, Hne.
  cbn [disk io_faults fst log] in Hd1, Hf1. rewrite Hf in Hf1.
  destruct (safe_write_text_no_fault rt
              (os_path_join rt (output_path cfg)
                 (path_stem rt (os_path_basename rt pdf_path) ++ py ".txt"))
              t w1 Hf1) as (w2 & Hsw & Hd2 & Hf2 & _).
  unfold bind at 1. rewrite Hsw.
  destruct (0 <? findall_class is_hangul t)%nat;
    (eexists; split; [reflexivity|]);
    (split; [cbn [disk]; rewrite Hd2, Hd1; reflexivity|cbn [io_faults]; exact Hf2]).
Qed.

Lemma convert_one_blank (rt : Runtime) (bk : Backends) (cfg : Config)
      (pdf_path t : text) (c : Counters) (w : World) :
  extraction rt bk cfg pdf_path = Ok t ->
  strip t = [] ->
  io_faults w = [] ->
  exists w',
    convert_one rt bk cfg pdf_path c w
    = (w', Ok {| success_count := success_count c;
                 empty_count := S (empty_count c);
                 error_count := error_count c;
                 korean_recovered := korean_recovered c |})
    /\ disk w'
       = <[text_path rt cfg pdf_path
           := utf8_file (empty_message_for (os_path_basename rt pdf_path))]>
           (disk w)
    /\ io_faults w' = []
    /\ per_file_work w w'.
Proof.
  intros Hext Hblank Hf.
  pose proof (convert_one_quiet rt bk cfg pdf_path c w) as Hq.
  cut (exists w',
    convert_one rt bk cfg pdf_path c w
    = (w', Ok {| success_count := success_count c;
                 empty_count := S (empty_count c);
                 error_count := error_count c;
                 korean_recovered := korean_recovered c |})
    /\ disk w'
       = <[text_path rt cfg pdf_path
           := utf8_file (empty_message_for (os_path_basename rt pdf_path))]>
           (disk w)
    /\ io_faults w' = []).
  { intros (w' & Hrun & Hd & Hf'). exists w'. rewrite Hrun in Hq. auto. }
  clear Hq. unfold convert_one. unfold bind at 1. unfold log at 1.
  cbv beta iota zeta. unfold try_except. unfold bind at 1.
  match goal with
  | |- context [extract_text_from_pdf rt bk cfg pdf_path ?w0] =>
    destruct (extract_text_from_pdf_run rt bk cfg pdf_path w0)
      as (w1 & Hrun & Hd1 & Hf1 & _)
  end.
  rewrite Hrun, Hext, Hblank.
  cbn [nonempty].
  cbn [disk io_faults fst log] in Hd1, Hf1. rewrite Hf in Hf1.
  destruct (safe_write_text_no_fault rt
              (os_path_join rt (output_path cfg)
                 (path_stem rt (os_path_basename rt pdf_path) ++ py ".txt"))
              (empty_message_for (os_path_basename rt pdf_path)) w1 Hf1)
    as (w2 & Hsw & Hd2 & Hf2 & _).
  unfold bind at 1. rewrite Hsw.
  eexists; split; [reflexivity|].
  split; [cbn [disk]; rewrite Hd2, Hd1; reflexivity|cbn [io_faults]; exact Hf2].
Qed.

Lemma convert_one_failure (rt : Runtime) (bk : Backends) (cfg : Config)
      (pdf_path : text) (e : exn) (c : Counters) (w : World) :
  extraction rt bk cfg pdf_path = Raise e ->
  io_faults w = [] ->
  exists w',
    convert_one rt bk cfg pdf_path c w
    = (w', Ok {| success_count := success_count c;
                 empty_count := empty_count c;
                 error_count := S (error_count c);
                 korean_recovered := korean_recovered c |})
    /\ disk w'
       = <[error_path rt cfg pdf_path
           := utf8_file (error_message_for (os_name rt)
                           (os_path_basename rt pdf_path) e)]>
           (disk w)
    /\ io_faults w' = []
    /\ per_file_work w w'.
Proof.
  intros Hext Hf.
  pose proof (convert_one_quiet rt bk cfg pdf_path c w) as Hq.
  cut (exists w',
    convert_one rt bk cfg pdf_path c w
    = (w', Ok {| success_count := success_count c;
                 empty_count := empty_count c;
                 error_count := S (error_count c);
                 korean_recovered := korean_recovered c |})
    /\ disk w'
       = <[error_path rt cfg pdf_path
           := utf8_file (error_message_for (os_name rt)
                           (os_path_basename rt pdf_path) e)]>
           (disk w)
    /\ io_faults w' = []).
  { intros (w' & Hrun & Hd & Hf'). exists w'. rewrite Hrun in Hq. auto. }
  clear Hq. unfold convert_one. unfold bind at 1. unfold log at 1.
  cbv beta iota zeta. unfold try_except. unfold bind at 1.
  match goal with
  | |- context [extract_text_from_pdf rt bk cfg pdf_path ?w0] =>
    destruct (extract_text_from_pdf_run rt bk cfg pdf_path w0)
      as (w1 & Hrun & Hd1 & Hf1 & _)
  end.
  rewrite Hrun, Hext.
  cbn [disk io_faults fst log] in Hd1, Hf1. rewrite Hf in Hf1.
  cbv beta. unfold bind at 1. unfold log at 1. cbv beta iota.
  unfold bind at 1.
  match goal with
  | |- context [safe_write_text rt ?p ?m ?w0] =>
    destruct (safe_write_text_no_fault rt p m w0 Hf1)
      as (w2 & Hsw & Hd2 & Hf2 & _)
  end.
  rewrite Hsw.
  eexists; split; [reflexivity|].
  split; [cbn [disk]; rewrite Hd2; cbn [disk]; rewrite Hd1; reflexivity|cbn [io_faults]; exact Hf2].
Qed.

(** ** The loop over the files *)

Lemma convert_loop_next (rt : Runtime) (bk : Backends) (cfg : Config)
      (ui : nat -> bool) (i : nat) (p : text) (rest : list text)
      (c : Counters) (w : World) :
  ui i = false -> is_converting w = true ->
  convert_loop rt bk cfg ui i (p :: rest) c w
  = bind (convert_one rt bk cfg p c)
         (fun c' => convert_loop rt bk cfg ui (S i) rest c') w.
Proof.
  intros Hui Hflag. cbn [convert_loop].
  unfold ui_step. rewrite Hui. unfold bind at 1. unfold ret at 1.
  unfold bind at 1. unfold get_is_converting. rewrite Hflag. reflexivity.
Qed.

Lemma convert_loop_end (rt : Runtime) (bk : Backends) (cfg : Config)
      (ui : nat -> bool) (i : nat) (c : Counters) (w : World) :
  ui i = false -> convert_loop rt bk cfg ui i [] c w = (w, Ok c).
Proof.
  intros Hui. cbn [convert_loop]. unfold ui_step. rewrite Hui. reflexivity.
Qed.

Lemma convert_loop_stop (rt : Runtime) (bk : Backends) (cfg : Config)
      (ui : nat -> bool) (i : nat) (files : list text) (c : Counters)
      (w : World) :
  ui i = true ->
  convert_loop rt bk cfg ui i files c w = (fst (stop_conversion w), Ok c).
Proof.
  intros Hui. destruct files as [|p rest]; cbn [convert_loop];
    unfold ui_step; rewrite Hui; reflexivity.
Qed.

(** The uncancelled loop returns, does per-file work only, and counts
    every file once. *)
Lemma convert_loop_never (rt : Runtime) (bk : Backends) (cfg : Config)
      (files : list text) :
  forall (i : nat) (c : Counters) (w : World),
    is_converting w = true ->
    exists w1 c1,
      convert_loop rt bk cfg (fun _ => false) i files c w = (w1, Ok c1)
      /\ per_file_work w w1
      /\ files_counted c1 = (files_counted c + length files)%nat.
Proof.
  induction files as [|p rest IH]; intros i c w Hflag.
  - exists w, c. rewrite convert_loop_end by reflexivity.
    split; [reflexivity|]. split; [apply per_file_work_refl|].
    rewrite length_nil. unfold files_counted. lia.
  - rewrite convert_loop_next by auto. unfold bind.
    destruct (convert_one_returns rt bk cfg p c w) as (w1 & c1 & Hone).
    pose proof (convert_one_quiet rt bk cfg p c w) as Hq.
    pose proof (convert_one_counts rt bk cfg p c w w1 c1 Hone) as Hcount.
    rewrite Hone in Hq |- *. cbn [fst] in Hq.
    destruct (IH (S i) c1 w1) as (w2 & c2 & Hrest & Hq2 & Hcount2).
    { destruct Hq as [-> _]. exact Hflag. }
    exists w2, c2. split; [exact Hrest|].
    split; [eapply per_file_work_trans; eassumption|].
    rewrite length_cons. unfold files_counted in *. lia.
Qed.

(** Pressing the stop button between the [k]-th file and the next
    leaves the loop where the loop over the first [k] files ends. *)
Lemma convert_loop_cancelled (rt : Runtime) (bk : Backends) (cfg : Config)
      (ui : nat -> bool) (files : list text) :
  forall (k i : nat) (c : Counters) (w : World),
    (k <= length files)%nat ->
    (forall j, (j < k)%nat -> ui (i + j)%nat = false) ->
    ui (i + k)%nat = true ->
    is_converting w = true ->
    exists w1 c1,
      convert_loop rt bk cfg (fun _ => false) i (firstn k files) c w
      = (w1, Ok c1)
      /\ convert_loop rt bk cfg ui i files c w
         = (fst (stop_conversion w1), Ok c1).
Proof.
  induction files as [|p rest IH]; intros k i c w Hk Hgo Hstop Hflag.
  - assert (k = 0)%nat as -> by (rewrite length_nil in Hk; lia).
    rewrite Nat.add_0_r in Hstop.
    exists w, c. split; [reflexivity|]. apply convert_loop_stop. exact Hstop.
  - destruct k as [|k].
    + rewrite Nat.add_0_r in Hstop. exists w, c.
      split; [reflexivity|]. apply convert_loop_stop. exact Hstop.
    + cbn [firstn].
      assert (ui i = false) as Hi.
      { specialize (Hgo 0%nat ltac:(lia)). rewrite Nat.add_0_r in Hgo. exact Hgo. }
      rewrite !convert_loop_next by auto. unfold bind.
      destruct (convert_one_returns rt bk cfg p c w) as (w1 & c1 & Hone).
      pose proof (convert_one_quiet rt bk cfg p c w) as Hq.
      rewrite Hone in Hq |- *. cbn [fst] in Hq.
      apply (IH k (S i) c1 w1).
      * rewrite length_cons in Hk. lia.
      * intros j Hj. specialize (Hgo (S j) ltac:(lia)).
        replace (S i + j)%nat with (i + S j)%nat by lia. exact Hgo.
      * replace (S i + k)%nat with (i + S k)%nat by lia. exact Hstop.
      * destruct Hq as [-> _]. exact Hflag.
Qed.

Lemma batch_begun_spec (rt : Runtime) (cfg : Config) (w : World) :
  disk (batch_begun rt cfg w) = disk w
  /\ io_faults (batch_begun rt cfg w) = io_faults w
  /\ is_converting (batch_begun rt cfg w) = is_converting w
  /\ per_file_work w (batch_begun rt cfg w).
Proof.
  repeat (split; [reflexivity|]).
  eexists. unfold batch_begun, log. cbn [fst log_sink].
  rewrite <- app_assoc. split; reflexivity.
Qed.

(** [convert_files] around a loop that was not cancelled: the summary is
    reported. *)
Lemma convert_files_completed (rt : Runtime) (bk : Backends) (cfg : Config)
      (ui : nat -> bool) (w w1 : World) (c : Counters) :
  convert_loop rt bk cfg ui 0 (pdf_files cfg) zero_counters
               (batch_begun rt cfg w) = (w1, Ok c) ->
  is_converting w1 = true ->
  exists w',
    convert_files rt bk cfg ui w = (w', Ok c)
    /\ disk w' = disk w1
    /\ In (ShowInfo (success_count c) (korean_recovered c) (empty_count c)
                    (error_count c)) (log_sink w').
Proof.
  intros Hloop Hflag. unfold convert_files.
  unfold bind at 1. unfold log at 1. cbv beta iota.
  unfold bind at 1. unfold log at 1. cbv beta iota.
  unfold bind at 1. unfold batch_begun, log in Hloop. cbn [fst] in Hloop.
  rewrite Hloop.
  unfold bind at 1. unfold report_summary. unfold bind at 1.
  unfold get_is_converting. rewrite Hflag.
  eexists. split; [reflexivity|]. split; [reflexivity|].
  cbn [log_sink]. rewrite !in_app_iff. right. left. reflexivity.
Qed.

(** [convert_files] around a loop the stop button ended: no summary. *)
Lemma convert_files_stopped (rt : Runtime) (bk : Backends) (cfg : Config)
      (ui : nat -> bool) (w w1 : World) (c : Counters) :
  convert_loop rt bk cfg ui 0 (pdf_files cfg) zero_counters
               (batch_begun rt cfg w) = (fst (stop_conversion w1), Ok c) ->
  exists w',
    convert_files rt bk cfg ui w = (w', Ok c)
    /\ disk w' = disk w1
    /\ log_sink w' = log_sink w1 ++ [LogStopped]
    /\ is_converting w' = false.
Proof.
  intros Hloop. unfold convert_files.
  unfold bind at 1. unfold log at 1. cbv beta iota.
  unfold bind at 1. unfold log at 1. cbv beta iota.
  unfold bind at 1. unfold batch_begun, log in Hloop. cbn [fst] in Hloop.
  rewrite Hloop.
  eexists. split; [reflexivity|]. cbn [disk log_sink is_converting]. auto.
Qed.

(** ** Batches *)

(** A good file and a blank file at the head of the list. *)
Lemma convert_loop_text_blank (rt : Runtime) (bk : Backends) (cfg : Config)
      (A B ta tb : text) (rest : list text) (w : World) :
  io_faults w = [] -> is_converting w = true ->
  extraction rt bk cfg A = Ok ta -> nonempty (strip ta) = true ->
  extraction rt bk cfg B = Ok tb -> strip tb = [] ->
  exists w2,
    convert_loop rt bk cfg (fun _ => false) 0 (A :: B :: rest) zero_counters w
    = convert_loop rt bk cfg (fun _ => false) 2 rest
        {| success_count := 1; empty_count := 1; error_count := 0;
           korean_recovered :=
             if (0 <? findall_class is_hangul ta)%nat then 1 else 0 |} w2
    /\ disk w2
       = <[text_path rt cfg B
           := utf8_file (empty_message_for (os_path_basename rt B))]>
           (<[text_path rt cfg A := utf8_file ta]> (disk w))
    /\ io_faults w2 = [] /\ is_converting w2 = true.
Proof.
  intros Hf Hflag HA HneA HB HblankB.
  rewrite convert_loop_next by auto. unfold bind at 1.
  destruct (convert_one_text rt bk cfg A ta zero_counters w HA HneA Hf)
    as (w1 & -> & Hd1 & Hf1 & Hc1 & _).
  rewrite Hflag in Hc1.
  rewrite convert_loop_next by auto. unfold bind at 1.
  match goal with
  | |- context [convert_one rt bk cfg B ?c1 w1] =>
    destruct (convert_one_blank rt bk cfg B tb c1 w1 HB HblankB Hf1)
      as (w2 & -> & Hd2 & Hf2 & Hc2 & _)
  end.
  exists w2. cbn [success_count empty_count error_count korean_recovered
                   zero_counters].
  split.
  - destruct (0 <? findall_class is_hangul ta)%nat; reflexivity.
  - rewrite Hd2, Hd1. split; [reflexivity|]. split; [exact Hf2|congruence].
Qed.

(** C4, refuted as stated: under the smart selector, which the program
    starts with, the file no backend can read is counted as empty. *)
Lemma smart_batch_counts_unreadable_as_empty :
  ~ one_of_each Posix.runtime Sample.backends (Sample.config smart_korean)
      Sample.file_a Sample.file_b Sample.file_c Posix.fresh_world.
Proof.
  intros (w' & c & Hrun & _ & Hempty & _).
  vm_compute in Hrun. injection Hrun as _ <-. discriminate Hempty.
Qed.

(** C4, amended.  Take a batch of three files on a disk that accepts
    every write, with no cancellation, where the extraction gives a text
    that is not blank for [A] and a blank text for [B].
    - If the method is pinned to an available backend and that backend
      raises on [C], the batch writes the text of [A], the "no text"
      notice of [B] and the error notice of [C] under the [_오류] name,
      and reports success=1, empty=1, error=1.
    - If the smart selector is in use and every backend raises on [C],
      the selector returns the empty text: [C] gets a "no text" notice
      under its text name, no [_오류] file, and the batch reports
      success=1, empty=2, error=0. *)
Theorem batch_of_three (rt : Runtime) (bk : Backends) (cfg : Config)
        (A B C ta tb : text) (w : World) :
  pdf_files cfg = [A; B; C] ->
  io_faults w = [] -> is_converting w = true ->
  extraction rt bk cfg A = Ok ta -> nonempty (strip ta) = true ->
  extraction rt bk cfg B = Ok tb -> strip tb = [] ->
  let k := if (0 <? findall_class is_hangul ta)%nat then 1%nat else 0%nat in
  let two_written :=
    <[text_path rt cfg B
      := utf8_file (empty_message_for (os_path_basename rt B))]>
      (<[text_path rt cfg A := utf8_file ta]> (disk w)) in
  (forall method_func e,
      pinned_backend bk (extraction_method cfg) = Some method_func ->
      method_func C = Raise e ->
      exists w',
        convert_files rt bk cfg (fun _ => false) w
        = (w', Ok {| success_count := 1; empty_count := 1; error_count := 1;
                     korean_recovered := k |})
        /\ disk w'
           = <[error_path rt cfg C
               := utf8_file (error_message_for (os_name rt)
                               (os_path_basename rt C)
                               (py "텍스트 추출 실패: " ++ e))]> two_written
        /\ In (ShowInfo 1 k 1 1) (log_sink w'))
  /\ (pinned_backend bk (extraction_method cfg) = None ->
      candidates (smart_methods bk) C = [] ->
      exists w',
        convert_files rt bk cfg (fun _ => false) w
        = (w', Ok {| success_count := 1; empty_count := 2; error_count := 0;
                     korean_recovered := k |})
        /\ disk w'
           = <[text_path rt cfg C
               := utf8_file (empty_message_for (os_path_basename rt C))]>
               two_written
        /\ In (ShowInfo 1 k 2 0) (log_sink w')).
Proof.
  intros Hfiles Hf Hflag HA HneA HB HblankB k two_written.
  destruct (batch_begun_spec rt cfg w) as (Hd0 & Hf0 & Hc0 & _).
  rewrite Hf in Hf0. rewrite Hflag in Hc0.
  destruct (convert_loop_text_blank rt bk cfg A B ta tb [C]
              (batch_begun rt cfg w) Hf0 Hc0 HA HneA HB HblankB)
    as (w2 & Hloop & Hd2 & Hf2 & Hc2).
  rewrite Hd0 in Hd2. fold two_written in Hd2. fold k in Hloop.
  split.
  - intros f e Hpin Hraise.
    assert (extraction rt bk cfg C = Raise (py "텍스트 추출 실패: " ++ e)) as HC.
    { unfold extraction. rewrite Hpin, Hraise. reflexivity. }
    match type of Hloop with
    | _ = convert_loop _ _ _ _ _ _ ?c2 _ =>
      destruct (convert_one_failure rt bk cfg C _ c2 w2 HC Hf2)
        as (w3 & Hone & Hd3 & Hf3 & Hc3 & _)
    end.
    rewrite (convert_loop_next rt bk cfg (fun _ => false) 2 C []) in Hloop
      by auto.
    unfold bind at 1 in Hloop.
    rewrite Hone in Hloop. rewrite convert_loop_end in Hloop by reflexivity.
    rewrite <- Hfiles in Hloop.
    destruct (convert_files_completed rt bk cfg _ w w3 _ Hloop)
      as (w' & Hrun & Hd' & Hin); [congruence|].
    exists w'. split; [exact Hrun|]. split; [|exact Hin].
    rewrite Hd', Hd3, Hd2. reflexivity.
  - intros Hsmart Hnone.
    assert (extraction rt bk cfg C = Ok []) as HC.
    { rewrite extraction_smart by exact Hsmart.
      rewrite selection_no_candidate by exact Hnone. reflexivity. }
    match type of Hloop with
    | _ = convert_loop _ _ _ _ _ _ ?c2 _ =>
      destruct (convert_one_blank rt bk cfg C [] c2 w2 HC eq_refl Hf2)
        as (w3 & Hone & Hd3 & Hf3 & Hc3 & _)
    end.
    rewrite (convert_loop_next rt bk cfg (fun _ => false) 2 C []) in Hloop
      by auto.
    unfold bind at 1 in Hloop.
    rewrite Hone in Hloop. rewrite convert_loop_end in Hloop by reflexivity.
    rewrite <- Hfiles in Hloop.
    destruct (convert_files_completed rt bk cfg _ w w3 _ Hloop)
      as (w' & Hrun & Hd' & Hin); [congruence|].
    exists w'. split; [exact Hrun|]. split; [|exact Hin].
    rewrite Hd', Hd3, Hd2. reflexivity.
Qed.

(** C4 amended, run with the method pinned to pdfminer. *)
Lemma batch_of_three_witness :
  exists w',
    convert_files Posix.runtime Sample.backends (Sample.config pdfminer)
      Sample.never Posix.fresh_world
    = (w', Ok {| success_count := 1; empty_count := 1; error_count := 1;
                 korean_recovered := 1 |})
    /\ is_Some (disk w' !! py "/out/c_오류.txt")
    /\ In (ShowInfo 1 1 1 1) (log_sink w').
Proof.
  destruct (proj1 (batch_of_three Posix.runtime Sample.backends
                     (Sample.config pdfminer)
                     Sample.file_a Sample.file_b Sample.file_c
                     Sample.text_a Sample.text_b Posix.fresh_world
                     eq_refl eq_refl eq_refl eq_refl eq_refl eq_refl eq_refl)
                  Sample.adapter (py "cannot read") eq_refl eq_refl)
    as (w' & Hrun & Hdisk & Hlog).
  exists w'. split; [exact Hrun|]. split; [|exact Hlog].
  rewrite Hdisk. exists (utf8_file
    (error_message_for Linux (py "c.pdf")
       (py "텍스트 추출 실패: " ++ py "cannot read"))).
  apply lookup_insert_eq.
Defined.

(** ** Cancellation *)

Lemma per_file_work_no_summary (w w' : World) :
  per_file_work w w' -> reports_summary w' -> reports_summary w.
Proof.
  intros (_ & evs & Hlog & Hquiet) (ev & Hin & Hsum).
  rewrite Hlog in Hin. apply in_app_or in Hin as [Hin|Hin].
  - exists ev. auto.
  - rewrite forallb_forall in Hquiet. apply Hquiet in Hin.
    rewrite Hsum in Hin. discriminate Hin.
Qed.

(** C8, refuted as stated: the batch cancelled after its first file
    leaves one artifact, and no summary: the summary is behind
    [if self.is_converting:], and the flag is down. *)
Lemma cancelled_batch_reports_no_summary :
  ~ partial_summary Posix.runtime Sample.backends
      (Sample.config smart_korean) Sample.during_first Posix.fresh_world.
Proof.
  intros (w' & c & Hrun & _ & ev & Hin & Hsum).
  vm_compute in Hrun. injection Hrun as <- _.
  cbn [log_sink] in Hin.
  repeat (destruct Hin as [<-|Hin]; [discriminate Hsum|]).
  exact Hin.
Qed.

(** C8, amended.  When the stop button is pressed after [k] files (and
    not before), the batch ends where the loop over these [k] files
    ends: their outputs are on the disk as an uncancelled run leaves
    them, no further file is processed, the counters account for [k]
    files, and the log gains the stop message but no line of the
    summary, which is reported only while the flag is up. *)
Theorem cancelled_batch_keeps_outputs (rt : Runtime) (bk : Backends)
        (cfg : Config) (ui : nat -> bool) (k : nat) (w : World) :
  is_converting w = true ->
  (k <= length (pdf_files cfg))%nat ->
  (forall j, (j < k)%nat -> ui j = false) ->
  ui k = true ->
  exists w1 c1 w',
    convert_loop rt bk cfg (fun _ => false) 0 (firstn k (pdf_files cfg))
                 zero_counters (batch_begun rt cfg w) = (w1, Ok c1)
    /\ convert_files rt bk cfg ui w = (w', Ok c1)
    /\ disk w' = disk w1
    /\ log_sink w' = log_sink w1 ++ [LogStopped]
    /\ is_converting w' = false
    /\ files_counted c1 = k
    /\ (reports_summary w' -> reports_summary w).
Proof.
  intros Hflag Hk Hgo Hstop.
  destruct (batch_begun_spec rt cfg w) as (_ & _ & Hc0 & Hq0).
  rewrite Hflag in Hc0.
  destruct (convert_loop_cancelled rt bk cfg ui (pdf_files cfg) k 0
              zero_counters (batch_begun rt cfg w) Hk Hgo Hstop Hc0)
    as (w1 & c1 & Hprefix & Hloop).
  destruct (convert_loop_never rt bk cfg (firstn k (pdf_files cfg)) 0
              zero_counters (batch_begun rt cfg w) Hc0)
    as (w1' & c1' & Hprefix' & Hq1 & Hcount).
  rewrite Hprefix in Hprefix'. injection Hprefix' as <- <-.
  destruct (convert_files_stopped rt bk cfg ui w w1 c1 Hloop)
    as (w' & Hrun & Hd & Hlog & Hdown).
  exists w1, c1, w'. repeat (split; [assumption|]). split.
  - rewrite Hcount, length_firstn. unfold files_counted, zero_counters.
    cbn [success_count empty_count error_count]. lia.
  - intros (ev & Hin & Hsum). rewrite Hlog in Hin.
    apply in_app_or in Hin as [Hin|[<-|[]]]; [|discriminate Hsum].
    eapply per_file_work_no_summary;
      [eapply per_file_work_trans; eassumption|].
    exists ev. auto.
Qed.

(** C8 amended, run on the batch of three with the stop button pressed
    during the first file. *)
Lemma cancelled_batch_keeps_outputs_witness :
  exists w1 c1 w',
    convert_loop Posix.runtime Sample.backends (Sample.config smart_korean)
      (fun _ => false) 0 [Sample.file_a] zero_counters
      (batch_begun Posix.runtime (Sample.config smart_korean)
                   Posix.fresh_world) = (w1, Ok c1)
    /\ convert_files Posix.runtime Sample.backends
         (Sample.config smart_korean) Sample.during_first Posix.fresh_world
       = (w', Ok c1)
    /\ disk w' = disk w1
    /\ log_sink w' = log_sink w1 ++ [LogStopped]
    /\ is_converting w' = false
    /\ files_counted c1 = 1%nat
    /\ (reports_summary w' -> reports_summary Posix.fresh_world).
Proof.
  apply (cancelled_batch_keeps_outputs Posix.runtime Sample.backends
           (Sample.config smart_korean) Sample.during_first 1
           Posix.fresh_world).
  - reflexivity.
  - vm_compute. lia.
  - intros j Hj. assert (j = 0)%nat as -> by lia. reflexivity.
  - reflexivity.
Defined.

(* --------------------------------------------------------------------- *)
(** ** More on the scorer *)

Lemma lstrip_hangul_words (t : text) :
  findall_hangul_words 0 (lstrip t) = findall_hangul_words 0 t.
Proof.
  induction t as [|c r IH]; [reflexivity|]. cbn [lstrip].
  destruct (isspace c) eqn:Hs; [|reflexivity].
  cbn [findall_hangul_words].
  destruct (is_hangul c) eqn:Hh.
  - apply hangul_not_space in Hh. congruence.
  - rewrite IH. reflexivity.
Qed.

Lemma rstrip_hangul_words (t : text) :
  forall run, findall_hangul_words run (rstrip t) = findall_hangul_words run t.
Proof.
  induction t as [|c r IH]; intros run; [reflexivity|].
  cbn [rstrip]. destruct (rstrip r) as [|c' r'] eqn:E.
  - destruct (isspace c) eqn:Hs.
    + cbn [findall_hangul_words].
      destruct (is_hangul c) eqn:Hh;
        [apply hangul_not_space in Hh; congruence|].
      rewrite <- IH. cbn [findall_hangul_words].
      destruct (2 <=? run)%nat; reflexivity.
    + cbn [findall_hangul_words]. rewrite <- !IH. reflexivity.
  - remember (c' :: r') as x. cbn [findall_hangul_words].
    rewrite !IH. reflexivity.
Qed.

Lemma strip_hangul_words (t : text) :
  findall_hangul_words 0 (strip t) = findall_hangul_words 0 t.
Proof.
  unfold strip. rewrite rstrip_hangul_words. apply lstrip_hangul_words.
Qed.

Lemma float_score_strip (rt : Runtime) (t : text) :
  float_score rt (strip t) = float_score rt t.
Proof.
  unfold float_score, float_korean_ratio, float_complete_term,
    float_word_density, float_broken_ratio, spec_length.
  rewrite strip_strip.
  destruct (findall_hangul_words_spec t) as [<- _].
  destruct (findall_hangul_words_spec (strip t)) as [<- _].
  rewrite strip_hangul_words.
  rewrite !spec_noise_findall.
  unfold spec_syllables, spec_lone_jamo.
  rewrite <- !findall_class_filter.
  rewrite (findall_class_strip is_hangul hangul_not_space).
  rewrite (findall_class_strip is_jamo jamo_not_space).
  rewrite (findall_class_strip (is_broken rt) (broken_not_space rt)).
  reflexivity.
Qed.

Lemma evaluate_without_syllables (rt : Runtime) (t : text) :
  findall_class is_hangul t = 0%nat -> evaluate_korean_quality rt t == 0.
Proof.
  intros Hs. rewrite evaluate_as_float.
  apply float_score_without_syllables.
  unfold spec_syllables. rewrite <- findall_class_filter. exact Hs.
Qed.

(** X1. A text without a complete Hangul syllable scores exactly 0,
    whatever else it holds (jamo, Latin text, noise): the first three
    terms vanish and the fourth is subtracted. *)
Theorem evaluate_zero_without_syllables (rt : Runtime) (t : text) :
  findall_class is_hangul t = 0%nat -> evaluate_korean_quality rt t == 0.
Proof. apply evaluate_without_syllables. Qed.

(** X1, run on lone jamo mixed with noise. *)
Lemma evaluate_zero_without_syllables_witness :
  evaluate_korean_quality Posix.runtime (py "ㅎㅏㄴ ㄱㅡㄹ ##") == 0.
Proof.
  apply evaluate_zero_without_syllables. reflexivity.
Defined.

(** X2. The score does not change when white space is added or removed
    at either end of the text: the length it divides by is that of the
    trimmed text, and no counted character is white space. *)
Theorem evaluate_ignores_outer_space (rt : Runtime) (t : text) :
  evaluate_korean_quality rt (strip t) == evaluate_korean_quality rt t.
Proof.
  rewrite !evaluate_as_float, float_score_strip. reflexivity.
Qed.

Lemma strip_without_space (t : text) :
  forallb (fun c => negb (isspace c)) t = true -> strip t = t.
Proof.
  intros H. unfold strip.
  assert (lstrip t = t) as ->.
  { destruct t as [|c r]; [reflexivity|]. cbn [forallb] in H.
    apply andb_true_iff in H as [Hc _]. apply negb_true_iff in Hc.
    cbn [lstrip]. rewrite Hc. reflexivity. }
  induction t as [|c r IH]; [reflexivity|].
  cbn [forallb] in H. apply andb_true_iff in H as [Hc Hr].
  apply negb_true_iff in Hc. cbn [rstrip]. rewrite (IH Hr), Hc.
  destruct r; reflexivity.
Qed.

Lemma all_hangul_counts (rt : Runtime) (t : text) :
  forallb is_hangul t = true ->
  forallb (fun c => negb (isspace c)) t = true
  /\ findall_class is_hangul t = length t
  /\ findall_class is_jamo t = 0%nat
  /\ findall_class (is_broken rt) t = 0%nat
  /\ forall run, findall_hangul_words run t
                 = if (2 <=? run + length t)%nat then 1%nat else 0%nat.
Proof.
  induction t as [|c r IH]; intros H.
  - repeat split. intros run. cbn. rewrite Nat.add_0_r. reflexivity.
  - cbn [forallb] in H. apply andb_true_iff in H as [Hc Hr].
    destruct (IH Hr) as (I1 & I2 & I3 & I4 & I5).
    assert (is_jamo c = false) as Hj.
    { unfold is_hangul, is_jamo, is_consonant_jamo, is_vowel_jamo, in_range in *.
      apply andb_true_iff in Hc as [H1 H2].
      apply Z.leb_le in H1. apply Z.leb_le in H2.
      apply orb_false_iff; split; apply andb_false_iff; right;
        apply Z.leb_gt; lia. }
    assert (is_broken rt c = false) as Hb.
    { unfold is_broken. rewrite Hc, !orb_true_r. reflexivity. }
    cbn [forallb findall_class findall_hangul_words length].
    rewrite (hangul_not_space c Hc), Hc, Hj, Hb, I1, I2, I3, I4.
    repeat split. intros run. rewrite I5.
    replace (S run + length r)%nat with (run + S (length r))%nat by lia.
    reflexivity.
Qed.

(** X3. A text of [n >= 2] Hangul syllables and nothing else scores
    exactly 170, the greatest score there is, when [n <= 10]; with more
    than ten syllables it scores 150 or more and less than 170. *)
Theorem evaluate_all_syllables (rt : Runtime) (t : text) :
  forallb is_hangul t = true -> (2 <= length t)%nat ->
  ((length t <= 10)%nat -> evaluate_korean_quality rt t == 170)
  /\ ((10 < length t)%nat ->
      (150 <= evaluate_korean_quality rt t)%Q
      /\ (evaluate_korean_quality rt t < 170)%Q).
Proof.
  intros Hall Hlen.
  destruct (all_hangul_counts rt t Hall) as (Hns & Hs & Hj & Hb & Hw).
  unfold evaluate_korean_quality.
  destruct t as [|c r]; [cbn in Hlen; lia|].
  rewrite (strip_without_space _ Hns), Hs, Hj, Hb, (Hw 0%nat).
  remember (length (c :: r)) as n eqn:En. clear En Hall Hns Hs Hj Hb Hw c r.
  destruct (Nat.eqb_spec n 0) as [|_]; [lia|].
  destruct (Nat.ltb_spec 0 n) as [_|]; [|lia].
  destruct (Nat.ltb_spec 0 (n + 0)) as [_|]; [|lia].
  destruct (Nat.leb_spec 2 (0 + n)) as [_|]; [|lia].
  rewrite Nat.add_0_r.
  pose proof (Zq_pos n ltac:(lia)) as Hpos.
  assert (Binary64.div (Zq n) (Zq n) == 1) as H1.
  { unfold Binary64.div.
    assert (Zq n / Zq n == 1) as -> by (field; lra). exact round_1. }
  assert (Binary64.add
            (Binary64.add 0 (Binary64.mul (Binary64.div (Zq n) (Zq n)) 100))
            (Binary64.mul (Binary64.div (Zq n) (Zq n)) 50) == 150) as ->
      by (rewrite H1; vm_compute; reflexivity).
  assert (Binary64.mul (Binary64.div (Zq 0) (Zq n)) 50 == 0) as ->
      by (rewrite div_0; vm_compute; reflexivity).
  assert (Binary64.of_int (Zq 1) == 1) as -> by (vm_compute; reflexivity).
  assert (0 < Zq n / 10)%Q as Hq0 by (apply Qlt_shift_div_l; lra).
  pose proof (round_pos _ Hq0) as Hd0.
  fold (Binary64.div (Zq n) 10) in Hd0.
  remember (Binary64.div (Zq n) 10) as d eqn:Ed.
  assert (0 <= 1 / d)%Q as Hw0 by (apply Qle_shift_div_l; lra).
  pose proof (round_nonneg _ Hw0) as Hwd0.
  fold (Binary64.div 1 d) in Hwd0.
  remember (Binary64.div 1 d) as wd eqn:Ewd.
  assert (0 <= wd * 20)%Q as Hp by lra.
  pose proof (round_nonneg _ Hp) as Hp0.
  fold (Binary64.mul wd 20) in Hp0.
  remember (Binary64.mul wd 20) as p eqn:Ep.
  remember (Qmin p 20) as t3 eqn:Et3.
  assert (Binary64.sub (Binary64.add 150 t3) 0 == Binary64.add 150 t3)
    as Esub by apply sub_0_r.
  split; intros Hn.
  - (* up to ten syllables the third term is 20 *)
    assert (Zq n / 10 <= 1)%Q as Hhi.
    { pose proof (Zq_le n 10 Hn) as H2. change (Zq 10) with 10%Q in H2.
      apply Qle_shift_div_r; lra. }
    pose proof (round_mono _ _ Hhi) as D1. rewrite round_1 in D1.
    fold (Binary64.div (Zq n) 10) in D1. rewrite <- Ed in D1.
    assert (1 <= 1 / d)%Q as Hq by (apply Qle_shift_div_l; lra).
    pose proof (round_mono _ _ Hq) as W. rewrite round_1 in W.
    fold (Binary64.div 1 d) in W. rewrite <- Ewd in W.
    assert (20 <= wd * 20)%Q as Hp20 by lra.
    pose proof (round_mono _ _ Hp20) as P. rewrite round_20 in P.
    fold (Binary64.mul wd 20) in P. rewrite <- Ep in P.
    assert (t3 == 20) as -> by (rewrite Et3; apply Q.min_r; exact P).
    vm_compute. reflexivity.
  - (* beyond ten the density is below 1 *)
    assert ((11 # 10) <= Zq n / 10)%Q as Hlo.
    { pose proof (Zq_le 11 n Hn) as H2. change (Zq 11) with 11%Q in H2.
      apply Qle_shift_div_l; lra. }
    pose proof (round_mono _ _ Hlo) as D0.
    fold (Binary64.div (Zq n) 10) in D0. rewrite <- Ed in D0.
    remember (Binary64.round (11 # 10)) as d11 eqn:Ed11.
    assert (1 < d11)%Q as D1 by (rewrite Ed11; vm_compute; reflexivity).
    assert (1 / d <= 1 / d11)%Q as Hq.
    { apply Qle_shift_div_l; [lra|].
      assert (1 / d * d11 == d11 / d)%Q as -> by (field; lra).
      apply Qle_shift_div_r; lra. }
    pose proof (round_mono _ _ Hq) as W.
    fold (Binary64.div 1 d) in W. rewrite <- Ewd in W.
    remember (Binary64.round (1 / d11)) as w11 eqn:Ew11.
    assert (wd * 20 <= w11 * 20)%Q as Hp' by lra.
    pose proof (round_mono _ _ Hp') as P.
    fold (Binary64.mul wd 20) in P. rewrite <- Ep in P.
    remember (Binary64.round (w11 * 20)) as p11 eqn:Ep11.
    assert (p11 < 20)%Q as P'
        by (rewrite Ep11, Ew11, Ed11; vm_compute; reflexivity).
    assert (t3 == p) as E3 by (rewrite Et3; apply Q.min_l; lra).
    assert (150 + t3 <= 150 + p11)%Q as Hs by lra.
    pose proof (round_mono _ _ Hs) as S.
    assert (Binary64.round (150 + p11) < 170)%Q as S'
        by (rewrite Ep11, Ew11, Ed11; vm_compute; reflexivity).
    assert (150 <= 150 + t3)%Q as Hs0 by lra.
    pose proof (round_mono _ _ Hs0) as S0. rewrite round_150 in S0.
    fold (Binary64.add 150 t3) in S, S0.
    remember (Binary64.add 150 t3) as s3 eqn:Es3.
    remember (Binary64.round (150 + p11)) as s11 eqn:Es11.
    split.
    + apply Qle_trans with (Binary64.sub s3 0); [|apply Q.le_max_r].
      rewrite Esub. exact S0.
    + apply Q.max_lub_lt; [lra|]. rewrite Esub. lra.
Qed.

(** X3, run on a four-syllable word. *)
Lemma evaluate_all_syllables_witness :
  evaluate_korean_quality Posix.runtime (py "대한민국") == 170.
Proof.
  apply (evaluate_all_syllables Posix.runtime (py "대한민국")).
  - reflexivity.
  - vm_compute. lia.
  - vm_compute. lia.
Defined.

(** ** More on the method selector *)

Lemma evaluate_nonneg (rt : Runtime) (t : text) :
  (0 <= evaluate_korean_quality rt t)%Q.
Proof.
  rewrite evaluate_as_float. unfold float_score. apply Q.le_max_l.
Qed.

Lemma replaces_best_no (s : Q) (t : text) (b : Best) :
  (s <= korean_score b)%Q ->
  (s == korean_score b -> (length t <= length (best_text b))%nat) ->
  replaces_best s t b = false.
Proof.
  intros Hle Hlen. unfold replaces_best. apply orb_false_iff. split.
  - destruct (Qgtb s (korean_score b)) eqn:E; [|reflexivity].
    apply Qgtb_true in E. lra.
  - destruct (Qeq_bool s (korean_score b)) eqn:E; [|reflexivity].
    apply Qeq_bool_iff in E. cbn [andb]. apply Nat.ltb_ge. auto.
Qed.

(** A choice no remaining candidate beats stays. *)
Lemma fold_select_step_keeps (rt : Runtime) (pdf_path : text)
      (methods : list (text * Backend)) :
  forall b,
    (forall t, In t (candidates methods pdf_path) ->
               (evaluate_korean_quality rt t <= korean_score b)%Q
               /\ (evaluate_korean_quality rt t == korean_score b ->
                   (length t <= length (best_text b))%nat)) ->
    fold_left (select_step rt pdf_path) methods b = b.
Proof.
  induction methods as [|[name f] rest IH]; intros b Hno; [reflexivity|].
  cbn [fold_left candidates] in *. unfold select_step at 2. cbn [snd fst].
  destruct (f pdf_path) as [t|e].
  - destruct (Hno t (or_introl eq_refl)) as [Hle Hlen].
    rewrite (replaces_best_no _ t b Hle Hlen).
    apply IH. intros t' Hin. apply Hno. right. exact Hin.
  - apply IH. exact Hno.
Qed.

Lemma selection_first_unbeaten (rt : Runtime)
      (methods : list (text * Backend)) (pdf_path t0 : text)
      (rest : list text) :
  candidates methods pdf_path = t0 :: rest ->
  (forall t, In t rest ->
             (evaluate_korean_quality rt t <= evaluate_korean_quality rt t0)%Q
             /\ (evaluate_korean_quality rt t == evaluate_korean_quality rt t0 ->
                 (length t <= length t0)%nat)) ->
  selection rt methods pdf_path = t0.
Proof.
  unfold selection. remember initial_best as b0 eqn:Hb0.
  induction methods as [|[name f] more IH]; intros Hc Hrest; [discriminate Hc|].
  cbn [fold_left candidates] in *. unfold select_step at 2. cbn [snd fst].
  destruct (f pdf_path) as [t|e]; [|apply IH; assumption].
  injection Hc as -> Hc.
  set (b1 := if replaces_best (evaluate_korean_quality rt t0) t0 b0
             then {| best_text := t0; best_method := name;
                     korean_score := evaluate_korean_quality rt t0 |}
             else b0).
  assert (best_text b1 = t0
          /\ korean_score b1 == evaluate_korean_quality rt t0) as [Ht Hs].
  { subst b1. destruct (replaces_best _ t0 b0) eqn:E.
    - split; reflexivity.
    - apply replaces_best_false in E as [Hle Hlen]. subst b0.
      cbn [initial_best korean_score best_text] in *.
      pose proof (evaluate_nonneg rt t0) as Hnn.
      assert (evaluate_korean_quality rt t0 == 0) as Hz by lra.
      specialize (Hlen Hz). cbn [length] in Hlen.
      destruct t0; [split; [reflexivity|symmetry; exact Hz]|].
      cbn [length] in Hlen. lia. }
  rewrite fold_select_step_keeps; [exact Ht|].
  rewrite Hc. intros t' Hin. destruct (Hrest t' Hin) as [Hle Hlen].
  rewrite Ht. split; [lra|]. intros Heq. apply Hlen. lra.
Qed.

(** X4. On ties the earlier method wins: when no later candidate has a
    higher score than the first candidate, nor the same score and a
    greater length, the selector returns the text of the first
    candidate. *)
Theorem smart_select_prefers_first (rt : Runtime)
        (methods : list (text * Backend)) (pdf_path t0 : text)
        (rest : list text) (w : World) :
  candidates methods pdf_path = t0 :: rest ->
  (forall t, In t rest ->
             (evaluate_korean_quality rt t <= evaluate_korean_quality rt t0)%Q
             /\ (evaluate_korean_quality rt t == evaluate_korean_quality rt t0 ->
                 (length t <= length t0)%nat)) ->
  exists w', smart_select rt methods pdf_path w = (w', Ok t0).
Proof.
  intros Hc Hrest.
  destruct (smart_select_run rt methods pdf_path w) as (w' & Hrun & _).
  exists w'. rewrite Hrun.
  rewrite (selection_first_unbeaten rt methods pdf_path t0 rest Hc Hrest).
  reflexivity.
Qed.

(** X4, run on the sample file, which all four adapters read alike:
    the text comes from the first of them. *)
Lemma smart_select_prefers_first_witness :
  exists w',
    extract_text_smart_korean Posix.runtime Sample.backends Sample.file_a
      Posix.fresh_world = (w', Ok Sample.text_a).
Proof.
  apply (smart_select_prefers_first Posix.runtime
           (smart_methods Sample.backends) Sample.file_a Sample.text_a
           [Sample.text_a; Sample.text_a; Sample.text_a]).
  - reflexivity.
  - intros t Hin. assert (t = Sample.text_a) as ->.
    { destruct Hin as [<-|[<-|[<-|[]]]]; reflexivity. }
    split; [apply Qle_refl|intros _; apply Nat.le_refl].
Defined.

(** X5. When no candidate holds a Hangul syllable every score is 0 and
    the length decides: the selector returns a longest candidate. *)
Theorem smart_select_longest_without_syllables (rt : Runtime)
        (methods : list (text * Backend)) (pdf_path : text) (w : World) :
  (forall t, In t (candidates methods pdf_path) ->
             findall_class is_hangul t = 0%nat) ->
  exists w' best,
    smart_select rt methods pdf_path w = (w', Ok best)
    /\ (best = [] \/ In best (candidates methods pdf_path))
    /\ forall t, In t (candidates methods pdf_path) ->
                 (length t <= length best)%nat.
Proof.
  intros Hnone.
  destruct (smart_loop_best rt pdf_path methods initial_best [] w
              (best_among_initial rt))
    as (w1 & b & Hrun & _ & _ & _ & Hscore & Hmem & Hbest).
  cbn [app] in Hmem, Hbest.
  destruct (smart_select_run rt methods pdf_path w) as (w' & Hsel & _).
  destruct (smart_loop_run rt pdf_path methods initial_best w)
    as (w2 & Hrun2 & _).
  rewrite Hrun in Hrun2. injection Hrun2 as _ Hb.
  exists w', (best_text b). split.
  - rewrite Hsel. unfold selection. rewrite <- Hb. reflexivity.
  - split; [exact Hmem|]. intros t Hin.
    destruct (Hbest t Hin) as [_ Hlen]. apply Hlen.
    rewrite Hscore.
    rewrite (evaluate_without_syllables rt t (Hnone t Hin)).
    destruct Hmem as [->|Hmem]; [reflexivity|].
    rewrite (evaluate_without_syllables rt _ (Hnone _ Hmem)). reflexivity.
Qed.

(** X5, run on the sample file that reads as blanks. *)
Lemma smart_select_longest_without_syllables_witness :
  exists w' best,
    extract_text_smart_korean Posix.runtime Sample.backends Sample.file_b
      Posix.fresh_world = (w', Ok best)
    /\ (best = [] \/ In best (candidates (smart_methods Sample.backends)
                                         Sample.file_b))
    /\ forall t, In t (candidates (smart_methods Sample.backends)
                                  Sample.file_b) ->
                 (length t <= length best)%nat.
Proof.
  apply (smart_select_longest_without_syllables Posix.runtime
           (smart_methods Sample.backends) Sample.file_b Posix.fresh_world).
  intros t Hin. vm_compute in Hin.
  destruct Hin as [<-|[<-|[<-|[<-|[]]]]]; reflexivity.
Defined.

(** ** More on the extraction and the output writer *)

(** X6. [extract_text_from_pdf] raises only when the method is pinned to
    an available backend and that backend raises; the message is the
    backend's, behind the prefix of the wrapper.
    With the smart selector, or a method that is not available, it
    returns. *)
Theorem extract_text_from_pdf_raises_only_pinned (rt : Runtime)
        (bk : Backends) (cfg : Config) (pdf_path : text) (w w' : World)
        (e : exn) :
  extract_text_from_pdf rt bk cfg pdf_path w = (w', Raise e) ->
  exists method_func e0,
    pinned_backend bk (extraction_method cfg) = Some method_func
    /\ method_func pdf_path = Raise e0
    /\ e = py "텍스트 추출 실패: " ++ e0.
Proof.
  intros Hrun.
  destruct (extract_text_from_pdf_run rt bk cfg pdf_path w)
    as (w1 & Hrun1 & _).
  rewrite Hrun in Hrun1. injection Hrun1 as _ Hext.
  unfold extraction in Hext.
  destruct (pinned_backend bk (extraction_method cfg)) as [f|];
    [|discriminate Hext].
  exists f. unfold wrap_failure in Hext.
  destruct (f pdf_path) as [t|e0]; [discriminate Hext|].
  exists e0. injection Hext as ->. auto.
Qed.

(** X6, run on the sample file no adapter can read, pinned to
    pdfplumber. *)
Lemma extract_text_from_pdf_raises_only_pinned_witness :
  exists method_func e0,
    pinned_backend Sample.backends pdfplumber = Some method_func
    /\ method_func Sample.file_c = Raise e0
    /\ py "텍스트 추출 실패: cannot read" = py "텍스트 추출 실패: " ++ e0.
Proof.
  apply (extract_text_from_pdf_raises_only_pinned Posix.runtime
           Sample.backends (Sample.config pdfplumber) Sample.file_c
           Posix.fresh_world Posix.fresh_world).
  vm_compute. reflexivity.
Defined.

Lemma try_encodings_fallback (filepath t : text) (encs : list text) :
  forall (k : nat) (enc : text) (w : World) (failed later : list fate),
    nth_error encs k = Some enc ->
    io_faults w = failed ++ later ->
    length failed = k ->
    forallb fails failed = true ->
    fails (hd completes later) = false ->
    exists w',
      try_encodings filepath t encs w = (w', Ok (Some enc))
      /\ disk w'
         = <[filepath := {| file_encoding := enc;
                            file_errors := errors_replace;
                            file_text := t |}]> (disk w)
      /\ io_faults w' = tl later
      /\ is_converting w' = is_converting w
      /\ log_sink w' = log_sink w.
Proof.
  induction encs as [|e rest IH];
    intros k enc w failed later Hnth Hf Hlen Hfail Hok.
  - destruct k; discriminate Hnth.
  - cbn [try_encodings]. unfold try_except, bind, open_write, next_fate.
    destruct failed as [|f failed'].
    + cbn [length] in Hlen. subst k. injection Hnth as ->.
      cbn [app] in Hf. rewrite Hf.
      destruct (hd completes later) eqn:Hhd; try discriminate Hok.
      eexists. split; [reflexivity|].
      cbn [disk io_faults is_converting log_sink store consume_fault].
      rewrite Hf. auto.
    + cbn [length] in Hlen. subst k. cbn [nth_error] in Hnth.
      cbn [forallb] in Hfail. apply andb_prop in Hfail as [Hf1 Hfail].
      cbn [app] in Hf. rewrite Hf. cbn [hd].
      destruct f as [| |written]; [discriminate Hf1| |].
      * destruct (IH (length failed') enc (consume_fault w) failed' later
                    Hnth) as (w' & Hrun & H);
          [cbn [io_faults consume_fault]; rewrite Hf; reflexivity
          |reflexivity|exact Hfail|exact Hok|].
        exists w'. split; [exact Hrun|exact H].
      * match goal with
        | |- context [try_encodings filepath t rest ?w0] =>
          destruct (IH (length failed') enc w0 failed' later Hnth)
            as (w' & Hrun & Hd & H);
            [cbn [io_faults consume_fault store]; rewrite Hf; reflexivity
            |reflexivity|exact Hfail|exact Hok|]
        end.
        exists w'. split; [exact Hrun|]. split; [|exact H].
        rewrite Hd. cbn [disk store consume_fault]. apply insert_insert_eq.
Qed.

(** What [errors='replace'] makes of a text. *)
Lemma replaced_content (rt : Runtime) (enc t : text) :
  file_content rt {| file_encoding := enc; file_errors := errors_replace;
                     file_text := t |}
  = map (fun c => if can_encode rt enc c then c else QUESTION) t
  /\ (forallb (can_encode rt enc) t = true ->
      file_content rt {| file_encoding := enc; file_errors := errors_replace;
                         file_text := t |} = t).
Proof.
  unfold file_content. cbn [file_errors file_encoding file_text].
  split; [reflexivity|].
  induction t as [|c r IH]; [reflexivity|].
  cbn [forallb map]. intros H. apply andb_prop in H as [Hc Hr].
  rewrite Hc, (IH Hr). reflexivity.
Qed.

(** X7. The writer falls back in the order of the list: when the first
    [k] blocks fail, at [open] or while writing, and the next one
    completes, the file is written with the encoding at position [k] of
    the list, and that encoding is the one reported.  The file holds
    the text with [?] for every character the encoding has no code for:
    the text itself only if the encoding has a code for each of its
    characters. *)
Theorem safe_write_text_falls_back_in_order (rt : Runtime)
        (filepath t : text) (k : nat) (enc : text) (w : World)
        (failed later : list fate) :
  nth_error (encodings rt) k = Some enc ->
  io_faults w = failed ++ later ->
  length failed = k ->
  forallb fails failed = true ->
  fails (hd completes later) = false ->
  exists w' d,
    safe_write_text rt filepath t w = (w', Ok (true, enc))
    /\ disk w' = <[filepath := d]> (disk w)
    /\ file_content rt d
       = map (fun c => if can_encode rt enc c then c else QUESTION) t
    /\ (forallb (can_encode rt enc) t = true -> file_content rt d = t)
    /\ io_faults w' = tl later.
Proof.
  intros Hnth Hf Hlen Hfail Hok.
  destruct (try_encodings_fallback filepath t (encodings rt) k enc w failed
              later Hnth Hf Hlen Hfail Hok) as (w' & Hrun & Hd & Hf' & _).
  destruct (replaced_content rt enc t) as [Hc1 Hc2].
  exists w'. eexists. unfold safe_write_text, bind. rewrite Hrun.
  split; [reflexivity|]. split; [exact Hd|].
  split; [exact Hc1|]. split; [exact Hc2|exact Hf'].
Qed.

(** X7, run on Linux with a disk that refuses the first [open]: the text
    is written as latin-1, which has no code for the two syllables. *)
Lemma safe_write_text_falls_back_in_order_witness :
  exists w' d,
    safe_write_text Posix.runtime (py "/out/x.txt") (py "한글 abc")
      (Sample.failing_disk 1) = (w', Ok (true, py "latin-1"))
    /\ disk w' = <[py "/out/x.txt" := d]> ∅
    /\ file_content Posix.runtime d
       = map (fun c => if can_encode Posix.runtime (py "latin-1") c
                       then c else QUESTION) (py "한글 abc")
    /\ (forallb (can_encode Posix.runtime (py "latin-1")) (py "한글 abc")
        = true -> file_content Posix.runtime d = py "한글 abc")
    /\ io_faults w' = [].
Proof.
  apply (safe_write_text_falls_back_in_order Posix.runtime (py "/out/x.txt")
           (py "한글 abc") 1 (py "latin-1") (Sample.failing_disk 1)
           [open_raises] []);
    reflexivity.
Defined.

(** What [safe_write_text] does to the disk: when it reports [True], one
    file under [filepath], written with the encoding it reports or by
    the last resort; when it reports [False], what failed writes
    leave. *)
Lemma safe_write_text_outcome (rt : Runtime) (filepath t : text) (w : World) :
  exists w' ok label,
    safe_write_text rt filepath t w = (w', Ok (ok, label))
    /\ (if ok : bool
        then exists d,
            disk w' = <[filepath := d]> (disk w)
            /\ ((In label (encodings rt)
                 /\ d = {| file_encoding := label;
                           file_errors := errors_replace;
                           file_text := t |})
                \/ (label = ASCII_LOSSY /\ d = lossy_file t))
        else label = FAILED /\ left_behind filepath t (disk w) (disk w')).
Proof.
  destruct (try_encodings_run filepath t (encodings rt) w)
    as [(w1 & failed & Hrun & _ & _ & _ & Hleft & _)
       |(w1 & k & enc & failed & Hrun & Hnth & _ & _ & _ & _ & _ & Hd)].
  - destruct (last_resort_run rt filepath t w w1 Hrun Hleft)
      as (w' & Hsw & _ & _ & _ & Hok & Hbad & _).
    destruct (fails (next_fate w1)).
    + exists w', false, FAILED. split; [exact Hsw|].
      split; [reflexivity|apply Hbad; reflexivity].
    + exists w', true, ASCII_LOSSY. split; [exact Hsw|].
      exists (lossy_file t). split; [apply Hok; reflexivity|].
      right. split; reflexivity.
  - exists w1, true, enc. unfold safe_write_text, bind. rewrite Hrun.
    split; [reflexivity|]. eexists. split; [exact Hd|]. left.
    split; [eapply nth_error_In; exact Hnth|reflexivity].
Qed.

(** X8. The writer never raises and never touches another file: it
    returns a pair, and every path other than the target reads as
    before.  When it reports [True] the target holds the text as the
    reported encoding can write it ([?] for a character it has no code
    for), or, under the label of the lossy mode, the text with [?] for
    its non-ASCII characters.  When it reports [False] the label is
    ["실패"] and the target is as it was, or cut short by a write that
    failed. *)
Theorem safe_write_text_touches_only_target (rt : Runtime)
        (filepath t : text) (w : World) :
  exists w' ok label,
    safe_write_text rt filepath t w = (w', Ok (ok, label))
    /\ (forall other, other <> filepath ->
                      disk w' !! other = disk w !! other)
    /\ (ok = false ->
        label = FAILED /\ left_behind filepath t (disk w) (disk w'))
    /\ (ok = true ->
        exists d,
          disk w' !! filepath = Some d
          /\ ((In label (encodings rt)
               /\ file_content rt d
                  = map (fun c => if can_encode rt label c then c
                                  else QUESTION) t)
              \/ (label = ASCII_LOSSY
                  /\ file_content rt d = ascii_or_question t))).
Proof.
  destruct (safe_write_text_outcome rt filepath t w)
    as (w' & ok & label & Hrun & Hout).
  exists w', ok, label. split; [exact Hrun|].
  destruct ok.
  - destruct Hout as (d & Hd & Hcases). split; [|split].
    + intros other Hne. rewrite Hd. apply lookup_insert_ne. congruence.
    + discriminate.
    + intros _. exists d. rewrite Hd. split; [apply lookup_insert_eq|].
      destruct Hcases as [[Hin ->]|[-> ->]].
      * left. split; [exact Hin|]. apply replaced_content.
      * right. split; [reflexivity|apply lossy_file_content].
  - destruct Hout as [-> Hleft]. split; [|split].
    + apply Hleft.
    + auto.
    + discriminate.
Qed.

(** ** More on the batch *)

Lemma convert_one_recovered (rt : Runtime) (bk : Backends) (cfg : Config)
      (pdf_path : text) (c : Counters) :
  (korean_recovered c <= success_count c)%nat ->
  yields (fun c' => (korean_recovered c' <= success_count c')%nat)
         (convert_one rt bk cfg pdf_path c).
Proof.
  intros Hc. unfold convert_one.
  apply yields_bind; intros _.
  apply yields_try.
  - apply yields_bind; intros t.
    destruct (nonempty (strip t)).
    + apply yields_bind; intros [success encoding].
      destruct success.
      * apply yields_bind; intros _. apply yields_bind; intros _.
        apply yields_ret. cbn [korean_recovered success_count].
        destruct (0 <? _)%nat; lia.
      * apply yields_bind; intros _. apply yields_ret. exact Hc.
    + apply yields_bind; intros _. apply yields_bind; intros _.
      apply yields_ret. exact Hc.
  - intros e. apply yields_bind; intros _. apply yields_bind; intros _.
    apply yields_ret. exact Hc.
Qed.

(** What every file keeps true of the counters is true of them when the
    loop is left. *)
Lemma convert_loop_keeps (rt : Runtime) (bk : Backends) (cfg : Config)
      (ui : nat -> bool) (P : Counters -> Prop) :
  (forall p c, P c -> yields P (convert_one rt bk cfg p c)) ->
  forall (files : list text) (i : nat) (c : Counters),
    P c -> yields P (convert_loop rt bk cfg ui i files c).
Proof.
  intros Hone files. induction files as [|p rest IH]; intros i c Hc.
  - cbn [convert_loop]. apply yields_bind; intros _. apply yields_ret. exact Hc.
  - cbn [convert_loop]. apply yields_bind; intros _.
    apply yields_bind; intros converting.
    destruct (negb converting); [apply yields_ret; exact Hc|].
    intros w w' c' Hrun. unfold bind in Hrun.
    destruct (convert_one rt bk cfg p c w) as [w1 [c1|e]] eqn:E;
      [|discriminate Hrun].
    eapply IH; [|exact Hrun]. eapply Hone; eassumption.
Qed.

Lemma convert_loop_returns (rt : Runtime) (bk : Backends) (cfg : Config)
      (ui : nat -> bool) (files : list text) :
  forall (i : nat) (c : Counters),
    returns (convert_loop rt bk cfg ui i files c).
Proof.
  induction files as [|p rest IH]; intros i c; cbn [convert_loop].
  - apply returns_bind; [|intros _; apply returns_ret].
    unfold ui_step. destruct (ui i); [|apply returns_ret].
    intros w. eexists _, _. reflexivity.
  - apply returns_bind.
    { unfold ui_step. destruct (ui i); [|apply returns_ret].
      intros w. eexists _, _. reflexivity. }
    intros _. apply returns_bind; [intros w; eexists _, _; reflexivity|].
    intros converting. destruct (negb converting); [apply returns_ret|].
    apply returns_bind; [apply convert_one_returns|intros c'; apply IH].
Qed.

(** [convert_files] returns, whatever happens to the files, and leaves
    the flag down. *)
Lemma convert_files_returns (rt : Runtime) (bk : Backends) (cfg : Config)
      (ui : nat -> bool) (w : World) :
  exists w' c,
    convert_files rt bk cfg ui w = (w', Ok c) /\ is_converting w' = false.
Proof.
  unfold convert_files.
  unfold bind at 1. unfold log at 1. cbv beta iota.
  unfold bind at 1. unfold log at 1. cbv beta iota.
  unfold bind at 1.
  match goal with
  | |- context [convert_loop rt bk cfg ui 0 ?fs ?c0 ?w0] =>
    destruct (convert_loop_returns rt bk cfg ui fs 0%nat c0 w0)
      as (w1 & c & ->)
  end.
  unfold bind at 1. unfold report_summary. unfold bind at 1.
  unfold get_is_converting.
  destruct (is_converting w1); eexists _, _; split; reflexivity.
Qed.

(** The batch that is not cancelled. *)
Lemma convert_files_uncancelled (rt : Runtime) (bk : Backends)
      (cfg : Config) (w : World) :
  is_converting w = true ->
  exists w' c,
    convert_files rt bk cfg (fun _ => false) w = (w', Ok c)
    /\ files_counted c = length (pdf_files cfg)
    /\ (korean_recovered c <= success_count c)%nat
    /\ In (ShowInfo (success_count c) (korean_recovered c) (empty_count c)
                    (error_count c)) (log_sink w')
    /\ is_converting w' = false.
Proof.
  intros Hflag.
  destruct (batch_begun_spec rt cfg w) as (_ & _ & Hc0 & _).
  rewrite Hflag in Hc0.
  destruct (convert_loop_never rt bk cfg (pdf_files cfg) 0 zero_counters
              (batch_begun rt cfg w) Hc0)
    as (w1 & c & Hloop & (Hc1 & _) & Hcount).
  rewrite Hc0 in Hc1.
  destruct (convert_files_completed rt bk cfg _ w w1 c Hloop Hc1)
    as (w' & Hrun & _ & Hin).
  destruct (convert_files_returns rt bk cfg (fun _ => false) w)
    as (w'' & c'' & Hrun' & Hdown).
  rewrite Hrun in Hrun'. injection Hrun' as <- <-.
  exists w', c. split; [exact Hrun|]. split; [exact Hcount|].
  split; [|split; [exact Hin|exact Hdown]].
  apply (convert_loop_keeps rt bk cfg (fun _ => false)
           (fun c => (korean_recovered c <= success_count c)%nat)
           (fun p c0 Hc0' => convert_one_recovered rt bk cfg p c0 Hc0')
           (pdf_files cfg) 0%nat zero_counters (le_n 0) _ _ _ Hloop).
Qed.

(** X9. A batch that is not cancelled is never abandoned: whatever the
    backends return or raise and whichever writes fail, [convert_files]
    returns, every file of the list is counted in exactly one of the
    three counters, the files with recovered Korean are among the
    successes, the summary is shown, and the flag is down at the end. *)
Theorem convert_files_counts_every_file (rt : Runtime) (bk : Backends)
        (cfg : Config) (w : World) :
  is_converting w = true ->
  exists w' c,
    convert_files rt bk cfg (fun _ => false) w = (w', Ok c)
    /\ files_counted c = length (pdf_files cfg)
    /\ (korean_recovered c <= success_count c)%nat
    /\ In (ShowInfo (success_count c) (korean_recovered c) (empty_count c)
                    (error_count c)) (log_sink w')
    /\ is_converting w' = false.
Proof. apply convert_files_uncancelled. Qed.

(** X9, run on the sample batch with a disk that refuses its first six
    calls of [open]. *)
Lemma convert_files_counts_every_file_witness :
  exists w' c,
    convert_files Posix.runtime Sample.backends (Sample.config smart_korean)
      (fun _ => false) (Sample.failing_disk 6) = (w', Ok c)
    /\ files_counted c = 3%nat
    /\ (korean_recovered c <= success_count c)%nat
    /\ In (ShowInfo (success_count c) (korean_recovered c) (empty_count c)
                    (error_count c)) (log_sink w')
    /\ is_converting w' = false.
Proof.
  apply (convert_files_counts_every_file Posix.runtime Sample.backends
           (Sample.config smart_korean) (Sample.failing_disk 6)).
  reflexivity.
Defined.

(** X10. A file leaves at most one artifact: [convert_one] returns, and
    there is one path, the text name of the input or its [_오류] name,
    such that every other path of the disk reads as before; when it is
    the [_오류] name the file is counted as an error. *)
Theorem convert_one_writes_one_file (rt : Runtime) (bk : Backends)
        (cfg : Config) (pdf_path : text) (c : Counters) (w : World) :
  exists w' c' target,
    convert_one rt bk cfg pdf_path c w = (w', Ok c')
    /\ (target = text_path rt cfg pdf_path
        \/ (target = error_path rt cfg pdf_path
            /\ error_count c' = S (error_count c)))
    /\ (forall other, other <> target ->
                      disk w' !! other = disk w !! other).
Proof.
  assert (forall p m w1 w2 ok label,
             safe_write_text rt p m w1 = (w2, Ok (ok, label)) ->
             forall other, other <> p -> disk w2 !! other = disk w1 !! other)
    as Hframe.
  { intros p m w1 w2 ok label Hsw other Hne.
    destruct (safe_write_text_outcome rt p m w1)
      as (w2' & ok' & label' & Hsw' & Hout).
    rewrite Hsw in Hsw'. injection Hsw' as <- <- <-.
    destruct ok.
    - destruct Hout as (d & -> & _). apply lookup_insert_ne. congruence.
    - destruct Hout as [_ [Hother _]]. apply Hother. exact Hne. }
  unfold convert_one. unfold bind at 1. unfold log at 1.
  cbv beta iota zeta. unfold try_except. unfold bind at 1.
  match goal with
  | |- context [extract_text_from_pdf rt bk cfg pdf_path ?w0] =>
    destruct (extract_text_from_pdf_run rt bk cfg pdf_path w0)
      as (w1 & Hrun & Hd1 & _)
  end.
  cbn [disk fst] in Hd1. rewrite Hrun.
  destruct (extraction rt bk cfg pdf_path) as [t|e].
  - destruct (nonempty (strip t)).
    + unfold bind at 1.
      match goal with
      | |- context [safe_write_text rt ?p ?m w1] =>
        destruct (safe_write_text_returns rt p m w1)
          as (w2 & [ok label] & Hsw);
          pose proof (Hframe p m w1 w2 ok label Hsw) as Hother
      end.
      rewrite Hsw. destruct ok.
      * destruct (0 <? findall_class is_hangul t)%nat;
          (eexists _, _, _; split; [reflexivity|]);
          (split; [left; reflexivity|]);
          intros other Hne; cbn [disk];
          rewrite (Hother other Hne), Hd1; reflexivity.
      * eexists _, _, _. split; [reflexivity|].
        split; [left; reflexivity|].
        intros other Hne. cbn [disk].
        rewrite (Hother other Hne), Hd1. reflexivity.
    + unfold bind at 1.
      match goal with
      | |- context [safe_write_text rt ?p ?m w1] =>
        destruct (safe_write_text_returns rt p m w1)
          as (w2 & [ok label] & Hsw);
          pose proof (Hframe p m w1 w2 ok label Hsw) as Hother
      end.
      rewrite Hsw. eexists _, _, _. split; [reflexivity|].
      split; [left; reflexivity|].
      intros other Hne. cbn [disk].
      rewrite (Hother other Hne), Hd1. reflexivity.
  - cbv beta. unfold bind at 1. unfold log at 1. cbv beta iota.
    unfold bind at 1.
    match goal with
    | |- context [safe_write_text rt ?p ?m ?w0] =>
      destruct (safe_write_text_returns rt p m w0)
        as (w2 & [ok label] & Hsw);
        pose proof (Hframe p m w0 w2 ok label Hsw) as Hother
    end.
    rewrite Hsw. eexists _, _, _. split; [reflexivity|].
    split; [right; split; reflexivity|].
    intros other Hne. cbn [disk].
    rewrite (Hother other Hne). cbn [disk]. rewrite Hd1. reflexivity.
Qed.

Lemma safe_write_text_all_fail (rt : Runtime) (filepath t : text) (w : World)
      (f1 f2 f3 f4 : fate) (later : list fate) :
  io_faults w = f1 :: f2 :: f3 :: f4 :: later ->
  forallb fails [f1; f2; f3; f4] = true ->
  exists w',
    safe_write_text rt filepath t w = (w', Ok (false, FAILED))
    /\ left_behind filepath t (disk w) (disk w')
    /\ (Forall (eq open_raises) [f1; f2; f3; f4] -> disk w' = disk w)
    /\ io_faults w' = later.
Proof.
  intros Hf Hall. cbn [forallb] in Hall.
  apply andb_prop in Hall as [F1 Hall]. apply andb_prop in Hall as [F2 Hall].
  apply andb_prop in Hall as [F3 Hall]. apply andb_prop in Hall as [F4 _].
  destruct (try_encodings_run filepath t (encodings rt) w)
    as [(w1 & failed & Hrun & Hfs & Hlen & _ & Hleft & Hsame)
       |(w1 & k & enc & failed & Hrun & Hnth & _ & _ & _ & Hnext & _)].
  - rewrite encodings_length in Hlen. rewrite Hf in Hfs.
    destruct failed as [|a [|b [|c0 [|? ?]]]]; try discriminate Hlen.
    cbn [app] in Hfs. injection Hfs as <- <- <- Hw1.
    destruct (last_resort_run rt filepath t w w1 Hrun Hleft)
      as (w' & Hsw & Hf' & _ & _ & _ & Hbad & Hopen).
    assert (next_fate w1 = f4) as Hn by (unfold next_fate; rewrite <- Hw1; reflexivity).
    rewrite Hn, F4 in Hsw. exists w'. split; [exact Hsw|].
    split; [apply Hbad; rewrite Hn; exact F4|].
    split; [|rewrite Hf', <- Hw1; reflexivity].
    intros Hopens.
    apply Forall_cons_iff in Hopens as [E1 Hopens].
    apply Forall_cons_iff in Hopens as [E2 Hopens].
    apply Forall_cons_iff in Hopens as [E3 Hopens].
    apply Forall_cons_iff in Hopens as [E4 _].
    rewrite Hopen by (rewrite Hn; symmetry; exact E4).
    apply Hsame. rewrite <- E1, <- E2, <- E3. repeat constructor.
  - exfalso.
    assert (k < length (encodings rt))%nat as Hk
        by (apply List.nth_error_Some; congruence).
    rewrite encodings_length in Hk. rewrite Hf in Hnext.
    destruct k as [|[|[|k]]]; [| | |lia]; cbn [skipn hd] in Hnext; congruence.
Qed.

(** X11. When the text of a file cannot be saved (the three encodings
    and the last resort all fail), the file is counted as an error and
    "save failed" is logged, but no error notice is written: every path
    but the text name of the input is as it was.  The text name itself
    is as it was when every [open] raised, and cut short when a write
    failed after [open] had emptied the file. *)
Theorem convert_one_save_failure (rt : Runtime) (bk : Backends)
        (cfg : Config) (pdf_path t : text) (c : Counters) (w : World)
        (f1 f2 f3 f4 : fate) (later : list fate) :
  extraction rt bk cfg pdf_path = Ok t ->
  nonempty (strip t) = true ->
  io_faults w = f1 :: f2 :: f3 :: f4 :: later ->
  forallb fails [f1; f2; f3; f4] = true ->
  exists w',
    convert_one rt bk cfg pdf_path c w
    = (w', Ok {| success_count := success_count c;
                 empty_count := empty_count c;
                 error_count := S (error_count c);
                 korean_recovered := korean_recovered c |})
    /\ left_behind (text_path rt cfg pdf_path) t (disk w) (disk w')
    /\ (Forall (eq open_raises) [f1; f2; f3; f4] -> disk w' = disk w)
    /\ io_faults w' = later
    /\ In LogSaveFailed (log_sink w').
Proof.
  intros Hext Hne Hf Hall.
  unfold convert_one. unfold bind at 1. unfold log at 1.
  cbv beta iota zeta. unfold try_except. unfold bind at 1.
  match goal with
  | |- context [extract_text_from_pdf rt bk cfg pdf_path ?w0] =>
    destruct (extract_text_from_pdf_run rt bk cfg pdf_path w0)
      as (w1 & Hrun & Hd1 & Hf1 & _)
  end.
  cbn [disk io_faults fst] in Hd1, Hf1. rewrite Hf in Hf1.
  rewrite Hrun, Hext, Hne. unfold bind at 1.
  match goal with
  | |- context [safe_write_text rt ?p ?m w1] =>
    destruct (safe_write_text_all_fail rt p m w1 f1 f2 f3 f4 later Hf1 Hall)
      as (w2 & Hsw & Hleft & Hsame & Hf2)
  end.
  rewrite Hsw. eexists. split; [reflexivity|].
  cbn [disk io_faults log_sink]. rewrite Hd1 in Hleft, Hsame.
  split; [exact Hleft|]. split; [exact Hsame|]. split; [exact Hf2|].
  apply in_or_app. right. left. reflexivity.
Qed.

(** X11, run on the sample file with a disk that has no room left: the
    earlier output of the file is lost. *)
Lemma convert_one_save_failure_witness :
  exists w',
    convert_one Posix.runtime Sample.backends (Sample.config pdfminer)
      Sample.file_a zero_counters Sample.full_disk
    = (w', Ok {| success_count := 0; empty_count := 0; error_count := 1;
                 korean_recovered := 0 |})
    /\ left_behind (text_path Posix.runtime (Sample.config pdfminer)
                      Sample.file_a)
         Sample.text_a (disk Sample.full_disk) (disk w')
    /\ (Forall (eq open_raises)
               [write_raises 0; write_raises 2; write_raises 0;
                write_raises 0] -> disk w' = disk Sample.full_disk)
    /\ io_faults w' = []
    /\ In LogSaveFailed (log_sink w').
Proof.
  apply (convert_one_save_failure Posix.runtime Sample.backends
           (Sample.config pdfminer) Sample.file_a Sample.text_a
           zero_counters Sample.full_disk
           (write_raises 0) (write_raises 2) (write_raises 0)
           (write_raises 0) []); reflexivity.
Defined.

(** What is left of the earlier output at the witness. *)
Example save_failure_empties_target :
  disk (fst (convert_one Posix.runtime Sample.backends
               (Sample.config pdfminer) Sample.file_a zero_counters
               Sample.full_disk)) !! py "/out/a.txt"
  = Some {| file_encoding := py "ascii"; file_errors := errors_ignore;
            file_text := [] |}
  /\ file_content Posix.runtime
       {| file_encoding := py "latin-1"; file_errors := errors_replace;
          file_text := py "한글 abc" |} = py "?? abc".
Proof. vm_compute. split; reflexivity. Qed.

(** X12. [start_conversion] converts nothing without a file list and an
    output folder: it shows a warning and leaves disk and flag alone.
    With both it raises the flag and runs the batch to its end: every
    file is counted, the summary is shown and the flag is down again. *)
Theorem start_conversion_guards (rt : Runtime) (bk : Backends)
        (cfg : Config) (w : World) :
  if nonempty (pdf_files cfg) && nonempty (output_path cfg)
  then exists w' c,
      start_conversion rt bk cfg (fun _ => false) w = (w', Ok tt)
      /\ files_counted c = length (pdf_files cfg)
      /\ In (ShowInfo (success_count c) (korean_recovered c)
                      (empty_count c) (error_count c)) (log_sink w')
      /\ is_converting w' = false
  else exists w' msg,
      start_conversion rt bk cfg (fun _ => false) w = (w', Ok tt)
      /\ disk w' = disk w /\ is_converting w' = is_converting w
      /\ log_sink w' = log_sink w ++ [ShowWarning msg].
Proof.
  unfold start_conversion.
  destruct (pdf_files cfg) as [|p ps] eqn:Efiles; cbn [nonempty negb andb].
  - eexists _, _. split; [reflexivity|]. repeat split.
  - destruct (output_path cfg) as [|o os] eqn:Eout; cbn [nonempty negb].
    + eexists _, _. split; [reflexivity|]. repeat split.
    + unfold bind at 1. unfold set_is_converting at 1.
      cbv beta iota. unfold bind at 1.
      match goal with
      | |- context [convert_files rt bk cfg _ ?w0] =>
        destruct (convert_files_uncancelled rt bk cfg w0 eq_refl)
          as (w' & c & Hrun & Hcount & _ & Hin & Hdown)
      end.
      rewrite Hrun.
      exists w', c. rewrite Efiles in Hcount. auto.
Qed.

(** ** More on the repairer *)

Lemma sub_vowel_first_permutation (v : Z) (t : text) :
  Permutation (sub_vowel_first v t) t
  /\ forall a, Permutation (sub_vowel_first v (a :: t)) (a :: t).
Proof.
  induction t as [|b r [IH1 IH2]].
  - split; [apply perm_nil|]. intros a. apply Permutation_refl.
  - split; [apply IH2|]. intros a. cbn [sub_vowel_first].
    destruct ((a =? v) && is_consonant_jamo b) eqn:E.
    + apply andb_true_iff in E as [Ha _]. apply Z.eqb_eq in Ha. subst a.
      eapply perm_trans; [apply perm_swap|].
      apply perm_skip, perm_skip. exact IH1.
    + apply perm_skip. apply IH2.
Qed.

Lemma reorder_jamo_permutation (t : text) : Permutation (reorder_jamo t) t.
Proof.
  unfold reorder_jamo. generalize broken_patterns. intros patterns.
  revert t. induction patterns as [|v rest IH]; intros t.
  - apply Permutation_refl.
  - cbn [fold_left]. eapply perm_trans; [apply IH|].
    apply sub_vowel_first_permutation.
Qed.

Lemma findall_class_permutation (p : Z -> bool) (a b : text) :
  Permutation a b -> findall_class p a = findall_class p b.
Proof.
  induction 1 as [|x l l' _ IH|x y l|l l' l'' _ IH1 _ IH2].
  - reflexivity.
  - cbn [findall_class]. rewrite IH. reflexivity.
  - cbn [findall_class]. destruct (p x), (p y); reflexivity.
  - congruence.
Qed.

Lemma findall_class_remove (p q : Z -> bool) (t : text) :
  (forall c, p c = true -> q c = false) ->
  findall_class p (remove_class q t) = findall_class p t.
Proof.
  intros Hpq. induction t as [|c r IH]; [reflexivity|].
  cbn [remove_class findall_class].
  destruct (q c) eqn:Hq.
  - destruct (p c) eqn:Hp; [apply Hpq in Hp; congruence|exact IH].
  - cbn [findall_class]. rewrite IH. reflexivity.
Qed.

Lemma findall_class_sub_spaces (p : Z -> bool) (t : text) :
  (forall c, p c = true -> isspace c = false) ->
  forall b, findall_class p (sub_spaces b t) = findall_class p t.
Proof.
  intros Hp. assert (p SPACE = false) as Hsp.
  { destruct (p SPACE) eqn:E; [apply Hp in E; discriminate E|reflexivity]. }
  induction t as [|c r IH]; intros b; [reflexivity|].
  cbn [sub_spaces findall_class].
  destruct (isspace c) eqn:Hs.
  - assert (p c = false) as ->.
    { destruct (p c) eqn:E; [apply Hp in E; congruence|reflexivity]. }
    destruct b; cbn [findall_class]; rewrite ?Hsp; apply IH.
  - cbn [findall_class]. rewrite IH. reflexivity.
Qed.

Lemma findall_class_cleanup (p : Z -> bool) (t : text) :
  (forall c, p c = true ->
             isspace c = false /\ is_control c = false
             /\ is_surrogate c = false) ->
  findall_class p (cleanup t) = findall_class p t.
Proof.
  intros Hp. rewrite cleanup_as_strip.
  rewrite (findall_class_strip p) by (intros c Hc; apply Hp; exact Hc).
  rewrite findall_class_sub_spaces by (intros c Hc; apply Hp; exact Hc).
  rewrite !findall_class_remove; [reflexivity| |];
    intros c Hc; apply Hp; exact Hc.
Qed.

Lemma korean_is_kept (c : Z) :
  is_hangul c = true \/ is_jamo c = true ->
  isspace c = false /\ is_control c = false /\ is_surrogate c = false.
Proof.
  intros H. split; [destruct H; [apply hangul_not_space|apply jamo_not_space];
                    assumption|].
  assert (0x3131 <= c <= 0xD7A3) as Hc.
  { unfold is_hangul, is_jamo, is_consonant_jamo, is_vowel_jamo, in_range in H.
    destruct H as [H|H].
    - apply andb_true_iff in H as [H1 H2].
      apply Z.leb_le in H1. apply Z.leb_le in H2. lia.
    - apply orb_true_iff in H as [H|H]; apply andb_true_iff in H as [H1 H2];
        apply Z.leb_le in H1; apply Z.leb_le in H2; lia. }
  unfold is_control, is_surrogate, in_range. split.
  - repeat (apply orb_false_iff; split);
      first [ apply andb_false_iff; right; apply Z.leb_gt; lia
            | apply Z.eqb_neq; lia ].
  - apply andb_false_iff. left. apply Z.leb_gt. lia.
Qed.

Lemma length_remove_class (p : Z -> bool) (t : text) :
  (length (remove_class p t) <= length t)%nat.
Proof.
  induction t as [|c r IH]; [reflexivity|]. cbn [remove_class].
  destruct (p c); cbn [length]; lia.
Qed.

Lemma length_sub_spaces (t : text) :
  forall b, (length (sub_spaces b t) <= length t)%nat.
Proof.
  induction t as [|c r IH]; intros b; [reflexivity|]. cbn [sub_spaces].
  pose proof (IH true). pose proof (IH false).
  destruct (isspace c); [destruct b|]; cbn [length]; lia.
Qed.

Lemma length_lstrip (t : text) : (length (lstrip t) <= length t)%nat.
Proof.
  induction t as [|c r IH]; [reflexivity|]. cbn [lstrip].
  destruct (isspace c); cbn [length]; lia.
Qed.

Lemma length_rstrip (t : text) : (length (rstrip t) <= length t)%nat.
Proof.
  induction t as [|c r IH]; [reflexivity|]. cbn [rstrip].
  destruct (rstrip r) as [|c' r']; [destruct (isspace c)|];
    cbn [length] in *; lia.
Qed.

Lemma length_cleanup (t : text) : (length (cleanup t) <= length t)%nat.
Proof.
  rewrite cleanup_as_strip. unfold strip.
  eapply Nat.le_trans; [apply length_rstrip|].
  eapply Nat.le_trans; [apply length_lstrip|].
  eapply Nat.le_trans; [apply length_sub_spaces|].
  eapply Nat.le_trans; [apply length_remove_class|].
  apply length_remove_class.
Qed.

(** X13. Step 2 of the repairer only changes the order of the
    characters: after the six substitutions the text is a permutation of
    what it was, so no character is added, dropped or altered. *)
Theorem reorder_jamo_only_reorders (t : text) :
  Permutation (reorder_jamo t) t /\ length (reorder_jamo t) = length t.
Proof.
  pose proof (reorder_jamo_permutation t) as H.
  split; [exact H|]. apply Permutation_length. exact H.
Qed.

(** X14. The repairer never adds a character and never loses Korean:
    run without failure, its output is no longer than the text that
    enters step 2 (the input, or its NFC form when normalisation is
    on), and holds the same number of Hangul syllables and the same
    number of compatibility jamo. *)
Theorem repair_keeps_korean (rt : Runtime) (cfg : Config) (t : text)
        (w : World) :
  let base :=
    if broken_char_repair cfg && unicode_normalization cfg && nonempty t
    then normalize_NFC rt t else t in
  exists t',
    repair_korean_text rt no_failure cfg t w = (w, Ok t')
    /\ findall_class is_hangul t' = findall_class is_hangul base
    /\ findall_class is_jamo t' = findall_class is_jamo base
    /\ (length t' <= length base)%nat.
Proof.
  intros base. exists (repaired rt cfg t).
  split; [apply repair_no_failure|].
  unfold repaired, base. destruct t as [|c r].
  - rewrite !andb_false_r. auto.
  - cbn [nonempty]. rewrite andb_true_r.
    destruct (broken_char_repair cfg); cbn [andb]; [|auto].
    unfold normalize_and_reorder.
    set (x := if unicode_normalization cfg then normalize_NFC rt (c :: r)
              else c :: r).
    assert (forall p, (forall c, p c = true ->
                         is_hangul c = true \/ is_jamo c = true) ->
              findall_class p
                (cleanup (if font_recovery cfg then reorder_jamo x else x))
              = findall_class p x) as Hcount.
    { intros p Hp.
      rewrite findall_class_cleanup
        by (intros c0 Hc0; apply korean_is_kept, Hp, Hc0).
      destruct (font_recovery cfg); [|reflexivity].
      apply findall_class_permutation, reorder_jamo_permutation. }
    split; [apply Hcount; auto|]. split; [apply Hcount; auto|].
    eapply Nat.le_trans; [apply length_cleanup|].
    destruct (font_recovery cfg); [|reflexivity].
    rewrite (Permutation_length (reorder_jamo_permutation x)). reflexivity.
Qed.

Lemma tidy_chars (t : text) :
  forall b, tidy b t = true ->
            forall c, In c t ->
                      is_surrogate c = false /\ is_control c = false
                      /\ (isspace c = true -> c = SPACE).
Proof.
  intros b Ht c Hin.
  destruct (tidy_parts t b Ht) as (Hs & Hc & _).
  rewrite forallb_forall in Hs, Hc.
  pose proof (Hs c Hin) as H1. pose proof (Hc c Hin) as H2.
  apply negb_true_iff in H1. apply negb_true_iff in H2.
  split; [exact H1|]. split; [exact H2|].
  apply (tidy_spaces t b Ht c Hin).
Qed.

Lemma tidy_no_double_space (t : text) :
  forall b i, tidy b t = true ->
              nth_error t i = Some SPACE ->
              nth_error t (S i) <> Some SPACE.
Proof.
  induction t as [|c r IH]; intros b i Ht Hi; [destruct i; discriminate Hi|].
  cbn [tidy] in Ht. destruct i as [|i].
  - cbn [nth_error] in Hi. injection Hi as ->.
    change (isspace SPACE) with true in Ht. cbv iota in Ht.
    apply andb_true_iff in Ht as [_ Hr].
    cbn [nth_error]. destruct r as [|c2 r2]; [discriminate|].
    cbn [nth_error]. intros H. injection H as ->.
    cbn [tidy] in Hr. change (isspace SPACE) with true in Hr.
    cbv iota in Hr. rewrite andb_false_r in Hr. discriminate Hr.
  - cbn [nth_error] in Hi |- *.
    destruct (isspace c); apply andb_true_iff in Ht as [_ Hr];
      eapply IH; eassumption.
Qed.

(** X15. What the repairer, switched on and run without failure,
    returns: a text without surrogate code points and control
    characters, whose only white space is the character U+0020, never
    twice in a row and neither at the beginning nor at the end. *)
Theorem repaired_text_is_tidy (rt : Runtime) (cfg : Config) (t : text)
        (w : World) :
  broken_char_repair cfg = true ->
  exists t',
    repair_korean_text rt no_failure cfg t w = (w, Ok t')
    /\ (forall c, In c t' ->
                  is_surrogate c = false /\ is_control c = false
                  /\ (isspace c = true -> c = SPACE))
    /\ (forall i, nth_error t' i = Some SPACE ->
                  nth_error t' (S i) <> Some SPACE)
    /\ strip t' = t'.
Proof.
  intros Hon. exists (repaired rt cfg t).
  split; [apply repair_no_failure|].
  unfold repaired. rewrite Hon. destruct t as [|c r].
  - split; [intros c []|]. split; [intros [|i] H; discriminate H|reflexivity].
  - set (x := normalize_and_reorder rt cfg (c :: r)).
    pose proof (tidy_cleanup x) as Ht.
    split; [apply (tidy_chars _ _ Ht)|].
    split; [intros i; apply (tidy_no_double_space _ _ _ Ht)|].
    rewrite (cleanup_as_strip x). apply strip_strip.
Qed.

(** X15, run on a text with a surrogate, control characters and runs of
    mixed white space. *)
Lemma repaired_text_is_tidy_witness :
  exists t',
    repair_korean_text Posix.runtime no_failure
      (Posix.all_toggles smart_korean [] [])
      ([NL; 0xD800; 0x07] ++ py "가" ++ [SPACE; TAB; 0x1F; NL] ++ py "나"
       ++ [0x3000])
      Posix.fresh_world = (Posix.fresh_world, Ok t')
    /\ (forall c, In c t' ->
                  is_surrogate c = false /\ is_control c = false
                  /\ (isspace c = true -> c = SPACE))
    /\ (forall i, nth_error t' i = Some SPACE ->
                  nth_error t' (S i) <> Some SPACE)
    /\ strip t' = t'.
Proof.
  apply repaired_text_is_tidy. reflexivity.
Defined.

(** ** The adapters *)

Lemma findall_class_app (p : Z -> bool) (a b : text) :
  findall_class p (a ++ b) = (findall_class p a + findall_class p b)%nat.
Proof.
  induction a as [|c r IH]; [reflexivity|]. cbn [app findall_class].
  rewrite IH. destruct (p c); reflexivity.
Qed.

Lemma digits_are_digits (d : Decimal.uint) :
  Forall (fun c => 0x30 <= c <= 0x39) (digits d).
Proof.
  induction d; cbn [digits]; constructor; try assumption; lia.
Qed.

Lemma page_header_syllables (page_num : nat) :
  findall_class is_hangul (page_header page_num) = 3%nat.
Proof.
  unfold page_header, str_of_nat. rewrite !findall_class_app.
  assert (findall_class is_hangul (digits (Nat.to_uint (page_num + 1)))
          = 0%nat) as ->.
  { pose proof (digits_are_digits (Nat.to_uint (page_num + 1))) as H.
    induction H as [|c r Hc _ IH]; [reflexivity|].
    cbn [findall_class]. rewrite IH.
    unfold is_hangul, in_range.
    destruct (Z.leb_spec 0xAC00 c); [lia|reflexivity]. }
  vm_compute. reflexivity.
Qed.

Lemma repair_returns (rt : Runtime) (fl : Failures) (cfg : Config) (t : text) :
  returns (repair_korean_text rt fl cfg t).
Proof.
  intros w. unfold repair_korean_text.
  destruct t as [|c r]; [eexists _, _; reflexivity|].
  destruct (broken_char_repair cfg); cbn [negb]; [|eexists _, _; reflexivity].
  unfold try_except.
  destruct (repair_body rt fl cfg (c :: r) w) as [w1 [t1|e]];
    eexists _, _; reflexivity.
Qed.

Lemma syllables_not_blank (t : text) :
  (0 < findall_class is_hangul t)%nat -> nonempty (strip t) = true.
Proof.
  intros H. rewrite <- (findall_class_strip is_hangul hangul_not_space) in H.
  destruct (strip t); [cbn in H; lia|reflexivity].
Qed.

Lemma pypdf2_pages_with_separator (rt : Runtime) (fl : Failures)
      (cfg : Config) (texts : list text) :
  page_separator cfg = true ->
  forall (page_num : nat) (acc : text) (w : World),
    exists w' t,
      Adapters.pypdf2_pages rt fl cfg (map Ok texts) page_num acc w
      = (w', Ok t)
      /\ (findall_class is_hangul acc + 3 * length texts
          <= findall_class is_hangul t)%nat.
Proof.
  intros Hsep. induction texts as [|p rest IH]; intros page_num acc w.
  - exists w, acc. split; [reflexivity|]. cbn [length]. lia.
  - cbn [map Adapters.pypdf2_pages]. rewrite Hsep.
    unfold bind at 1. unfold lift at 1. unfold bind at 1.
    destruct (repair_returns rt fl cfg p w) as (w1 & p' & ->).
    destruct (IH (S page_num) ((acc ++ page_header page_num) ++ p' ++ [NL]) w1)
      as (w' & t & Hrun & Hcount).
    exists w', t. split; [exact Hrun|].
    rewrite !findall_class_app, page_header_syllables in Hcount.
    cbn [length]. lia.
Qed.

(** X16. With the page separator on, the PyPDF2 adapter returns, for a
    document of [n] pages it can read, a text with at least [3 n]
    Hangul syllables (those of "페이지" in every separator) whatever the
    pages hold; with one page or more the text is not blank, so that
    such a document is never taken for one without text. *)
Theorem pypdf2_separator_counts_as_korean (rt : Runtime) (fl : Failures)
        (cfg : Config) (lib : Libraries) (pdf_path : text)
        (texts : list text) (w : World) :
  PdfReader lib pdf_path = Ok (map Ok texts) ->
  page_separator cfg = true ->
  exists w' t,
    Adapters.extract_text_pypdf2 rt fl cfg lib pdf_path w = (w', Ok t)
    /\ (3 * length texts <= findall_class is_hangul t)%nat
    /\ (texts <> [] -> nonempty (strip t) = true).
Proof.
  intros Hlib Hsep. unfold Adapters.extract_text_pypdf2, bind, lift.
  rewrite Hlib.
  destruct (pypdf2_pages_with_separator rt fl cfg texts Hsep 0%nat [] w)
    as (w' & t & Hrun & Hcount).
  exists w', t. split; [exact Hrun|]. cbn [findall_class] in Hcount.
  split; [lia|]. intros Hne. apply syllables_not_blank.
  destruct texts; [contradiction|]. cbn [length] in Hcount. lia.
Qed.

Lemma pypdf2_separator_counts_as_korean_witness :
  exists w' t,
    Adapters.extract_text_pypdf2 Posix.runtime no_failure
      (Sample.config smart_korean) Booklet.libraries Sample.file_a
      Posix.fresh_world
    = (w', Ok t)
    /\ (3 * length [Booklet.page_1; []; Booklet.page_3]
        <= findall_class is_hangul t)%nat
    /\ ([Booklet.page_1; []; Booklet.page_3] <> []
        -> nonempty (strip t) = true).
Proof.
  apply (pypdf2_separator_counts_as_korean Posix.runtime no_failure
           (Sample.config smart_korean) Booklet.libraries Sample.file_a
           [Booklet.page_1; []; Booklet.page_3] Posix.fresh_world);
    reflexivity.
Defined.

Lemma pypdf2_pages_joined (rt : Runtime) (cfg : Config) (texts : list text) :
  page_separator cfg = false ->
  forall (page_num : nat) (acc : text) (w : World),
    Adapters.pypdf2_pages rt no_failure cfg (map Ok texts) page_num acc w
    = (w, Ok (acc ++ flat_map (fun p => repaired rt cfg p ++ [NL]) texts)).
Proof.
  intros Hsep. induction texts as [|p rest IH]; intros page_num acc w.
  - cbn. rewrite app_nil_r. reflexivity.
  - cbn [map Adapters.pypdf2_pages flat_map]. rewrite Hsep.
    unfold bind at 1. unfold lift at 1. unfold bind at 1.
    rewrite repair_no_failure, IH, <- !app_assoc. reflexivity.
Qed.

Lemma repaired_no_newline (rt : Runtime) (cfg : Config) (t : text) :
  broken_char_repair cfg = true ->
  findall_class (Z.eqb NL) (repaired rt cfg t) = 0%nat.
Proof.
  intros Hon. unfold repaired. rewrite Hon. destruct t as [|c r]; [reflexivity|].
  set (x := cleanup _).
  assert (~ In NL x) as Hno
      by (eapply tidy_no_newline_tab, tidy_cleanup).
  induction x as [|a x' IH]; [reflexivity|].
  cbn [findall_class]. destruct (Z.eqb_spec NL a) as [E|_].
  - contradiction Hno. left. symmetry. exact E.
  - apply IH. intros H. apply Hno. right. exact H.
Qed.

(** X17. Without separators the PyPDF2 adapter, run without failure,
    returns the repaired pages one after the other, each followed by a
    newline.  With the repairer on these are the only newlines of the
    text: as many as the document has pages. *)
Theorem pypdf2_joins_repaired_pages (rt : Runtime) (cfg : Config)
        (lib : Libraries) (pdf_path : text) (texts : list text) (w : World) :
  PdfReader lib pdf_path = Ok (map Ok texts) ->
  page_separator cfg = false ->
  exists t,
    Adapters.extract_text_pypdf2 rt no_failure cfg lib pdf_path w = (w, Ok t)
    /\ t = flat_map (fun p => repaired rt cfg p ++ [NL]) texts
    /\ (broken_char_repair cfg = true ->
        findall_class (Z.eqb NL) t = length texts).
Proof.
  intros Hlib Hsep. eexists. split; [|split; [reflexivity|]].
  - unfold Adapters.extract_text_pypdf2, bind, lift. rewrite Hlib.
    rewrite (pypdf2_pages_joined rt cfg texts Hsep). reflexivity.
  - intros Hon. clear Hlib. induction texts as [|p rest IH]; [reflexivity|].
    cbn [flat_map length]. rewrite !findall_class_app.
    rewrite (repaired_no_newline rt cfg p Hon).
    change (findall_class (Z.eqb NL) [NL]) with 1%nat.
    rewrite IH. reflexivity.
Qed.

Lemma pypdf2_joins_repaired_pages_witness :
  exists t,
    Adapters.extract_text_pypdf2 Posix.runtime no_failure Booklet.plain
      Booklet.libraries Sample.file_a Posix.fresh_world
    = (Posix.fresh_world, Ok t)
    /\ t = flat_map (fun p => repaired Posix.runtime Booklet.plain p ++ [NL])
                    [Booklet.page_1; []; Booklet.page_3]
    /\ (broken_char_repair Booklet.plain = true ->
        findall_class (Z.eqb NL) t
        = length [Booklet.page_1; []; Booklet.page_3]).
Proof.
  apply (pypdf2_joins_repaired_pages Posix.runtime Booklet.plain
           Booklet.libraries Sample.file_a
           [Booklet.page_1; []; Booklet.page_3] Posix.fresh_world);
    reflexivity.
Defined.

(** X18. The PyPDF2 adapter has no handler of its own: when a page
    cannot be read, the exception of that page reaches the caller as it
    is, and the text of the pages before it is lost. *)
Theorem pypdf2_page_failure_is_fatal (rt : Runtime) (fl : Failures)
        (cfg : Config) (lib : Libraries) (pdf_path : text)
        (before : list text) (e : exn) (after : list (result text))
        (w : World) :
  PdfReader lib pdf_path = Ok (map Ok before ++ Raise e :: after) ->
  exists w',
    Adapters.extract_text_pypdf2 rt fl cfg lib pdf_path w = (w', Raise e).
Proof.
  intros Hlib. unfold Adapters.extract_text_pypdf2, bind, lift. rewrite Hlib.
  clear Hlib. generalize 0%nat, (@nil Z). revert w.
  induction before as [|p rest IH]; intros w page_num acc.
  - exists w. reflexivity.
  - cbn [map app Adapters.pypdf2_pages]. unfold bind at 1. unfold lift at 1.
    unfold bind at 1.
    destruct (repair_returns rt fl cfg p w) as (w1 & p' & ->).
    apply IH.
Qed.

Lemma pypdf2_page_failure_is_fatal_witness :
  exists w',
    Adapters.extract_text_pypdf2 Posix.runtime no_failure Booklet.plain
      Booklet.libraries Sample.file_b Posix.fresh_world
    = (w', Raise (py "broken page")).
Proof.
  apply (pypdf2_page_failure_is_fatal Posix.runtime no_failure Booklet.plain
           Booklet.libraries Sample.file_b [Booklet.page_1]
           (py "broken page") [] Posix.fresh_world).
  reflexivity.
Defined.

Lemma pdfplumber_pages_skip (rt : Runtime) (fl : Failures) (cfg : Config)
      (pages : list (option text)) :
  page_separator cfg = false ->
  forall (n m : nat) (acc : text) (w : World),
    Adapters.pdfplumber_pages rt fl cfg (map Ok pages) n acc w
    = Adapters.pdfplumber_pages rt fl cfg
        (map Ok (List.filter has_text pages)) m acc w.
Proof.
  intros Hsep. induction pages as [|p rest IH]; intros n m acc w;
    [reflexivity|].
  cbn [map List.filter Adapters.pdfplumber_pages]. rewrite Hsep.
  unfold bind at 1. unfold lift at 1.
  destruct p as [[|c r]|]; cbn [has_text].
  - apply IH.
  - cbn [map Adapters.pdfplumber_pages]. rewrite Hsep.
    unfold bind at 2. unfold lift at 1. unfold bind.
    destruct (repair_korean_text rt fl cfg (c :: r) w) as [w1 [t1|e1]];
      [apply IH|reflexivity].
  - apply IH.
Qed.

(** X19. Without separators, the pages for which pdfplumber finds no
    text ([None] or the empty string) leave no trace in the result of
    its adapter: two documents that differ by such pages only are
    extracted alike, log included. *)
Theorem pdfplumber_ignores_pages_without_text (rt : Runtime) (fl : Failures)
        (cfg : Config) (lib : Libraries) (pdf_path bare_path : text)
        (pages : list (option text)) (w : World) :
  pdfplumber_open lib pdf_path = Ok (map Ok pages) ->
  pdfplumber_open lib bare_path
  = Ok (map Ok (List.filter has_text pages)) ->
  page_separator cfg = false ->
  Adapters.extract_text_pdfplumber rt fl cfg lib pdf_path w
  = Adapters.extract_text_pdfplumber rt fl cfg lib bare_path w.
Proof.
  intros H1 H2 Hsep. unfold Adapters.extract_text_pdfplumber, bind, lift.
  rewrite H1, H2. apply pdfplumber_pages_skip. exact Hsep.
Qed.

Lemma pdfplumber_ignores_pages_without_text_witness :
  Adapters.extract_text_pdfplumber Posix.runtime no_failure Booklet.plain
    Booklet.libraries Sample.file_a Posix.fresh_world
  = Adapters.extract_text_pdfplumber Posix.runtime no_failure Booklet.plain
      Booklet.libraries Sample.file_b Posix.fresh_world.
Proof.
  apply (pdfplumber_ignores_pages_without_text Posix.runtime no_failure
           Booklet.plain Booklet.libraries Sample.file_a Sample.file_b
           [Some Booklet.page_1; None; Some Booklet.page_3]
           Posix.fresh_world);
    reflexivity.
Defined.

Lemma pymupdf_pages_return (rt : Runtime) (fl : Failures) (cfg : Config)
      (pages : list FitzPage) :
  forall (page_num : nat) (acc : text) (w : World),
    exists w' t,
      Adapters.pymupdf_pages rt fl cfg (map Ok pages) page_num acc w
      = (w', Ok t)
      /\ (findall_class (Z.eqb NL) acc + length pages
          <= findall_class (Z.eqb NL) t)%nat.
Proof.
  induction pages as [|p rest IH]; intros page_num acc w.
  - exists w, acc. split; [reflexivity|]. cbn [length]. lia.
  - cbn [map Adapters.pymupdf_pages]. unfold bind at 1. unfold lift at 1.
    unfold bind at 1.
    match goal with
    | |- context [repair_korean_text rt fl cfg ?x w] =>
      destruct (repair_returns rt fl cfg x w) as (w1 & p' & ->)
    end.
    match goal with
    | |- context [Adapters.pymupdf_pages _ _ _ _ _ ?a w1] =>
      destruct (IH (S page_num) a w1) as (w' & t & Hrun & Hcount)
    end.
    exists w', t. split; [exact Hrun|].
    destruct (page_separator cfg); rewrite !findall_class_app in Hcount;
      change (findall_class (Z.eqb NL) [NL]) with 1%nat in Hcount;
      cbn [length]; lia.
Qed.

(** X20. Once the document is open, its pages load and it can be
    closed, the PyMuPDF adapter returns, whatever the three extraction
    methods of a page do (each may raise or return something of no
    use) and whatever fails inside the repairer; the text it returns
    has one newline or more for every page. *)
Theorem pymupdf_survives_page_methods (rt : Runtime) (fl : Failures)
        (cfg : Config) (lib : Libraries) (pdf_path : text)
        (pages : list FitzPage) (w : World) :
  fitz_open lib pdf_path = Ok {| load_page := map Ok pages; close := Ok tt |} ->
  exists w' t,
    Adapters.extract_text_pymupdf_korean rt fl cfg lib pdf_path w = (w', Ok t)
    /\ (length pages <= findall_class (Z.eqb NL) t)%nat.
Proof.
  intros Hlib. unfold Adapters.extract_text_pymupdf_korean, try_except.
  unfold bind at 1. unfold lift at 1. rewrite Hlib. cbn [load_page close].
  unfold bind at 1.
  destruct (pymupdf_pages_return rt fl cfg pages 0%nat [] w)
    as (w' & t & -> & Hcount).
  exists w', t. split; [reflexivity|]. exact Hcount.
Qed.

Lemma pymupdf_survives_page_methods_witness :
  exists w' t,
    Adapters.extract_text_pymupdf_korean Posix.runtime no_failure
      Booklet.plain Booklet.libraries Sample.file_a Posix.fresh_world
    = (w', Ok t)
    /\ (length [Booklet.fitz_page Booklet.page_1; Booklet.fitz_page [];
                Booklet.fitz_page Booklet.page_3]
        <= findall_class (Z.eqb NL) t)%nat.
Proof.
  apply (pymupdf_survives_page_methods Posix.runtime no_failure
           Booklet.plain Booklet.libraries Sample.file_a
           [Booklet.fitz_page Booklet.page_1; Booklet.fitz_page [];
            Booklet.fitz_page Booklet.page_3] Posix.fresh_world).
  reflexivity.
Defined.

Lemma pymupdf_pages_outcome (rt : Runtime) (fl : Failures) (cfg : Config)
      (pages : list (result FitzPage)) :
  forall (page_num : nat) (acc : text) (w : World),
    exists w' r,
      Adapters.pymupdf_pages rt fl cfg pages page_num acc w = (w', r)
      /\ match r with
         | Ok _ => Forall (fun p => exists page, p = Ok page) pages
         | Raise e => In (Raise e) pages
         end.
Proof.
  induction pages as [|[p|e] rest IH]; intros page_num acc w.
  - exists w, (Ok acc). split; [reflexivity|constructor].
  - cbn [Adapters.pymupdf_pages]. unfold bind at 1. unfold lift at 1.
    unfold bind at 1.
    match goal with
    | |- context [repair_korean_text rt fl cfg ?x w] =>
      destruct (repair_returns rt fl cfg x w) as (w1 & p' & ->)
    end.
    match goal with
    | |- context [Adapters.pymupdf_pages _ _ _ _ _ ?a w1] =>
      destruct (IH (S page_num) a w1) as (w' & r & Hrun & Hr)
    end.
    exists w', r. split; [exact Hrun|]. destruct r.
    + constructor; [eexists; reflexivity|exact Hr].
    + right. exact Hr.
  - exists w, (Raise e). split; [reflexivity|]. left. reflexivity.
Qed.

(** X21. Whatever the PyMuPDF adapter raises carries its own prefix
    before the message of the failure, and the failure is one of the
    library: the document did not open, a page did not load or the
    document did not close.  The repairer and the extraction methods
    of a page are never the cause. *)
Theorem pymupdf_failure_is_wrapped (rt : Runtime) (fl : Failures)
        (cfg : Config) (lib : Libraries) (pdf_path : text) (w w' : World)
        (e : exn) :
  Adapters.extract_text_pymupdf_korean rt fl cfg lib pdf_path w
  = (w', Raise e) ->
  exists cause,
    e = py "PyMuPDF 한글 추출 실패: " ++ cause
    /\ (fitz_open lib pdf_path = Raise cause
        \/ exists doc, fitz_open lib pdf_path = Ok doc
                       /\ (In (Raise cause) (load_page doc)
                           \/ close doc = Raise cause)).
Proof.
  unfold Adapters.extract_text_pymupdf_korean, try_except.
  unfold bind at 1. unfold lift at 1.
  destruct (fitz_open lib pdf_path) as [doc|cause] eqn:Hopen.
  - unfold bind at 1.
    destruct (pymupdf_pages_outcome rt fl cfg (load_page doc) 0%nat [] w)
      as (w1 & r & -> & Hr).
    destruct r as [t|cause].
    + unfold bind, lift, ret. destruct (close doc) as [[]|cause] eqn:Hclose.
      * discriminate.
      * unfold raise. intros [= <- <-]. exists cause.
        split; [reflexivity|]. right. exists doc. split; [reflexivity|].
        right. exact Hclose.
    + unfold raise. intros [= <- <-]. exists cause. split; [reflexivity|].
      right. exists doc. split; [reflexivity|]. left. exact Hr.
  - unfold raise. intros [= <- <-]. exists cause. split; [reflexivity|].
    left. reflexivity.
Qed.

Lemma pymupdf_failure_is_wrapped_witness :
  exists cause,
    py "PyMuPDF 한글 추출 실패: " ++ py "cannot read"
    = py "PyMuPDF 한글 추출 실패: " ++ cause
    /\ (fitz_open Booklet.libraries Sample.file_c = Raise cause
        \/ exists doc, fitz_open Booklet.libraries Sample.file_c = Ok doc
                       /\ (In (Raise cause) (load_page doc)
                           \/ close doc = Raise cause)).
Proof.
  apply (pymupdf_failure_is_wrapped Posix.runtime no_failure
           Booklet.plain Booklet.libraries Sample.file_c Posix.fresh_world
           Posix.fresh_world).
  reflexivity.
Defined.

(** X22. The pdfminer adapter fails when the library fails, and only
    then: the failure of the library comes back with the adapter's
    prefix, and a text the library returns is always answered by a
    text, the one of the repairer, whatever fails inside it. *)
Theorem pdfminer_fails_only_with_library (rt : Runtime) (fl : Failures)
        (cfg : Config) (lib : Libraries) (pdf_path : text) (w : World) :
  match pdfminer_extract_text lib pdf_path with
  | Ok t =>
    Adapters.extract_text_pdfminer rt fl cfg lib pdf_path w
    = repair_korean_text rt fl cfg t w
    /\ exists w' t',
        Adapters.extract_text_pdfminer rt fl cfg lib pdf_path w = (w', Ok t')
  | Raise e =>
    Adapters.extract_text_pdfminer rt fl cfg lib pdf_path w
    = (w, Raise (py "pdfminer 추출 실패: " ++ e))
  end.
Proof.
  unfold Adapters.extract_text_pdfminer, try_except, bind, lift.
  destruct (pdfminer_extract_text lib pdf_path) as [t|e]; [|reflexivity].
  destruct (repair_returns rt fl cfg t w) as (w' & t' & ->).
  split; [reflexivity|]. exists w', t'. reflexivity.
Qed.

Lemma add_span_app (spans : list span) (acc : text) :
  fold_left Adapters.add_span spans acc
  = acc ++ fold_left Adapters.add_span spans [].
Proof.
  revert acc. induction spans as [|s rest IH]; intros acc.
  - cbn. rewrite app_nil_r. reflexivity.
  - cbn [fold_left]. rewrite IH, (IH (Adapters.add_span [] s)).
    destruct s; cbn [Adapters.add_span app].
    + rewrite app_assoc. reflexivity.
    + reflexivity.
Qed.

Lemma add_line_app (lines : list line) (acc : text) :
  fold_left Adapters.add_line lines acc
  = acc ++ fold_left Adapters.add_line lines [].
Proof.
  revert acc. induction lines as [|l rest IH]; intros acc.
  - cbn. rewrite app_nil_r. reflexivity.
  - cbn [fold_left]. rewrite IH, (IH (Adapters.add_line [] l)).
    rewrite app_assoc. f_equal.
    destruct l; unfold Adapters.add_line.
    + rewrite add_span_app, app_assoc. reflexivity.
    + reflexivity.
Qed.

Lemma add_block_app (blocks : list block) (acc : text) :
  fold_left Adapters.add_block blocks acc
  = acc ++ fold_left Adapters.add_block blocks [].
Proof.
  revert acc. induction blocks as [|b rest IH]; intros acc.
  - cbn. rewrite app_nil_r. reflexivity.
  - cbn [fold_left]. rewrite IH, (IH (Adapters.add_block [] b)).
    rewrite app_assoc. f_equal.
    destruct b as [lines|t| |[t|]|]; cbn [Adapters.add_block app];
      try (rewrite app_nil_r; reflexivity); try reflexivity.
    apply add_line_app.
Qed.

(** X23. [extract_from_blocks] reads every block for itself: the text
    of a list of blocks is the texts of its blocks one after the other,
    so that of two lists put together is the two texts put together;
    and the blocks it has no use for (a dict without lines and text, a
    short or textless tuple, anything else) add nothing. *)
Theorem extract_from_blocks_concat (blocks more : list block) :
  Adapters.extract_from_blocks blocks = flat_map block_own_text blocks
  /\ Adapters.extract_from_blocks (blocks ++ more)
     = Adapters.extract_from_blocks blocks
       ++ Adapters.extract_from_blocks more
  /\ Adapters.extract_from_blocks
       (List.filter (fun b => nonempty (block_own_text b)) blocks)
     = Adapters.extract_from_blocks blocks.
Proof.
  assert (forall l, Adapters.extract_from_blocks l
                    = flat_map block_own_text l) as Hflat.
  { induction l as [|b rest IH]; [reflexivity|].
    unfold Adapters.extract_from_blocks in *. cbn [fold_left flat_map].
    rewrite add_block_app, IH. reflexivity. }
  split; [apply Hflat|]. split.
  - rewrite !Hflat, flat_map_app. reflexivity.
  - rewrite !Hflat. induction blocks as [|b rest IH]; [reflexivity|].
    cbn [List.filter flat_map].
    destruct (block_own_text b) eqn:E; cbn [nonempty].
    + exact IH.
    + cbn [flat_map]. rewrite E, IH. reflexivity.
Qed.

Lemma logs_lift {A} (r : result A) : logs_repair_errors (lift r).
Proof. intros w. exists []. rewrite app_nil_r. split; reflexivity. Qed.

Lemma logs_ret {A} (a : A) : logs_repair_errors (ret a).
Proof. intros w. exists []. rewrite app_nil_r. split; reflexivity. Qed.

Lemma logs_raise {A} (e : exn) : logs_repair_errors (@raise A e).
Proof. intros w. exists []. rewrite app_nil_r. split; reflexivity. Qed.

Lemma logs_bind {A B} (m : M A) (k : A -> M B) :
  logs_repair_errors m -> (forall a, logs_repair_errors (k a)) ->
  logs_repair_errors (bind m k).
Proof.
  intros Hm Hk w. destruct (Hm w) as (evs & E & F). unfold bind.
  destruct (m w) as [w1 [a|e]]; cbn [fst] in E.
  - destruct (Hk a w1) as (evs2 & E2 & F2). exists (evs ++ evs2).
    rewrite E2, E, app_assoc, forallb_app, F, F2. split; reflexivity.
  - exists evs. split; [exact E|exact F].
Qed.

Lemma logs_try_except {A} (m : M A) (h : exn -> M A) :
  logs_repair_errors m -> (forall e, logs_repair_errors (h e)) ->
  logs_repair_errors (try_except m h).
Proof.
  intros Hm Hh w. destruct (Hm w) as (evs & E & F). unfold try_except.
  destruct (m w) as [w1 [a|e]]; cbn [fst] in E.
  - exists evs. split; [exact E|exact F].
  - destruct (Hh e w1) as (evs2 & E2 & F2). exists (evs ++ evs2).
    rewrite E2, E, app_assoc, forallb_app, F, F2. split; reflexivity.
Qed.

Lemma logs_repair (rt : Runtime) (fl : Failures) (cfg : Config) (t : text) :
  logs_repair_errors (repair_korean_text rt fl cfg t).
Proof.
  unfold repair_korean_text.
  destruct t as [|c r]; [apply logs_ret|].
  destruct (broken_char_repair cfg); cbn [negb]; [|apply logs_ret].
  intros w. unfold try_except.
  pose proof (repair_body_world rt fl cfg (c :: r) w) as Hw.
  destruct (repair_body rt fl cfg (c :: r) w) as [w1 [t1|e]];
    cbn [fst] in Hw; subst w1.
  - exists []. rewrite app_nil_r. split; reflexivity.
  - exists [LogRepairError e]. split; reflexivity.
Qed.

Lemma silent_lift {A} (r : result A) : silent (lift r).
Proof. intros w. reflexivity. Qed.

Lemma silent_bind {A B} (m : M A) (k : A -> M B) :
  silent m -> (forall a, silent (k a)) -> silent (bind m k).
Proof.
  intros Hm Hk w. pose proof (Hm w) as E. unfold bind.
  destruct (m w) as [w1 [a|e]]; cbn [fst] in E.
  - rewrite (Hk a w1). exact E.
  - exact E.
Qed.

Lemma silent_try_except {A} (m : M A) (h : exn -> M A) :
  silent m -> (forall e, silent (h e)) -> silent (try_except m h).
Proof.
  intros Hm Hh w. pose proof (Hm w) as E. unfold try_except.
  destruct (m w) as [w1 [a|e]]; cbn [fst] in E.
  - exact E.
  - rewrite (Hh e w1). exact E.
Qed.

Lemma silent_repair (rt : Runtime) (cfg : Config) (t : text) :
  silent (repair_korean_text rt no_failure cfg t).
Proof. intros w. rewrite repair_no_failure. reflexivity. Qed.

(** X24. The adapters write to the log only through the repairer:
    whatever fails, in a library or inside the repairer, every event
    one of the four adapters adds to the log is an error report of the
    repairer; and when nothing fails inside the repairer they add none,
    whether they return or raise. *)
Theorem adapters_log_only_repair_errors (rt : Runtime) (fl : Failures)
        (cfg : Config) (lib : Libraries) (pdf_path : text) :
  (logs_repair_errors (Adapters.extract_text_pdfminer rt fl cfg lib pdf_path)
   /\ logs_repair_errors
        (Adapters.extract_text_pymupdf_korean rt fl cfg lib pdf_path)
   /\ logs_repair_errors
        (Adapters.extract_text_pdfplumber rt fl cfg lib pdf_path)
   /\ logs_repair_errors
        (Adapters.extract_text_pypdf2 rt fl cfg lib pdf_path))
  /\ (silent (Adapters.extract_text_pdfminer rt no_failure cfg lib pdf_path)
      /\ silent
           (Adapters.extract_text_pymupdf_korean rt no_failure cfg lib
              pdf_path)
      /\ silent
           (Adapters.extract_text_pdfplumber rt no_failure cfg lib pdf_path)
      /\ silent
           (Adapters.extract_text_pypdf2 rt no_failure cfg lib pdf_path)).
Proof.
  assert (forall fl' pages n acc,
             logs_repair_errors (Adapters.pymupdf_pages rt fl' cfg pages n acc))
    as Lmu.
  { intros fl'. induction pages as [|p rest IH]; intros n acc.
    - apply logs_ret.
    - cbn [Adapters.pymupdf_pages]. apply logs_bind; [apply logs_lift|].
      intros page. apply logs_bind; [apply logs_repair|]. intros t. apply IH. }
  assert (forall fl' pages n acc,
             logs_repair_errors
               (Adapters.pdfplumber_pages rt fl' cfg pages n acc)) as Lpl.
  { intros fl'. induction pages as [|p rest IH]; intros n acc.
    - apply logs_ret.
    - cbn [Adapters.pdfplumber_pages]. apply logs_bind; [apply logs_lift|].
      intros [[|c t]|]; [apply IH| |apply IH].
      apply logs_bind; [apply logs_repair|]. intros t'. apply IH. }
  assert (forall fl' pages n acc,
             logs_repair_errors (Adapters.pypdf2_pages rt fl' cfg pages n acc))
    as Lpy.
  { intros fl'. induction pages as [|p rest IH]; intros n acc.
    - apply logs_ret.
    - cbn [Adapters.pypdf2_pages]. apply logs_bind; [apply logs_lift|].
      intros t. apply logs_bind; [apply logs_repair|]. intros t'. apply IH. }
  assert (forall pages n acc,
             silent (Adapters.pymupdf_pages rt no_failure cfg pages n acc))
    as Smu.
  { induction pages as [|p rest IH]; intros n acc.
    - intros w. reflexivity.
    - cbn [Adapters.pymupdf_pages]. apply silent_bind; [apply silent_lift|].
      intros page. apply silent_bind; [apply silent_repair|].
      intros t. apply IH. }
  assert (forall pages n acc,
             silent (Adapters.pdfplumber_pages rt no_failure cfg pages n acc))
    as Spl.
  { induction pages as [|p rest IH]; intros n acc.
    - intros w. reflexivity.
    - cbn [Adapters.pdfplumber_pages]. apply silent_bind; [apply silent_lift|].
      intros [[|c t]|]; [apply IH| |apply IH].
      apply silent_bind; [apply silent_repair|]. intros t'. apply IH. }
  assert (forall pages n acc,
             silent (Adapters.pypdf2_pages rt no_failure cfg pages n acc))
    as Spy.
  { induction pages as [|p rest IH]; intros n acc.
    - intros w. reflexivity.
    - cbn [Adapters.pypdf2_pages]. apply silent_bind; [apply silent_lift|].
      intros t. apply silent_bind; [apply silent_repair|].
      intros t'. apply IH. }
  split; (split; [|split; [|split]]).
  - apply logs_try_except; [|intros e; apply logs_raise].
    apply logs_bind; [apply logs_lift|]. intros t. apply logs_repair.
  - apply logs_try_except; [|intros e; apply logs_raise].
    apply logs_bind; [apply logs_lift|]. intros doc.
    apply logs_bind; [apply Lmu|]. intros t.
    apply logs_bind; [apply logs_lift|]. intros _. apply logs_ret.
  - apply logs_bind; [apply logs_lift|]. intros pages. apply Lpl.
  - apply logs_bind; [apply logs_lift|]. intros pages. apply Lpy.
  - apply silent_try_except; [|intros e w; reflexivity].
    apply silent_bind; [apply silent_lift|]. intros t. apply silent_repair.
  - apply silent_try_except; [|intros e w; reflexivity].
    apply silent_bind; [apply silent_lift|]. intros doc.
    apply silent_bind; [apply Smu|]. intros t.
    apply silent_bind; [apply silent_lift|]. intros _ w. reflexivity.
  - apply silent_bind; [apply silent_lift|]. intros pages. apply Spl.
  - apply silent_bind; [apply silent_lift|]. intros pages. apply Spy.
Qed.

(** X25. [check_libraries] lets the program start exactly when the
    smart selector has a method to try, and lists as many libraries as
    the selector has methods. *)
Theorem check_libraries_matches_selector (bk : Backends) :
  match check_libraries bk with
  | Ok available_methods =>
    length available_methods = length (smart_methods bk)
    /\ smart_methods bk <> []
  | Raise _ => smart_methods bk = []
  end.
Proof.
  unfold check_libraries, smart_methods.
  destruct (PYPDF2_AVAILABLE bk), (PDFPLUMBER_AVAILABLE bk),
    (PYMUPDF_AVAILABLE bk), (PDFMINER_AVAILABLE bk);
    cbn [app length]; first [reflexivity | split; [reflexivity|discriminate]].
Qed.

(** ** The file list *)

Lemma listed_In (path : text) (g : Gui.Window) :
  Gui.listed path g = true <-> In path (Gui.pdf_files g).
Proof.
  unfold Gui.listed. rewrite existsb_exists. split.
  - intros (x & Hin & Heq). unfold text_eqb in Heq.
    apply bool_decide_eq_true in Heq. subst x. exact Hin.
  - intros Hin. exists path. split; [exact Hin|].
    unfold text_eqb. apply bool_decide_eq_true. reflexivity.
Qed.

Lemma listed_false (path : text) (g : Gui.Window) :
  Gui.listed path g = false -> ~ In path (Gui.pdf_files g).
Proof.
  intros H Hin. apply listed_In in Hin. congruence.
Qed.

Lemma in_step_append (path line : text) (g : Gui.Window) :
  Gui.in_step g -> Gui.listed path g = false ->
  Gui.in_step (Gui.append path line g).
Proof.
  intros [Hlen Hnd] Hnew. split; cbn [Gui.append Gui.pdf_files Gui.file_listbox].
  - rewrite !length_app, Hlen. reflexivity.
  - apply List.NoDup_app; [exact Hnd|constructor; [intros []|constructor]|].
    intros x Hx [<-|[]]. exact (listed_false _ _ Hnew Hx).
Qed.

Lemma in_step_add_each (rt : Runtime) (files : list text) :
  forall g, Gui.in_step g -> Gui.in_step (Gui.add_each rt files g).
Proof.
  induction files as [|f rest IH]; intros g Hg; [exact Hg|].
  cbn [Gui.add_each]. apply IH.
  destruct (Gui.listed f g) eqn:E; cbn [negb]; [exact Hg|].
  apply in_step_append; assumption.
Qed.

Lemma in_step_add_from (rt : Runtime) (folder : text) (names : list text) :
  forall n g, Gui.in_step g ->
              Gui.in_step (fst (Gui.add_from rt folder names n g)).
Proof.
  induction names as [|f rest IH]; intros n g Hg; [exact Hg|].
  cbn [Gui.add_from].
  destruct (Gui.listed (os_path_join rt folder f) g) eqn:E; cbn [negb].
  - apply IH. exact Hg.
  - apply IH. apply in_step_append; assumption.
Qed.

Lemma In_drop {A} (x : A) (l : list A) :
  forall i, In x (firstn i l ++ skipn (S i) l) -> In x l.
Proof.
  induction l as [|y r IH]; intros i H.
  - destruct i; exact H.
  - destruct i as [|i]; [right; exact H|].
    destruct H as [H|H]; [left; exact H|right; exact (IH i H)].
Qed.

Lemma NoDup_drop {A} (l : list A) :
  forall i, List.NoDup l -> List.NoDup (firstn i l ++ skipn (S i) l).
Proof.
  induction l as [|y r IH]; intros i H.
  - destruct i; exact H.
  - inversion H as [|? ? Hy Hr]; subst.
    destruct i as [|i]; [exact Hr|].
    cbn [firstn skipn app]. constructor; [|apply IH; exact Hr].
    intros Hin. apply Hy. exact (In_drop _ _ _ Hin).
Qed.

Lemma length_drop {A} (i : nat) (l : list A) :
  length (firstn i l ++ skipn (S i) l)
  = if (i <? length l)%nat then (length l - 1)%nat else length l.
Proof.
  rewrite length_app, length_firstn, length_skipn.
  destruct (Nat.ltb_spec i (length l)); lia.
Qed.

Lemma in_step_remove_each (indices : list nat) :
  forall g, Gui.in_step g -> Gui.in_step (fst (Gui.remove_each indices g)).
Proof.
  induction indices as [|i rest IH]; intros g [Hlen Hnd]; [split; assumption|].
  cbn [Gui.remove_each]. unfold Gui.del_item, Gui.listbox_delete.
  destruct (Nat.ltb_spec i (length (Gui.pdf_files g))) as [Hi|Hi].
  - apply IH. split; cbn [Gui.pdf_files Gui.file_listbox].
    + rewrite !length_drop, Hlen. reflexivity.
    + apply NoDup_drop. exact Hnd.
  - split; cbn [fst Gui.pdf_files Gui.file_listbox]; [|exact Hnd].
    rewrite length_drop, Hlen.
    destruct (Nat.ltb_spec i (length (Gui.pdf_files g))); [lia|reflexivity].
Qed.

Lemma in_step_lists (g g' : Gui.Window) :
  Gui.pdf_files g' = Gui.pdf_files g ->
  Gui.file_listbox g' = Gui.file_listbox g ->
  Gui.in_step g -> Gui.in_step g'.
Proof.
  unfold Gui.in_step. intros -> ->. exact (fun H => H).
Qed.

Lemma in_step_perform (rt : Runtime) (dk : Gui.Desktop) (g : Gui.Window)
      (a : Gui.action) :
  Gui.in_step g -> Gui.in_step (Gui.perform rt dk g a).
Proof.
  intros Hg. destruct a as [files|folder| |sel|folder]; cbn [Gui.perform].
  - unfold Gui.add_files.
    apply (in_step_lists (Gui.add_each rt files g)); [reflexivity..|].
    apply in_step_add_each. exact Hg.
  - unfold Gui.add_folder. destruct (nonempty folder); [|exact Hg].
    destruct (Gui.os_listdir dk folder) as [names|e]; [|exact Hg].
    pose proof (in_step_add_from rt folder
                  (List.filter
                     (fun f => Gui.endswith (py ".pdf") (Gui.lower dk f))
                     names) 0 g Hg) as H.
    destruct (Gui.add_from rt folder _ 0 g) as [g1 n]. cbn [fst] in *.
    apply (in_step_lists g1); [reflexivity..|exact H].
  - split; [reflexivity|constructor].
  - unfold Gui.remove_selected.
    pose proof (in_step_remove_each (rev sel) g Hg) as H.
    destruct (Gui.remove_each (rev sel) g) as [g1 [[]|e]]; cbn [fst] in *.
    + apply (in_step_lists g1); [reflexivity..|exact H].
    + exact H.
  - unfold Gui.select_output_folder. destruct (nonempty folder); [|exact Hg].
    apply (in_step_lists g); [reflexivity..|exact Hg].
Qed.

(** X26. Whatever the user does with the file list, in whatever order
    (adding files or a folder, clearing, removing a selection, choosing
    the output folder, a callback that raises included), the list box
    keeps one line for every file of [pdf_files] and no file is listed
    twice. *)
Theorem file_list_stays_in_step (rt : Runtime) (dk : Gui.Desktop)
        (actions : list Gui.action) :
  Gui.in_step (fold_left (Gui.perform rt dk) actions Gui.initial).
Proof.
  assert (Gui.in_step Gui.initial) as H by (split; [reflexivity|constructor]).
  revert H. generalize Gui.initial.
  induction actions as [|a rest IH]; intros g Hg; [exact Hg|].
  cbn [fold_left]. apply IH. apply in_step_perform. exact Hg.
Qed.

Lemma unselected_below (selected : list nat) (l : list text) :
  forall k, (forall j, In j selected -> (j < k)%nat) ->
            Gui.unselected selected k l = l.
Proof.
  induction l as [|x r IH]; intros k Hk; [reflexivity|].
  cbn [Gui.unselected].
  assert (existsb (Nat.eqb k) selected = false) as ->.
  { apply not_true_is_false. intros H. apply existsb_exists in H.
    destruct H as (j & Hj & E). apply Nat.eqb_eq in E. subst j.
    specialize (Hk k Hj). lia. }
  rewrite IH; [reflexivity|]. intros j Hj. specialize (Hk j Hj). lia.
Qed.

Lemma unselected_drop (selected : list nat) (l : list text) :
  forall k i,
    (i < length l)%nat ->
    (forall j, In j selected -> (j < k + i)%nat) ->
    Gui.unselected selected k (firstn i l ++ skipn (S i) l)
    = Gui.unselected (selected ++ [(k + i)%nat]) k l.
Proof.
  induction l as [|x r IH]; intros k i Hi Hsel; [cbn in Hi; lia|].
  destruct i as [|i].
  - cbn [firstn skipn app Gui.unselected].
    rewrite existsb_app. cbn [existsb]. rewrite Nat.add_0_r, Nat.eqb_refl.
    cbn [orb]. rewrite orb_true_r.
    rewrite !unselected_below; [reflexivity| |].
    + intros j Hj. apply in_app_or in Hj. destruct Hj as [Hj|[<-|[]]].
      * specialize (Hsel j Hj). lia.
      * lia.
    + intros j Hj. specialize (Hsel j Hj). lia.
  - cbn [firstn skipn app Gui.unselected].
    rewrite existsb_app. cbn [existsb].
    assert ((k =? k + S i)%nat = false) as -> by (apply Nat.eqb_neq; lia).
    cbn [orb]. rewrite orb_false_r.
    replace (k + S i)%nat with (S k + i)%nat by lia.
    rewrite (IH (S k) i); [reflexivity| |].
    + cbn [length] in Hi. lia.
    + intros j Hj. specialize (Hsel j Hj). lia.
Qed.

Lemma ascending_below_snoc (n i : nat) (selected : list nat) :
  Gui.ascending_below n (selected ++ [i]) = true ->
  Gui.ascending_below i selected = true /\ (i < n)%nat.
Proof.
  induction selected as [|a rest IH].
  - cbn. rewrite !andb_true_r. intros H. apply Nat.ltb_lt in H.
    split; [reflexivity|exact H].
  - cbn [app Gui.ascending_below]. intros H.
    apply andb_prop in H. destruct H as [H H3].
    apply andb_prop in H. destruct H as [H1 H2].
    destruct (IH H3) as [IH1 IH2]. split; [|exact IH2].
    rewrite IH1, andb_true_r.
    destruct rest as [|b rest'].
    + cbn [app] in H2. rewrite H2. reflexivity.
    + cbn [app] in H2. rewrite H2, andb_true_r.
      cbn [Gui.ascending_below] in IH1.
      apply andb_prop in IH1. destruct IH1 as [IH1 _].
      apply andb_prop in IH1. destruct IH1 as [IH1 _].
      apply Nat.ltb_lt in IH1, H2. apply Nat.ltb_lt. lia.
Qed.

Lemma ascending_below_In (n : nat) (selected : list nat) :
  Gui.ascending_below n selected = true ->
  forall j, In j selected -> (j < n)%nat.
Proof.
  induction selected as [|a rest IH]; intros H j Hj; [destruct Hj|].
  cbn [Gui.ascending_below] in H.
  apply andb_prop in H. destruct H as [H H3].
  apply andb_prop in H. destruct H as [H1 _].
  destruct Hj as [<-|Hj]; [apply Nat.ltb_lt; exact H1|].
  apply IH; assumption.
Qed.

Lemma ascending_below_le (n m : nat) (selected : list nat) :
  (n <= m)%nat ->
  Gui.ascending_below n selected = true ->
  Gui.ascending_below m selected = true.
Proof.
  intros Hle. induction selected as [|a rest IH]; [reflexivity|].
  cbn [Gui.ascending_below]. intros H.
  apply andb_prop in H. destruct H as [H H3].
  apply andb_prop in H. destruct H as [H1 H2].
  rewrite (IH H3), H2, !andb_true_r.
  apply Nat.ltb_lt in H1. apply Nat.ltb_lt. lia.
Qed.

Lemma remove_each_rev (selected : list nat) :
  forall g,
    length (Gui.file_listbox g) = length (Gui.pdf_files g) ->
    Gui.ascending_below (length (Gui.pdf_files g)) selected = true ->
    Gui.remove_each (rev selected) g
    = ({| Gui.pdf_files := Gui.unselected selected 0 (Gui.pdf_files g);
          Gui.file_listbox := Gui.unselected selected 0 (Gui.file_listbox g);
          Gui.output_path := Gui.output_path g;
          Gui.progress_label := Gui.progress_label g;
          Gui.log_text := Gui.log_text g |}, Ok tt)
    /\ (length (Gui.unselected selected 0 (Gui.pdf_files g))
        + length selected)%nat
       = length (Gui.pdf_files g).
Proof.
  induction selected as [|i s IH] using rev_ind; intros g Hlen Hsel.
  - cbn [rev Gui.remove_each length].
    rewrite !unselected_below by (intros j []).
    split; [destruct g; reflexivity|lia].
  - apply ascending_below_snoc in Hsel. destruct Hsel as [Hs Hi].
    rewrite rev_unit. cbn [Gui.remove_each].
    unfold Gui.del_item, Gui.listbox_delete.
    destruct (Nat.ltb_spec i (length (Gui.pdf_files g))) as [_|?]; [|lia].
    match goal with
    | |- context [Gui.remove_each (rev s) ?g1] =>
      destruct (IH g1) as [IHrun IHlen]
    end.
    + cbn [Gui.pdf_files Gui.file_listbox]. rewrite !length_drop, Hlen.
      reflexivity.
    + cbn [Gui.pdf_files]. rewrite length_drop.
      destruct (Nat.ltb_spec i (length (Gui.pdf_files g))); [|lia].
      apply (ascending_below_le i); [lia|exact Hs].
    + rewrite IHrun. cbn [Gui.pdf_files Gui.file_listbox Gui.output_path
                           Gui.progress_label Gui.log_text] in *.
      pose proof (ascending_below_In i s Hs) as Hin.
      rewrite (unselected_drop s (Gui.pdf_files g) 0 i Hi Hin) in *.
      rewrite (unselected_drop s (Gui.file_listbox g) 0 i) by
          (rewrite ?Hlen; assumption).
      cbn [Nat.add] in *. split; [reflexivity|].
      rewrite length_app. cbn [length].
      rewrite length_drop in IHlen.
      destruct (Nat.ltb_spec i (length (Gui.pdf_files g))); lia.
Qed.

(** X27. For a selection as the list box reports it (ascending indices
    of lines it has) and a list box in step with the file list,
    [remove_selected] does not raise and removes from both lists the
    items at the selected indices and nothing else, the others keeping
    their order: walking the selection backwards keeps the indices
    still to come valid. *)
Theorem remove_selected_removes_selection (rt : Runtime) (dk : Gui.Desktop)
        (selected_indices : list nat) (g : Gui.Window) :
  length (Gui.file_listbox g) = length (Gui.pdf_files g) ->
  Gui.ascending_below (length (Gui.file_listbox g)) selected_indices = true ->
  exists g',
    Gui.remove_selected dk selected_indices g = (g', Ok tt)
    /\ Gui.pdf_files g' = Gui.unselected selected_indices 0 (Gui.pdf_files g)
    /\ Gui.file_listbox g'
       = Gui.unselected selected_indices 0 (Gui.file_listbox g)
    /\ (length (Gui.pdf_files g') + length selected_indices)%nat
       = length (Gui.pdf_files g).
Proof.
  intros Hlen Hsel. rewrite Hlen in Hsel.
  destruct (remove_each_rev selected_indices g Hlen Hsel) as [Hrun Hcount].
  unfold Gui.remove_selected. rewrite Hrun. eexists. split; [reflexivity|].
  cbn [Gui.update_file_count Gui.pdf_files Gui.file_listbox].
  repeat split. exact Hcount.
Qed.

Lemma remove_selected_removes_selection_witness :
  exists g',
    Gui.remove_selected Desk.desktop [0%nat; 2%nat] Desk.three_files
    = (g', Ok tt)
    /\ Gui.pdf_files g'
       = Gui.unselected [0%nat; 2%nat] 0 (Gui.pdf_files Desk.three_files)
    /\ Gui.file_listbox g'
       = Gui.unselected [0%nat; 2%nat] 0 (Gui.file_listbox Desk.three_files)
    /\ (length (Gui.pdf_files g') + length [0%nat; 2%nat])%nat
       = length (Gui.pdf_files Desk.three_files).
Proof.
  apply (remove_selected_removes_selection Posix.runtime Desk.desktop
           [0%nat; 2%nat] Desk.three_files); vm_compute; reflexivity.
Defined.

Example dirname_examples :
  Desk.dirname Sample.file_a = py "/in"
  /\ Desk.dirname (py "/a.pdf") = py "/"
  /\ Desk.dirname (py "a.pdf") = []
  /\ Desk.dirname (py "/x//y.pdf") = py "/x".
Proof. vm_compute. repeat split. Qed.

Example folder_example :
  Gui.pdf_files
    (fst (Gui.add_folder Posix.runtime Desk.desktop Desk.folder
            Desk.three_files))
  = [Sample.file_a; Sample.file_b; Sample.file_c; py "/in/B.PDF"]
  /\ Gui.output_path Desk.three_files = py "/in".
Proof. vm_compute. repeat split. Qed.

Lemma add_each_listed (rt : Runtime) (files : list text) (g : Gui.Window) :
  (forall f, In f files -> In f (Gui.pdf_files g)) ->
  Gui.add_each rt files g = g.
Proof.
  induction files as [|f rest IH]; intros H; [reflexivity|].
  cbn [Gui.add_each].
  assert (Gui.listed f g = true) as ->
      by (apply listed_In, H; left; reflexivity).
  cbn [negb]. apply IH. intros x Hx. apply H. right. exact Hx.
Qed.

Lemma add_each_grows (rt : Runtime) (files : list text) :
  forall g, exists new,
      Gui.pdf_files (Gui.add_each rt files g) = Gui.pdf_files g ++ new
      /\ incl new files
      /\ incl files (Gui.pdf_files g ++ new)
      /\ Gui.output_path (Gui.add_each rt files g) = Gui.output_path g.
Proof.
  induction files as [|f rest IH]; intros g.
  - exists []. rewrite app_nil_r. repeat split; intros x [].
  - cbn [Gui.add_each]. destruct (Gui.listed f g) eqn:E; cbn [negb].
    + destruct (IH g) as (new & Hnew & Hin & Hall & Hout). exists new.
      split; [exact Hnew|]. split; [intros x Hx; right; exact (Hin x Hx)|].
      split; [|exact Hout]. intros x [<-|Hx]; [|exact (Hall x Hx)].
      apply in_or_app. left. apply listed_In. exact E.
    + destruct (IH (Gui.append f (os_path_basename rt f) g))
        as (new & Hnew & Hin & Hall & Hout).
      cbn [Gui.append Gui.pdf_files Gui.output_path] in Hnew, Hall, Hout.
      rewrite <- app_assoc in Hnew, Hall. exists ([f] ++ new).
      split; [exact Hnew|]. split; [|split; [|exact Hout]].
      * intros x [<-|Hx]; [left; reflexivity|right; exact (Hin x Hx)].
      * intros x [<-|Hx]; [|exact (Hall x Hx)].
        apply in_or_app. right. left. reflexivity.
Qed.

Lemma update_file_count_twice (dk : Gui.Desktop) (g : Gui.Window) :
  Gui.update_file_count dk (Gui.update_file_count dk g)
  = Gui.update_file_count dk g.
Proof.
  unfold Gui.update_file_count.
  cbn [Gui.pdf_files Gui.file_listbox Gui.output_path Gui.log_text].
  f_equal. destruct (Gui.pdf_files g) as [|f r]; [reflexivity|].
  destruct (Gui.output_path g) as [|c o]; cbn [nonempty negb];
    [|reflexivity].
  destruct (Gui.os_path_dirname dk f); reflexivity.
Qed.

(** X28. [add_files] only appends, and it appends what is new: the
    files listed before stay where they are, every file of the
    selection is listed afterwards, and adding the same selection once
    more leaves the window as it is. *)
Theorem add_files_appends_new_files (rt : Runtime) (dk : Gui.Desktop)
        (files : list text) (g : Gui.Window) :
  (exists new,
      Gui.pdf_files (Gui.add_files rt dk files g) = Gui.pdf_files g ++ new
      /\ incl new files
      /\ incl files (Gui.pdf_files (Gui.add_files rt dk files g)))
  /\ Gui.add_files rt dk files (Gui.add_files rt dk files g)
     = Gui.add_files rt dk files g.
Proof.
  destruct (add_each_grows rt files g) as (new & Hnew & Hin & Hall & _).
  split.
  - exists new. unfold Gui.add_files.
    cbn [Gui.update_file_count Gui.pdf_files]. rewrite Hnew.
    repeat split; assumption.
  - unfold Gui.add_files at 1. unfold Gui.add_files at 1.
    rewrite add_each_listed; [apply update_file_count_twice|].
    intros f Hf. cbn [Gui.update_file_count Gui.pdf_files].
    rewrite Hnew. exact (Hall f Hf).
Qed.

Lemma add_from_grows (rt : Runtime) (folder : text) (names : list text) :
  forall n g, exists added g',
      Gui.add_from rt folder names n g = (g', (n + length added)%nat)
      /\ Gui.pdf_files g'
         = Gui.pdf_files g ++ map (os_path_join rt folder) added
      /\ Gui.file_listbox g' = Gui.file_listbox g ++ added
      /\ Gui.output_path g' = Gui.output_path g
      /\ Gui.log_text g' = Gui.log_text g
      /\ incl added names.
Proof.
  induction names as [|f rest IH]; intros n g.
  - exists [], g. cbn [Gui.add_from length map]. rewrite !app_nil_r.
    rewrite Nat.add_0_r. repeat split. intros x [].
  - cbn [Gui.add_from].
    destruct (Gui.listed (os_path_join rt folder f) g); cbn [negb].
    + destruct (IH n g) as (added & g' & Hrun & H1 & H2 & H3 & H4 & H5).
      exists added, g'. repeat (split; [assumption|]).
      intros x Hx. right. exact (H5 x Hx).
    + destruct (IH (S n) (Gui.append (os_path_join rt folder f) f g))
        as (added & g' & Hrun & H1 & H2 & H3 & H4 & H5).
      cbn [Gui.append Gui.pdf_files Gui.file_listbox Gui.output_path
           Gui.log_text] in H1, H2, H3, H4.
      rewrite <- app_assoc in H1, H2.
      exists (f :: added), g'. cbn [length map].
      replace (n + S (length added))%nat with (S n + length added)%nat
        by lia.
      repeat (split; [assumption|]).
      intros x [<-|Hx]; [left; reflexivity|right; exact (H5 x Hx)].
Qed.

(** X29. For a folder that can be listed, [add_folder] appends files
    of that folder only, each under the folder's path in [pdf_files]
    and under its bare name in the list box, takes none whose
    lower-cased name does not end in [.pdf], and logs as the number of
    files added the number by which the list has grown. *)
Theorem add_folder_counts_what_it_adds (rt : Runtime) (dk : Gui.Desktop)
        (folder : text) (names : list text) (g : Gui.Window) :
  nonempty folder = true ->
  Gui.os_listdir dk folder = Ok names ->
  exists added g',
    Gui.add_folder rt dk folder g = (g', Ok tt)
    /\ Gui.pdf_files g'
       = Gui.pdf_files g ++ map (os_path_join rt folder) added
    /\ Gui.file_listbox g' = Gui.file_listbox g ++ added
    /\ Gui.log_text g'
       = Gui.log_text g ++ [Gui.LogFolderAdded (length added)]
    /\ (forall f, In f added ->
                  In f names
                  /\ Gui.endswith (py ".pdf") (Gui.lower dk f) = true).
Proof.
  intros Hfolder Hlist. unfold Gui.add_folder. rewrite Hfolder, Hlist.
  destruct (add_from_grows rt folder
              (List.filter
                 (fun f => Gui.endswith (py ".pdf") (Gui.lower dk f)) names)
              0 g) as (added & g1 & -> & H1 & H2 & _ & H4 & H5).
  exists added. eexists. split; [reflexivity|].
  cbn [Gui.update_file_count Gui.log Gui.pdf_files Gui.file_listbox
       Gui.log_text Nat.add].
  rewrite H1, H2, H4. repeat (split; [reflexivity|]).
  intros f Hf. apply H5, filter_In in Hf. exact Hf.
Qed.

Lemma add_folder_counts_what_it_adds_witness :
  exists added g',
    Gui.add_folder Posix.runtime Desk.desktop Desk.folder Desk.three_files
    = (g', Ok tt)
    /\ Gui.pdf_files g'
       = Gui.pdf_files Desk.three_files
         ++ map (os_path_join Posix.runtime Desk.folder) added
    /\ Gui.file_listbox g' = Gui.file_listbox Desk.three_files ++ added
    /\ Gui.log_text g'
       = Gui.log_text Desk.three_files
         ++ [Gui.LogFolderAdded (length added)]
    /\ (forall f, In f added ->
                  In f [py "a.pdf"; py "notes.txt"; py "B.PDF";
                        py "c.pdf.bak"]
                  /\ Gui.endswith (py ".pdf")
                       (Gui.lower Desk.desktop f) = true).
Proof.
  apply (add_folder_counts_what_it_adds Posix.runtime Desk.desktop
           Desk.folder
           [py "a.pdf"; py "notes.txt"; py "B.PDF"; py "c.pdf.bak"]
           Desk.three_files); reflexivity.
Defined.

Lemma remove_each_output_path (indices : list nat) :
  forall g, Gui.output_path (fst (Gui.remove_each indices g))
            = Gui.output_path g.
Proof.
  induction indices as [|i rest IH]; intros g; [reflexivity|].
  cbn [Gui.remove_each].
  destruct (Gui.del_item i (Gui.pdf_files g)); [rewrite IH|]; reflexivity.
Qed.

Lemma update_file_count_output_path (dk : Gui.Desktop) (g : Gui.Window) :
  nonempty (Gui.output_path g) = true ->
  Gui.output_path (Gui.update_file_count dk g) = Gui.output_path g.
Proof.
  intros H. cbn [Gui.update_file_count Gui.output_path]. rewrite H.
  destruct (Gui.pdf_files g); reflexivity.
Qed.

Lemma perform_output_path (rt : Runtime) (dk : Gui.Desktop) (g : Gui.Window)
      (a : Gui.action) :
  nonempty (Gui.output_path g) = true ->
  chooses_folder a = false ->
  Gui.output_path (Gui.perform rt dk g a) = Gui.output_path g.
Proof.
  intros Hout Ha.
  destruct a as [files|folder| |sel|folder]; cbn [Gui.perform];
    [| | | |discriminate Ha].
  - unfold Gui.add_files.
    destruct (add_each_grows rt files g) as (new & _ & _ & _ & Hsame).
    rewrite update_file_count_output_path; rewrite Hsame; [reflexivity|].
    exact Hout.
  - unfold Gui.add_folder. destruct (nonempty folder); [|reflexivity].
    destruct (Gui.os_listdir dk folder) as [names|e]; [|reflexivity].
    destruct (add_from_grows rt folder
                (List.filter
                   (fun f => Gui.endswith (py ".pdf") (Gui.lower dk f))
                   names) 0 g) as (added & g1 & -> & _ & _ & Hsame & _).
    cbn [fst]. rewrite update_file_count_output_path;
      cbn [Gui.log Gui.output_path]; rewrite Hsame; [reflexivity|].
    exact Hout.
  - unfold Gui.clear_files. cbn [Gui.log Gui.output_path].
    rewrite update_file_count_output_path; [reflexivity|exact Hout].
  - unfold Gui.remove_selected.
    pose proof (remove_each_output_path (rev sel) g) as Hsame.
    destruct (Gui.remove_each (rev sel) g) as [g1 [[]|e]]; cbn [fst] in *.
    + rewrite update_file_count_output_path; rewrite Hsame; [reflexivity|].
      exact Hout.
    + exact Hsame.
Qed.

(** X30. An output folder, once there is one, is changed by
    [select_output_folder] only: adding files or folders, removing a
    selection and clearing the list leave it, so that the folder taken
    from the first file stays when that file is no longer listed. *)
Theorem output_folder_is_kept (rt : Runtime) (dk : Gui.Desktop)
        (actions : list Gui.action) (g : Gui.Window) :
  nonempty (Gui.output_path g) = true ->
  forallb (fun a => negb (chooses_folder a)) actions = true ->
  Gui.output_path (fold_left (Gui.perform rt dk) actions g)
  = Gui.output_path g.
Proof.
  revert g. induction actions as [|a rest IH]; intros g Hout Hall;
    [reflexivity|].
  cbn [forallb] in Hall. apply andb_prop in Hall. destruct Hall as [Ha Hrest].
  apply negb_true_iff in Ha. cbn [fold_left].
  pose proof (perform_output_path rt dk g a Hout Ha) as Hstep.
  rewrite IH; [exact Hstep| |exact Hrest]. rewrite Hstep. exact Hout.
Qed.

Lemma output_folder_is_kept_witness :
  Gui.output_path
    (fold_left (Gui.perform Posix.runtime Desk.desktop)
       [Gui.ClearFiles; Gui.AddFolder Desk.folder;
        Gui.RemoveSelected [5%nat]; Gui.AddFiles [py "/other/d.pdf"]]
       Desk.three_files)
  = Gui.output_path Desk.three_files.
Proof.
  apply (output_folder_is_kept Posix.runtime Desk.desktop
           [Gui.ClearFiles; Gui.AddFolder Desk.folder;
            Gui.RemoveSelected [5%nat]; Gui.AddFiles [py "/other/d.pdf"]]
           Desk.three_files); reflexivity.
Defined.
